(** * jacobstoker/utility: the DVS spreadsheet transforms and the mask-area
      distribution builder, embedded from the Python sources

    - [src/excel_dvs_data/excel_dvs_data.py]  (module [Dvs])
    - [src/mask_area/mask_area.py]            (module [MaskArea])

    Both scripts are pandas pipelines.  The pandas, numpy and Python
    operations they call are written out below as list functions, one
    definition per call, with the documented behaviour of the call in its
    comment.  Numbers are IEEE binary64 ([PrimFloat.float], what Python's
    [float] and pandas' [float64] are); a missing value is NaN, as pandas
    stores it. *)

From Stdlib Require Import ZArith List String Ascii Bool Lia Permutation.
From Stdlib Require Import Floats Uint63.
From Stdlib Require Strings.Byte.
From Stdlib Require Import Reals Lra.
Import ListNotations.

Set Warnings "-inexact-float".

Local Open Scope Z_scope.
Local Open Scope list_scope.

(** ** Python exceptions and results *)

Inductive exn :=
| KeyError (label : string)   (* the argument of the exception: the label that the
                                 frame does not have, or a message that names it *)
| TypeError                   (* [-] applied to a [str] operand *)
| ValueError.                 (* [math.sqrt] of a negative number; the truth value of
                                 a [Series] *)

Inductive Result (A : Type) :=
| Ok (a : A)
| Raise (e : exn).
Arguments Ok {A} a.
Arguments Raise {A} e.

Definition bind {A B} (r : Result A) (k : A -> Result B) : Result B :=
  match r with
  | Ok a => k a
  | Raise e => Raise e
  end.

Notation "x <- r ;; k" := (bind r (fun x => k))
  (at level 61, r at next level, right associativity).

Fixpoint mapM {A B} (f : A -> Result B) (l : list A) : Result (list B) :=
  match l with
  | [] => Ok []
  | x :: r => y <- f x ;; ys <- mapM f r ;; Ok (y :: ys)
  end.

(** ** Series arithmetic shared by the two scripts *)

(** [Series.cumsum()] on integers.  The sums are [int64] in numpy; they are
    bounded by the number of rows times the largest summand, which for the
    columns below (flags and row counts) stays far from [2^63], so no
    wrap-around is written out. *)
Fixpoint cumsum_from (acc : Z) (l : list Z) : list Z :=
  match l with
  | [] => []
  | x :: r => (acc + x) :: cumsum_from (acc + x) r
  end.

Definition cumsum (l : list Z) : list Z := cumsum_from 0 l.

(** Python's [float(n)] / numpy's int64-to-float64 conversion for a count
    [0 <= n < 2^63]: round to nearest even (exact below [2^53]). *)
Definition float_of_count (n : Z) : float := PrimFloat.of_uint63 (Uint63.of_Z n).

Definition sum_Z (l : list Z) : Z := fold_right Z.add 0 l.

(** ** Vocabulary for statements about binary64 numbers *)

(** The real number a positive finite [spec_float] stands for. *)
Definition F2R (m : positive) (e : Z) : R := (IZR (Zpos m) * powerRZ 2 e)%R.

(** [2^-52], the distance from 1 to the next binary64 number. *)
Definition ulp52 : R := powerRZ 2 (-52).

(** Zero of either sign, a positive finite number or plus infinity. *)
Definition sf_nonneg (f : spec_float) : Prop :=
  match f with
  | S754_zero _ => True
  | S754_infinity s => s = false
  | S754_finite s _ _ => s = false
  | S754_nan => False
  end.

(** What [==] on two binary64 numbers decides: both are zeros, or both are
    the same number that is not NaN. *)
Definition sf_same (x y : spec_float) : Prop :=
  match x, y with
  | S754_zero _, S754_zero _ => True
  | S754_infinity s, S754_infinity s' => s = s'
  | S754_finite s m e, S754_finite s' m' e' => s = s' /\ m = m' /\ e = e'
  | _, _ => False
  end.

(** The real number a binary64 stands for; the infinities and NaN stand
    for none and are given 0. *)
Definition SF2R (f : spec_float) : R :=
  match f with
  | S754_finite s m e => if s then (- F2R m e)%R else F2R m e
  | _ => 0%R
  end.

Definition float_value (x : float) : R := SF2R (Prim2SF x).

(** * excel_dvs_data.py *)

Module Dvs.

(** A spreadsheet cell as [read_excel] delivers it: a number or a text.
    Excel stores every number as a binary64, and an empty cell is read as
    NaN; a column of whole numbers, which pandas holds as [int64], is
    written here with the binary64 of each number (the same value, and the
    same [!=] and [-] on it, below [2^53]). *)
Inductive cell :=
| Num (x : float)
| Str (s : string).

(** [Series.notna()] on one value. *)
Definition notna (c : cell) : bool :=
  match c with
  | Num x => negb (PrimFloat.is_nan x)
  | Str _ => true
  end.

Definition isna (c : cell) : bool := negb (notna c).

(** Elementwise [!=] of two values: numbers by IEEE comparison (NaN differs
    from everything, itself included), texts by content, a number and a text
    always differ. *)
Definition cell_ne (a b : cell) : bool :=
  match a, b with
  | Num x, Num y => negb (PrimFloat.eqb x y)
  | Str s, Str t => negb (String.eqb s t)
  | _, _ => true
  end.

Definition int_ne (a b : Z) : bool := negb (Z.eqb a b).

(** A column is either spreadsheet data ([float64] or [object] dtype) or an
    [int64] column of run ids computed by [add_change_column]. *)
Inductive column :=
| Values (l : list cell)
| Int64 (l : list Z).


(** The frame: its columns in order; all columns have one length.  The
    labels of a table are distinct (its rows are mappings from column name
    to value), and so are the labels of a sheet as [read_excel] delivers
    it; [df.columns.str.strip()] can make two of them equal. *)
Definition DataFrame := list (string * column).

Definition columns (df : DataFrame) : list string := map fst df.

(** [label in df.columns] *)
Definition has_column (label : string) (df : DataFrame) : bool :=
  existsb (String.eqb label) (columns df).

(** [df[label]] for a label that stands once in the frame.  For a label
    that stands more than once pandas answers a frame of all the columns of
    that label; this function then gives the first of them, and the code
    below asks [is_repeated] where the difference shows. *)
Fixpoint get_column (label : string) (df : DataFrame) : option column :=
  match df with
  | [] => None
  | (l, c) :: rest => if String.eqb label l then Some c else get_column label rest
  end.

Definition getitem (label : string) (df : DataFrame) : Result column :=
  match get_column label df with
  | Some c => Ok c
  | None => Raise (KeyError label)
  end.

(** [df[label] = c]: replaces the column in place when the label exists,
    appends it otherwise. *)
Fixpoint set_column (label : string) (c : column) (df : DataFrame) : DataFrame :=
  match df with
  | [] => [(label, c)]
  | (l, c') :: rest =>
      if String.eqb label l then (l, c) :: rest
      else (l, c') :: set_column label c rest
  end.

(** [df.drop(columns=[label], inplace=True)] *)
Definition drop_column (label : string) (df : DataFrame) : Result DataFrame :=
  if has_column label df
  then Ok (filter (fun lc => negb (String.eqb label (fst lc))) df)
  else Raise (KeyError ("['" ++ label ++ "'] not found in axis")%string).

(** How often a label stands in [df.columns].  The sheets [read_excel]
    delivers have distinct labels; stripping them can make two of them
    equal. *)
Definition label_count (label : string) (df : DataFrame) : nat :=
  List.length (filter (String.eqb label) (columns df)).

(** For a label that stands more than once [df[label]] is not a column but
    a frame of all the columns of that label. *)
Definition is_repeated (label : string) (df : DataFrame) : bool :=
  (2 <=? label_count label df)%nat.

(** *** solvent_a_or_b *)

Definition pressure_solvent (solvent : string) : string :=
  ("Target Partial Pressure (Solvent " ++ solvent ++ ") [%]")%string.

Fixpoint first_present (candidates : list string) (df : DataFrame) (default : string) : string :=
  match candidates with
  | [] => default
  | solvent :: rest =>
      if has_column (pressure_solvent solvent) df
      then pressure_solvent solvent
      else first_present rest df default
  end.

Definition solvent_a_or_b (df : DataFrame) : string :=
  first_present ["A"%string; "B"%string] df "Target Partial Pressure (Solvent A or B)"%string.

(** *** check_for_needed_columns *)

Definition needed_columns (pressure_solvent_column : string) : list string :=
  [ "Time [minutes]"%string;
    "Moisture content %"%string;
    "RH Direction"%string;
    pressure_solvent_column ].

(** [df[column].notna().any()] *)
Definition any_notna (c : column) : bool :=
  match c with
  | Values l => existsb notna l
  | Int64 l => match l with [] => false | _ => true end
  end.

Definition msg_full_of_nan (column : string) : string :=
  ("ERROR: Column '" ++ column ++ "' exists but is full of NaN values.")%string.

Definition msg_does_not_exist (column : string) : string :=
  ("ERROR: '" ++ column ++ "' column does not exist")%string.

(** The loop over [needed_columns]; the result is the returned boolean and
    the lines handed to [logging.error].  For a label that stands more than
    once, [df[column].notna().any()] is a [Series] of one boolean per
    column of that label, and [not] of it raises [ValueError]. *)
Fixpoint check_columns (df : DataFrame) (needed : list string)
  : Result (bool * list string) :=
  match needed with
  | [] => Ok (true, [])
  | column :: rest =>
      match get_column column df with
      | Some c =>
          if is_repeated column df then Raise ValueError
          else if negb (any_notna c)
          then Ok (false, [msg_full_of_nan column])
          else check_columns df rest
      | None => Ok (false, [msg_does_not_exist column])
      end
  end.

Definition check_for_needed_columns (df : DataFrame) (pressure_solvent_column : string)
  : Result (bool * list string) :=
  check_columns df (needed_columns pressure_solvent_column).

(** *** add_change_column *)

(** [Series.shift()]: every value moves one row down, the first row is
    filled with NaN ([None] here), the last value falls off. *)
Definition shift {A} (l : list A) : list (option A) :=
  firstn (List.length l) (None :: map Some l).

(** [value != shifted value]; against the NaN fill the answer is [True]
    whatever the value is. *)
Definition ne_shifted {A} (ne : A -> A -> bool) (x : A) (prev : option A) : bool :=
  match prev with
  | None => true
  | Some y => ne x y
  end.

Fixpoint zip_with {A B C} (f : A -> B -> C) (l : list A) (l' : list B) : list C :=
  match l, l' with
  | x :: r, y :: r' => f x y :: zip_with f r r'
  | _, _ => []
  end.

(** [(s != s.shift()).cumsum()] *)
Definition change_ids {A} (ne : A -> A -> bool) (s : list A) : list Z :=
  cumsum (map Z.b2z (zip_with (ne_shifted ne) s (shift s))).

Definition column_change (c : column) : list Z :=
  match c with
  | Values l => change_ids cell_ne l
  | Int64 l => change_ids int_ne l
  end.

Definition add_change_column (df : DataFrame) (target_column new_column_name : string)
  : Result DataFrame :=
  c <- getitem target_column df ;;
  Ok (set_column new_column_name (Int64 (column_change c)) df).

(** *** add_normalised_column *)

(** [df.groupby(keys)[target].transform("first")] on one row: pandas'
    [GroupBy.first] is the first entry of the group that is not NA
    ("Defaults to skipping NA elements"), broadcast to every row of the
    group; a row whose key is NA belongs to no group ([dropna=True]) and
    gets NA.  [None] is NA. *)
Definition group_first {K V} (same : K -> K -> bool) (dropped : K -> bool)
    (valid : V -> bool) (keys : list K) (vals : list V) : list (option V) :=
  map (fun k =>
         if dropped k then None
         else option_map snd
                (find (fun kv => same (fst kv) k && valid (snd kv)) (combine keys vals)))
      keys.

Definition cell_same (a b : cell) : bool := negb (cell_ne a b).

Definition cell_of_option (o : option cell) : cell :=
  match o with
  | Some c => c
  | None => Num PrimFloat.nan
  end.

Definition is_some {A} (o : option A) : bool :=
  match o with Some _ => true | None => false end.

Definition float_of_option (o : option Z) : float :=
  match o with
  | Some z => float_of_count z
  | None => PrimFloat.nan
  end.

(** The broadcast column: data stays data; run ids stay [int64] unless a
    dropped key leaves a NaN, which turns the column into [float64]. *)
Definition first_of_groups {K} (same : K -> K -> bool) (dropped : K -> bool)
    (keys : list K) (target : column) : column :=
  match target with
  | Values vals => Values (map cell_of_option (group_first same dropped notna keys vals))
  | Int64 vals =>
      let firsts := group_first same dropped (fun _ => true) keys vals in
      if forallb is_some firsts
      then Int64 (map (fun o => match o with Some z => z | None => 0 end) firsts)
      else Values (map (fun o => Num (float_of_option o)) firsts)
  end.

Definition transform_first (keys target : column) : column :=
  match keys with
  | Values ks => first_of_groups cell_same isna ks target
  | Int64 ks => first_of_groups Z.eqb (fun _ => false) ks target
  end.

(** [a - b] on the values of one row.  On two numbers it is the IEEE
    subtraction, which is NaN as soon as an operand is NaN.  Where a column
    holds a text it has [object] dtype, and pandas subtracts only in the
    rows where neither operand is missing and gives NaN in the others; in
    the rows it does subtract, a text raises [TypeError]. *)
Definition cell_sub (a b : cell) : Result cell :=
  if isna a || isna b then Ok (Num PrimFloat.nan)
  else match a, b with
       | Num x, Num y => Ok (Num (PrimFloat.sub x y))
       | _, _ => Raise TypeError
       end.

Definition to_cells (c : column) : list cell :=
  match c with
  | Values l => l
  | Int64 l => map (fun z => Num (float_of_count z)) l
  end.

(** [a - b] on two columns of the frame. *)
Definition column_sub (a b : column) : Result column :=
  match a, b with
  | Int64 xs, Int64 ys => Ok (Int64 (zip_with Z.sub xs ys))
  | _, _ =>
      l <- mapM (fun ab => cell_sub (fst ab) (snd ab)) (combine (to_cells a) (to_cells b)) ;;
      Ok (Values l)
  end.

(** [df.groupby(grouping_column)[target_column]]: a missing target is
    reported with a message, not with the bare label. *)
Definition groupby_getitem (label : string) (df : DataFrame) : Result column :=
  match get_column label df with
  | Some c => Ok c
  | None => Raise (KeyError ("Column not found: " ++ label)%string)
  end.

Definition add_normalised_column (df : DataFrame)
    (grouping_column target_column new_column_name : string) : Result DataFrame :=
  keys <- getitem grouping_column df ;;
  target <- groupby_getitem target_column df ;;
  let at_change := (target_column ++ "_at_change")%string in
  let df := set_column at_change (transform_first keys target) df in
  a <- getitem target_column df ;;
  b <- getitem at_change df ;;
  d <- column_sub a b ;;
  let df := set_column (new_column_name ++ " NEW")%string d df in
  drop_column at_change df.

(** *** the two step families *)

Definition add_pressure_change_columns (df : DataFrame) (pressure_solvent_column : string)
  : Result DataFrame :=
  df <- add_change_column df pressure_solvent_column "Pressure Change" ;;
  df <- add_normalised_column df "Pressure Change" "Time [minutes]"
          "Normalised time (Individual RH Steps)" ;;
  df <- add_normalised_column df "Pressure Change" "Moisture content %"
          "Normalised moisture content per RH step" ;;
  drop_column "Pressure Change" df.

Definition add_direction_change_columns (df : DataFrame) : Result DataFrame :=
  df <- add_change_column df "RH Direction" "Direction Change" ;;
  df <- add_normalised_column df "Direction Change" "Time [minutes]"
          "Normalised time (up vs down RH ramps)" ;;
  drop_column "Direction Change" df.

Definition calculate_and_add_columns (df : DataFrame) (pressure_solvent_column : string)
  : Result DataFrame :=
  df <- add_pressure_change_columns df pressure_solvent_column ;;
  add_direction_change_columns df.

(** *** process_spreadsheet *)

Definition nl : string := String (ascii_of_nat 10) EmptyString.

Section Workbook.

(** Library calls of the loop that work on text, kept as parameters:
    [re.match(r"^Sheet\d+$", sheet)], [str.strip] on a column label and
    [pd.to_numeric(errors="ignore")] on a column. *)
Variable is_unnamed_sheet : string -> bool.
Variable strip : string -> string.
Variable to_numeric : column -> column.

Definition strip_columns (df : DataFrame) : DataFrame :=
  map (fun lc => (strip (fst lc), snd lc)) df.

Definition apply_to_numeric (df : DataFrame) : DataFrame :=
  map (fun lc => (fst lc, to_numeric (snd lc))) df.

(** The loop over the sheets of the source workbook.  The result is the
    log and either the sheets handed to the writer, in order, or the
    exception that ended the run. *)
Fixpoint process_sheets (src_workbook : list (string * DataFrame))
  : list string * Result (list (string * DataFrame)) :=
  match src_workbook with
  | [] => ([], Ok [])
  | (sheet, df) :: rest =>
      if is_unnamed_sheet sheet then
        let (log, written) := process_sheets rest in
        (("Skipping " ++ sheet ++ nl)%string :: log, written)
      else
        let df := strip_columns df in
        let pressure_solvent_column := solvent_a_or_b df in
        match check_for_needed_columns df pressure_solvent_column with
        | Raise e => ([("Processing " ++ sheet)%string], Raise e)
        | Ok (ok, errors) =>
            if negb ok then
              let (log, written) := process_sheets rest in
              (("Processing " ++ sheet)%string :: errors
                 ++ ("Skipping " ++ sheet ++ " because of missing column" ++ nl)%string :: log,
               written)
            else
              match calculate_and_add_columns (apply_to_numeric df) pressure_solvent_column with
              | Raise e => ([("Processing " ++ sheet)%string], Raise e)
              | Ok df =>
                  let (log, written) := process_sheets rest in
                  (("Processing " ++ sheet)%string :: log,
                   w <- written ;; Ok ((sheet, df) :: w))
              end
        end
  end.

Definition process_spreadsheet (src_workbook : list (string * DataFrame))
  : Result (list (string * DataFrame)) :=
  snd (process_sheets src_workbook).

End Workbook.

(** *** Vocabulary of the statements about runs *)

(** The flags [s != s.shift()] written as a recursion over the rows, with
    the value of the row above carried along ([None] above the first row). *)
Fixpoint flags_from {A} (ne : A -> A -> bool) (prev : option A) (s : list A) : list bool :=
  match s with
  | [] => []
  | x :: r => ne_shifted ne x prev :: flags_from ne (Some x) r
  end.

(** The number of runs: the id of the last row ([0] for no row). *)
Definition run_count (ids : list Z) : Z := last ids 0.

(** The id in the row above row [i]; above the first row the running sum
    is still [0]. *)
Definition id_above (ids : list Z) (i : nat) : Z :=
  match i with
  | O => 0
  | S j => nth j ids 0
  end.


(** The value [transform("first")] broadcasts to the rows with run id [k],
    for a numeric target: the first target value of those rows that is not
    NaN, and NaN when they are all NaN. *)
Definition first_valid (ids : list Z) (xs : list float) (k : Z) : float :=
  match find (fun kv => Z.eqb (fst kv) k && negb (PrimFloat.is_nan (snd kv)))
             (combine ids xs) with
  | Some kv => snd kv
  | None => PrimFloat.nan
  end.

(** The last character of a label. *)
Fixpoint last_char (s : string) : option ascii :=
  match s with
  | EmptyString => None
  | String c EmptyString => Some c
  | String _ r => last_char r
  end.

(** A column holds at least one value that is not missing. *)
Definition has_value (c : column) : Prop :=
  match c with
  | Values l => exists v, In v l /\ notna v = true
  | Int64 l => l <> []
  end.

(** *** Vocabulary of the statements about whole sheets *)

(** A numeric target normalised by run id: every value minus the first
    valid value of its run. *)
Definition normalised_by (ids : list Z) (xs : list float) : list float :=
  zip_with PrimFloat.sub xs (map (first_valid ids xs) ids).





Section Sheets.
Variable is_unnamed_sheet : string -> bool.
Variable strip : string -> string.
Variable to_numeric : column -> column.

(** The sheets the loop of [process_spreadsheet] does not skip: the name
    is not an unnamed sheet's and the check passes. *)
Definition is_processed (s : string * DataFrame) : bool :=
  negb (is_unnamed_sheet (fst s))
  && match check_for_needed_columns (strip_columns strip (snd s))
             (solvent_a_or_b (strip_columns strip (snd s))) with
     | Ok (ok, _) => ok
     | Raise _ => false
     end.

(** The sheets the loop skips: the name is an unnamed sheet's, or the
    check answers [False].  A sheet on which the check raises is neither
    skipped nor processed. *)
Definition is_skipped (s : string * DataFrame) : bool :=
  is_unnamed_sheet (fst s)
  || match check_for_needed_columns (strip_columns strip (snd s))
             (solvent_a_or_b (strip_columns strip (snd s))) with
     | Ok (ok, _) => negb ok
     | Raise _ => false
     end.

(** What the loop computes for a sheet it does not skip. *)
Definition computed (s : string * DataFrame) : Result DataFrame :=
  calculate_and_add_columns (apply_to_numeric to_numeric (strip_columns strip (snd s)))
    (solvent_a_or_b (strip_columns strip (snd s))).

End Sheets.

End Dvs.

(** * mask_area.py *)

Module MaskArea.

(** A mask as [cv2.imread(path, 0)] decodes it: rows of 8-bit grey levels. *)
Definition raster := list (list Byte.byte).

(** [cv2.countNonZero(image)] *)
Definition countNonZero (image : raster) : Z :=
  sum_Z (map (fun line =>
                Z.of_nat (List.length (filter (fun px => negb (Byte.eqb px Byte.x00)) line)))
             image).

Definition area_of_pixel : float := 4.92843e-05%float.

(** [imread] answers [None] for a file it cannot decode; the function has
    no test for it, and [countNonZero(None)] is 0.  Nothing in the function
    raises. *)
Definition get_mask_area (image : option raster) : Result float :=
  let num_of_pixels :=
    match image with
    | None => 0
    | Some image => countNonZero image
    end in
  let mask_area := (area_of_pixel * float_of_count num_of_pixels)%float in
  let mask_area_microns := (mask_area * 1000)%float in
  Ok mask_area_microns.

(** [math.pi] *)
Definition math_pi : float := 0x1.921fb54442d18p+1%float.

(** [math.sqrt]: "math domain error" below zero, NaN passes through. *)
Definition math_sqrt (x : float) : Result float :=
  if (x <? 0)%float then Raise ValueError else Ok (PrimFloat.sqrt x).

Definition get_diameter_from_area (area : float) : Result float :=
  radius <- math_sqrt (area / math_pi)%float ;;
  let diameter := (radius * 2)%float in
  Ok diameter.

(** One record of [data] in [create_csvs]. *)
Record image_data := { Grid : string; Mask : Z; Area : float }.

(** One line of the CSV.  [None] in [Freq] and [Cumulative_Freq] is NaN;
    [None] in [Percentage_of_Particle] is the column not being there. *)
Record csv_row := {
  image : image_data;
  Diameter : float;
  Freq : option Z;
  Cumulative_Freq : option Z;
  Percentage_of_Particle : option float
}.

(** [pd.DataFrame(data).columns]: a frame built from no record has no
    column at all. *)
Definition frame_columns (images_df : list image_data) : list string :=
  match images_df with
  | [] => []
  | _ => ["Grid"%string; "Mask"%string; "Area"%string]
  end.

Fixpoint check_labels (cols labels : list string) : Result unit :=
  match labels with
  | [] => Ok tt
  | label :: rest =>
      if existsb (String.eqb label) cols then check_labels cols rest
      else Raise (KeyError label)
  end.

Section Classes.
Context {A : Type}.
Variable eqv : A -> A -> bool.

(** How many entries of [s] are equal to [d]. *)
Definition occurrences (s : list A) (d : A) : Z :=
  Z.of_nat (List.length (filter (fun x => eqv x d) s)).

(** The values of [s] without repetition, in order of first appearance. *)
Fixpoint distinct (s : list A) : list A :=
  match s with
  | [] => []
  | x :: r => x :: filter (fun y => negb (eqv y x)) (distinct r)
  end.

(** The sum over the distinct values of the square of their multiplicity. *)
Definition sum_of_squares (s : list A) : Z :=
  sum_Z (map (fun d => occurrences s d * occurrences s d) (distinct s)).

(** No two entries of [s] are equal. *)
Definition tie_free (d0 : A) (s : list A) : Prop :=
  forall i j, (i < j < List.length s)%nat -> eqv (nth i s d0) (nth j s d0) = false.

End Classes.

(** [s.map(s.value_counts())] at one value: [value_counts] leaves NaN out
    and counts the others by [==]; a value without an entry maps to NaN. *)
Definition value_counts (s : list float) (d : float) : option Z :=
  if PrimFloat.is_nan d then None
  else Some (occurrences PrimFloat.eqb s d).

(** [Series.cumsum()] with its default [skipna=True]: a NaN stays NaN and
    does not enter the running sum. *)
Fixpoint cumsum_skipna (acc : Z) (l : list (option Z)) : list (option Z) :=
  match l with
  | [] => []
  | None :: r => None :: cumsum_skipna acc r
  | Some x :: r => Some (acc + x) :: cumsum_skipna (acc + x) r
  end.

(** [((sorted_df.index + 1) / len(sorted_df)) * 100] over the fresh
    [RangeIndex] [0 .. n-1]. *)
Definition percentage_of_particle (n : nat) : list float :=
  map (fun k => (float_of_count (Z.of_nat k + 1) / float_of_count (Z.of_nat n) * 100)%float)
      (seq 0 n).

Fixpoint make_rows (images : list image_data) (diameter : list float)
    (freq cumulative : list (option Z)) (percentage : list (option float)) : list csv_row :=
  match images, diameter, freq, cumulative, percentage with
  | i :: images, d :: diameter, f :: freq, c :: cumulative, p :: percentage =>
      {| image := i; Diameter := d; Freq := f; Cumulative_Freq := c;
         Percentage_of_Particle := p |} :: make_rows images diameter freq cumulative percentage
  | _, _, _, _, _ => []
  end.

Section Builder.

(** [DataFrame.sort_values(by=...)] with pandas' default [kind]: the rows
    reordered by the key columns.  How rows that tie on the key are
    ordered is decided inside pandas and numpy, so the reordering is a
    parameter of the builder. *)
Variable sort_values : list string -> list image_data -> list image_data.

(** The lines written to [output_csv]. *)
Definition update_and_save_dataframe (images_df : list image_data) (sort_by : list string)
    (calculate_percent : bool) : Result (list csv_row) :=
  _ <- check_labels (frame_columns images_df) sort_by ;;
  let sorted_df := sort_values sort_by images_df in
  _ <- check_labels (frame_columns sorted_df) ["Area"%string] ;;
  diameter <- mapM get_diameter_from_area (map Area sorted_df) ;;
  let freq := map (value_counts diameter) diameter in
  let cumulative := cumsum_skipna 0 freq in
  let percentage :=
    if calculate_percent
    then map Some (percentage_of_particle (List.length sorted_df))
    else map (fun _ => None) sorted_df in
  Ok (make_rows sorted_df diameter freq cumulative percentage).

End Builder.

(** *** An instance of [sort_values]

    Insertion sort on the key columns, which leaves rows that tie on the key
    in the order they came in.  It is what the builder is run with in the
    examples below. *)

Definition label_lt (label : string) (a b : image_data) : bool :=
  if String.eqb label "Grid" then String.ltb (Grid a) (Grid b)
  else if String.eqb label "Mask" then Z.ltb (Mask a) (Mask b)
  else if String.eqb label "Area" then PrimFloat.ltb (Area a) (Area b)
  else false.

Fixpoint key_lt (sort_by : list string) (a b : image_data) : bool :=
  match sort_by with
  | [] => false
  | label :: rest =>
      label_lt label a b || (negb (label_lt label b a) && key_lt rest a b)
  end.

Fixpoint insert_row (sort_by : list string) (r : image_data) (l : list image_data)
  : list image_data :=
  match l with
  | [] => [r]
  | x :: l' => if key_lt sort_by x r then x :: insert_row sort_by r l' else r :: x :: l'
  end.

Definition stable_sort_values (sort_by : list string) (t : list image_data)
  : list image_data :=
  fold_right (insert_row sort_by) [] t.

(** *** create_csvs

    The body of the loop over the subdirectories.  A file name is the text
    of its bytes; the pattern names ASCII characters only and a byte of a
    longer UTF-8 sequence is never one of them, so the groups found on bytes
    are the groups found on characters.  What the file system answers
    ([is_file], [rglob], [imread]) comes in as arguments. *)

(** The class [[0-9]]. *)
Definition is_digit (c : ascii) : bool :=
  (48 <=? nat_of_ascii c)%nat && (nat_of_ascii c <=? 57)%nat.

Definition newline : ascii := ascii_of_nat 10.

(** The group [([0-9]+)] is greedy and nothing follows it in the pattern:
    it takes every digit there is. *)
Fixpoint digits_prefix (s : string) : string :=
  match s with
  | EmptyString => EmptyString
  | String c r => if is_digit c then String c (digits_prefix r) else EmptyString
  end.

(** [_mask([0-9]+)] matched at the start of [s]. *)
Definition mask_group (s : string) : option string :=
  match s with
  | String "_" (String "m" (String "a" (String "s" (String "k" r)))) =>
      match digits_prefix r with
      | EmptyString => None
      | mask => Some mask
      end
  | _ => None
  end.

(** [(.+)_mask([0-9]+)] matched at the start of [s]: [.] is any character
    but the newline, and the greedy [.+] takes the longest stretch after
    which the rest of the pattern still matches. *)
Fixpoint match_here (s : string) : option (string * string) :=
  match s with
  | EmptyString => None
  | String c r =>
      if Ascii.eqb c newline then None
      else match match_here r with
           | Some (grid, mask) => Some (String c grid, mask)
           | None => option_map (fun mask => (String c EmptyString, mask)) (mask_group r)
           end
  end.

(** [re.findall(pattern, name)[0]]: the match that starts first; [None]
    when the list of matches is empty. *)
Fixpoint first_match (name : string) : option (string * string) :=
  match match_here name with
  | Some groups => Some groups
  | None =>
      match name with
      | EmptyString => None
      | String _ r => first_match r
      end
  end.

(** [int(mask)] on a text of decimal digits (a file name is far shorter
    than the 4300 digits above which [int] refuses a text). *)
Definition digit_value (c : ascii) : Z := Z.of_nat (nat_of_ascii c) - 48.

Fixpoint int_from (acc : Z) (s : string) : Z :=
  match s with
  | EmptyString => acc
  | String c r => int_from (10 * acc + digit_value c) r
  end.

Definition int (s : string) : Z := int_from 0 s.

(** What can end the loop over a subdirectory: [matches[0]] on an empty
    list, or an exception of the functions above. *)
Inductive csvs_exn :=
| IndexError
| Inner (e : exn).

(** The loop over [image_paths]; an image is its file name and what
    [cv2.imread] makes of the file: [None] when it cannot decode it, and
    the record then holds the area of no pixel. *)
Fixpoint collect (image_paths : list (string * option raster)) : csvs_exn + list image_data :=
  match image_paths with
  | [] => inr []
  | (name, image) :: rest =>
      match first_match name with
      | None => inl IndexError
      | Some (grid, mask) =>
          let mask := int mask in
          if (mask =? 0) || (mask =? 1) then collect rest
          else
            match get_mask_area image with
            | Raise e => inl (Inner e)
            | Ok area =>
                match collect rest with
                | inl e => inl e
                | inr data => inr ({| Grid := grid; Mask := mask; Area := area |} :: data)
                end
            end
      end
  end.

(** The two notes of [skipped_folders.log]. *)
Definition note_subdirectory (subdirectory : string) : string :=
  ("NOTE: Skipping '" ++ subdirectory ++ "' because the CSVs already exist"
     ++ String newline EmptyString)%string.

Definition note_csv (name : string) : string :=
  ("NOTE: Skipping '" ++ name ++ "' because it already exists"
     ++ String newline EmptyString)%string.

Section Subdirectory.
Variable sort_values : list string -> list image_data -> list image_data.

(** One call of [update_and_save_dataframe] of the loop, left out when the
    CSV exists. *)
Definition save (exists_already : bool) (images_df : list image_data) (sort_by : list string)
    (output_csv : string) (calculate_percent : bool) : Result (list (string * list csv_row)) :=
  if exists_already then Ok []
  else rows <- update_and_save_dataframe sort_values images_df sort_by calculate_percent ;;
       Ok [(output_csv, rows)].

(** The body of the loop over the subdirectories.  [grid_is_file] and
    [full_sort_is_file] are the answers of [Path.is_file()] for the two
    CSVs, [image_paths] is what [rglob("*.jpg")] finds.  The result is the
    lines written to the log file, the CSVs written, in order, and the
    exception that ended the run, if any. *)
Definition subdirectory_csvs (force_update : bool) (subdirectory csv_basename : string)
    (grid_is_file full_sort_is_file : bool) (image_paths : list (string * option raster))
  : list string * list (string * list csv_row) * option csvs_exn :=
  let grid_sorted_csv_name := (csv_basename ++ ".csv")%string in
  let grid_csv_exists := grid_is_file && negb force_update in
  let fully_sorted_csv_name := (csv_basename ++ "_full_sort.csv")%string in
  let full_sort_csv_exists := full_sort_is_file && negb force_update in
  if grid_csv_exists && full_sort_csv_exists then
    ([note_subdirectory subdirectory], [], None)
  else
    let log :=
      if grid_csv_exists then [note_csv grid_sorted_csv_name]
      else if full_sort_csv_exists then [note_csv fully_sorted_csv_name]
      else [] in
    match image_paths with
    | [] => (log, [], None)
    | _ :: _ =>
        match collect image_paths with
        | inl e => (log, [], Some e)
        | inr images_df =>
            match save grid_csv_exists images_df ["Grid"; "Area"]%string
                    grid_sorted_csv_name false with
            | Raise e => (log, [], Some (Inner e))
            | Ok grid_sorted =>
                match save full_sort_csv_exists images_df ["Area"%string]
                        fully_sorted_csv_name true with
                | Raise e => (log, grid_sorted, Some (Inner e))
                | Ok fully_sorted => (log, grid_sorted ++ fully_sorted, None)
                end
            end
        end
    end.

End Subdirectory.

(** *** plot_data

    The choice of the CSVs to plot and the legend label of each. *)

(** [s.split("_")] *)
Fixpoint split_underscore (s : string) : list string :=
  match s with
  | EmptyString => [EmptyString]
  | String c r =>
      if Ascii.eqb c "_" then EmptyString :: split_underscore r
      else match split_underscore r with
           | field :: fields => String c field :: fields
           | [] => [String c EmptyString]
           end
  end.

(** [s.startswith(p)] *)
Fixpoint starts_with (p s : string) : bool :=
  match p, s with
  | EmptyString, _ => true
  | String a p', String b s' => Ascii.eqb a b && starts_with p' s'
  | String _ _, EmptyString => false
  end.

(** [p in s] *)
Fixpoint contains (p s : string) : bool :=
  starts_with p s
  || match s with
     | EmptyString => false
     | String _ r => contains p r
     end.

(** The test of the list comprehension on a file of the directory, given
    its [Path.suffix] and [Path.stem]. *)
Definition is_plotted (suffix stem : string) : bool :=
  String.eqb suffix ".csv" && contains "full_sort" stem.

(** [csv.stem.split("_")[1]]; [None] is the [IndexError]. *)
Definition plot_label (stem : string) : option string :=
  nth_error (split_underscore stem) 1.
(** *** Vocabulary of the statements about file names *)

(** Every character of [s] passes the test [p]. *)
Fixpoint all_chars (p : ascii -> bool) (s : string) : bool :=
  match s with
  | EmptyString => true
  | String c r => p c && all_chars p r
  end.

Definition not_underscore (c : ascii) : bool := negb (Ascii.eqb c "_").

Definition not_newline (c : ascii) : bool := negb (Ascii.eqb c newline).

End MaskArea.

(** * Facts about binary64 arithmetic used below *)

Module FloatFacts.

Lemma SFcompare_finite_refl s m e :
  SFcompare (S754_finite s m e) (S754_finite s m e) = Some Eq.
Proof.
  simpl. rewrite Z.compare_refl.
  assert (H : Pos.compare_cont Eq m m = Eq) by apply Pos.compare_cont_refl.
  rewrite H. destruct s; reflexivity.
Qed.

Lemma is_nan_spec x : PrimFloat.is_nan x = true <-> Prim2SF x = S754_nan.
Proof.
  unfold PrimFloat.is_nan. rewrite FloatAxioms.eqb_spec. unfold SFeqb.
  destruct (Prim2SF x) as [s|s| |s m e] eqn:E.
  - simpl. split; discriminate.
  - destruct s; simpl; split; discriminate.
  - simpl. split; reflexivity.
  - rewrite SFcompare_finite_refl. simpl. split; discriminate.
Qed.

Lemma is_nan_eq x : PrimFloat.is_nan x = true <-> x = PrimFloat.nan.
Proof.
  rewrite is_nan_spec. split.
  - intros H. apply Prim2SF_inj. rewrite H. reflexivity.
  - intros ->. reflexivity.
Qed.

Lemma is_infinity_spec x :
  PrimFloat.is_infinity x = true <-> exists s, Prim2SF x = S754_infinity s.
Proof.
  unfold PrimFloat.is_infinity. rewrite FloatAxioms.eqb_spec, FloatAxioms.abs_spec.
  change (Prim2SF infinity) with (S754_infinity false).
  destruct (Prim2SF x) as [s|s| |s m e]; simpl; split; try discriminate.
  all: try (intros [s' H]; discriminate).
  - intros _. now exists s.
  - reflexivity.
Qed.


Lemma sub_nan_l y : PrimFloat.sub PrimFloat.nan y = PrimFloat.nan.
Proof. apply Prim2SF_inj. rewrite FloatAxioms.sub_spec. reflexivity. Qed.

Lemma sub_nan_r x : PrimFloat.sub x PrimFloat.nan = PrimFloat.nan.
Proof.
  apply Prim2SF_inj. rewrite FloatAxioms.sub_spec. change (Prim2SF nan) with S754_nan.
  destruct (Prim2SF x); reflexivity.
Qed.

End FloatFacts.

(** * The Run-Change Detector *)

Module DetectorFacts.
Import Dvs.

Section Detector.
Context {A : Type}.
Variable ne : A -> A -> bool.

Lemma flags_shift (prev : option A) (s : list A) :
    zip_with (ne_shifted ne) s (firstn (List.length s) (prev :: map Some s))
    = flags_from ne prev s.
  Proof.
    revert prev. induction s as [|x r IH]; intros prev; simpl.
    - reflexivity.
    - f_equal. apply IH.
  Qed.

Lemma change_ids_flags (s : list A) :
    change_ids ne s = cumsum (map Z.b2z (flags_from ne None s)).
  Proof. unfold change_ids, shift. now rewrite flags_shift. Qed.

Lemma flags_from_length prev s : List.length (flags_from ne prev s) = List.length s.
  Proof. revert prev. induction s; intros; simpl; auto. Qed.

Lemma flags_from_nth (d : A) prev s i :
    (i < List.length s)%nat ->
    nth i (flags_from ne prev s) false
    = ne_shifted ne (nth i s d) (match i with O => prev | S j => Some (nth j s d) end).
  Proof.
    revert prev i. induction s as [|x r IH]; intros prev i Hi; simpl in Hi.
    - lia.
    - destruct i as [|j]; simpl.
      + reflexivity.
      + rewrite IH by lia. destruct j; reflexivity.
  Qed.
End Detector.

Lemma cumsum_from_length acc l : List.length (cumsum_from acc l) = List.length l.
Proof. revert acc. induction l; intros; simpl; auto. Qed.

Lemma cumsum_from_nth_0 acc l :
  (0 < List.length l)%nat -> nth 0 (cumsum_from acc l) 0 = acc + nth 0 l 0.
Proof. destruct l; simpl; [lia | reflexivity]. Qed.

Lemma cumsum_from_nth_S acc l i :
  (S i < List.length l)%nat ->
  nth (S i) (cumsum_from acc l) 0 = nth i (cumsum_from acc l) 0 + nth (S i) l 0.
Proof.
  revert acc i. induction l as [|x r IH]; intros acc i Hi; simpl in Hi.
  - lia.
  - destruct i as [|j].
    + destruct r as [|y r']; simpl in *; [lia | reflexivity].
    + change (nth (S (S j)) (cumsum_from acc (x :: r)) 0)
        with (nth (S j) (cumsum_from (acc + x) r) 0).
      rewrite IH by lia. reflexivity.
  Qed.

Lemma nth_map_b2z i l : nth i (map Z.b2z l) 0 = Z.b2z (nth i l false).
Proof. change 0 with (Z.b2z false). apply map_nth. Qed.

Section Ids.
Context {A : Type}.
Variable ne : A -> A -> bool.
Variable d : A.

Lemma change_ids_length s : List.length (change_ids ne s) = List.length s.
  Proof.
    rewrite change_ids_flags. unfold cumsum.
    now rewrite cumsum_from_length, length_map, flags_from_length.
  Qed.

Lemma change_ids_first s :
    (0 < List.length s)%nat -> nth 0 (change_ids ne s) 0 = 1.
  Proof.
    intros H. rewrite change_ids_flags. unfold cumsum.
    rewrite cumsum_from_nth_0 by (now rewrite length_map, flags_from_length).
    rewrite nth_map_b2z, (flags_from_nth ne d) by assumption. reflexivity.
  Qed.

Lemma change_ids_step s i :
    (S i < List.length s)%nat ->
    nth (S i) (change_ids ne s) 0
    = nth i (change_ids ne s) 0 + Z.b2z (ne (nth (S i) s d) (nth i s d)).
  Proof.
    intros H. rewrite change_ids_flags. unfold cumsum.
    rewrite cumsum_from_nth_S by (now rewrite length_map, flags_from_length).
    rewrite nth_map_b2z, (flags_from_nth ne d) by assumption. reflexivity.
  Qed.

Lemma change_ids_mono s i j :
    (i <= j)%nat -> (j < List.length s)%nat ->
    nth i (change_ids ne s) 0 <= nth j (change_ids ne s) 0.
  Proof.
    induction 1 as [|j Hij IH]; intros Hj.
    - lia.
    - rewrite (change_ids_step s j) by assumption.
      specialize (IH ltac:(lia)).
      destruct (ne _ _); simpl; lia.
  Qed.

Lemma change_ids_bound s i :
    (i < List.length s)%nat ->
    1 <= nth i (change_ids ne s) 0 <= Z.of_nat i + 1.
  Proof.
    induction i as [|i IH]; intros Hi.
    - rewrite change_ids_first by assumption. lia.
    - rewrite change_ids_step by assumption.
      specialize (IH ltac:(lia)). destruct (ne _ _); simpl; lia.
  Qed.

(** The id of row [i] is [i + 1] exactly when every row up to [i]
      differs from the row above it. *)
Lemma change_ids_full s i :
    (i < List.length s)%nat ->
    nth i (change_ids ne s) 0 = Z.of_nat i + 1
    <-> (forall k, (S k <= i)%nat -> ne (nth (S k) s d) (nth k s d) = true).
  Proof.
    induction i as [|i IH]; intros Hi.
    - rewrite change_ids_first by assumption. split; [intros _ k Hk; lia | reflexivity].
    - rewrite change_ids_step by assumption.
      specialize (IH ltac:(lia)).
      pose proof (change_ids_bound s i ltac:(lia)) as Hb.
      split.
      + intros H k Hk.
        destruct (ne (nth (S i) s d) (nth i s d)) eqn:E; simpl in H; [|lia].
        destruct (Nat.eq_dec k i) as [->|Hne]; [assumption|].
        apply IH; lia.
      + intros H. rewrite (H i) by lia.
        assert (nth i (change_ids ne s) 0 = Z.of_nat i + 1) as ->
          by (apply IH; intros k Hk; apply H; lia).
        simpl. lia.
  Qed.
End Ids.


Lemma last_as_nth (l : list Z) : last l 0 = nth (List.length l - 1) l 0.
Proof.
  induction l as [|x r IH]; [reflexivity|].
  destruct r as [|y r']; [reflexivity|].
  change (last (x :: y :: r') 0) with (last (y :: r') 0). rewrite IH.
  simpl. now rewrite Nat.sub_0_r.
Qed.

Lemma int_ne_step x (f : bool) : int_ne (x + Z.b2z f) x = f.
Proof. unfold int_ne. destruct f; simpl; destruct (Z.eqb_spec (x + 1) x), (Z.eqb_spec (x + 0) x); try reflexivity; lia. Qed.

Lemma change_ids_idempotent {A} (ne : A -> A -> bool) (s : list A) :
  change_ids int_ne (change_ids ne s) = change_ids ne s.
Proof.
  apply (nth_ext _ _ 0 0).
  - apply change_ids_length.
  - intros n. rewrite !change_ids_length. intros Hn.
    destruct s as [|d r] eqn:Es; [simpl in Hn; lia|]. rewrite <- Es in *. clear Es r.
    induction n as [|n IH].
    + rewrite (change_ids_first int_ne 0) by (now rewrite change_ids_length).
      now rewrite (change_ids_first ne d).
    + rewrite (change_ids_step int_ne 0) by (now rewrite change_ids_length).
      rewrite IH by lia.
      rewrite (change_ids_step ne d s n) by assumption.
      now rewrite int_ne_step.
Qed.

(** C2.  The run ids start at 1, never decrease and grow by 0 or 1 from one
    row to the next; the values A, A, B, A get the ids 1, 1, 2, 3 and no row
    gives no id. *)
Theorem run_ids_start_at_one_and_step :
  forall (A : Type) (ne : A -> A -> bool) (s : list A),
    List.length (change_ids ne s) = List.length s
    /\ hd_error (change_ids ne s) = match s with [] => None | _ => Some 1 end
    /\ (forall i, (S i < List.length s)%nat ->
          nth i (change_ids ne s) 0 <= nth (S i) (change_ids ne s) 0
          /\ (nth (S i) (change_ids ne s) 0 = nth i (change_ids ne s) 0
              \/ nth (S i) (change_ids ne s) 0 = nth i (change_ids ne s) 0 + 1))
    /\ change_ids cell_ne [Str "A"; Str "A"; Str "B"; Str "A"] = [1; 1; 2; 3]
    /\ change_ids ne [] = [].
Proof.
  intros A ne s. split; [apply change_ids_length|]. split; [|split; [|split]].
  - destruct s as [|x r]; [reflexivity|].
    pose proof (change_ids_first ne x (x :: r) ltac:(simpl; lia)) as H.
    pose proof (change_ids_length ne (x :: r)) as L.
    destruct (change_ids ne (x :: r)); simpl in *; [lia | now subst].
  - intros i Hi. destruct s as [|d r] eqn:Es; [simpl in Hi; lia|]. rewrite <- Es in *.
    rewrite (change_ids_step ne d s i Hi).
    destruct (ne _ _); simpl; lia.
  - vm_compute. reflexivity.
  - reflexivity.
Qed.

Lemma run_ids_start_at_one_and_step_witness :
  nth 2 (change_ids cell_ne [Str "A"; Str "A"; Str "B"; Str "A"]) 0
  = nth 1 (change_ids cell_ne [Str "A"; Str "A"; Str "B"; Str "A"]) 0 + 1.
Proof.
  destruct (run_ids_start_at_one_and_step cell cell_ne [Str "A"; Str "A"; Str "B"; Str "A"])
    as (_ & _ & H & _).
  destruct (H 1%nat ltac:(simpl; lia)) as [_ [E|E]].
  - vm_compute in E. discriminate E.
  - exact E.
Defined.

(** C4.  A missing value differs from every value, a missing one included,
    so the run id grows by one at every row that is missing or that follows
    a missing row (the first row grows it from 0 to 1). *)
Theorem missing_value_opens_run :
  (forall a b, isna a = true \/ isna b = true -> cell_ne a b = true)
  /\ (forall (s : list cell) (i : nat),
        (i < List.length s)%nat ->
        isna (nth i s (Num PrimFloat.nan)) = true
        \/ (exists j, i = S j /\ isna (nth j s (Num PrimFloat.nan)) = true) ->
        nth i (change_ids cell_ne s) 0 = id_above (change_ids cell_ne s) i + 1).
Proof.
  assert (Hne : forall a b, isna a = true \/ isna b = true -> cell_ne a b = true).
  { intros a b H. unfold isna, notna in H.
    destruct a as [x|u], b as [y|v]; simpl; try reflexivity.
    - rewrite !negb_involutive in H. rewrite FloatAxioms.eqb_spec.
      destruct H as [H|H]; apply FloatFacts.is_nan_spec in H; rewrite H.
      + reflexivity.
      + destruct (Prim2SF x); reflexivity.
    - destruct H; discriminate. }
  split; [exact Hne|].
  intros s i Hi H. destruct i as [|j]; simpl.
  - now rewrite (change_ids_first cell_ne (Num PrimFloat.nan)).
  - rewrite (change_ids_step cell_ne (Num PrimFloat.nan)) by assumption.
    rewrite Hne; [reflexivity|].
    destruct H as [H|(j' & E & H)]; [now left|].
    injection E as <-. now right.
Qed.

Lemma missing_value_opens_run_witness :
  nth 2 (change_ids cell_ne [Num 1%float; Num PrimFloat.nan; Num PrimFloat.nan]) 0
  = id_above (change_ids cell_ne [Num 1%float; Num PrimFloat.nan; Num PrimFloat.nan]) 2 + 1.
Proof.
  apply (proj2 missing_value_opens_run).
  - simpl. lia.
  - left. reflexivity.
Defined.

(** C5, as the code has it.  Detecting the runs of the run-id column gives
    the run-id column back; the number of runs is the number of rows exactly
    when every row differs from the row above it. *)
Theorem detector_on_its_output :
  forall (A : Type) (ne : A -> A -> bool) (d : A) (s : list A),
    change_ids int_ne (change_ids ne s) = change_ids ne s
    /\ (run_count (change_ids int_ne (change_ids ne s)) = Z.of_nat (List.length s)
        <-> forall k, (S k < List.length s)%nat -> ne (nth (S k) s d) (nth k s d) = true).
Proof.
  intros A ne d s. split; [apply change_ids_idempotent|].
  rewrite change_ids_idempotent. unfold run_count.
  rewrite last_as_nth, change_ids_length.
  destruct s as [|x r] eqn:Es.
  - simpl. split; [intros _ k Hk; lia | reflexivity].
  - rewrite <- Es. assert (Hlen : List.length s = S (List.length r)) by (now subst).
    rewrite Hlen. replace (S (List.length r) - 1)%nat with (List.length r) by lia.
    replace (Z.of_nat (S (List.length r))) with (Z.of_nat (List.length r) + 1) by lia.
    rewrite (change_ids_full ne d s (List.length r)) by lia.
    split; intros H k Hk; apply H; lia.
Qed.

(** C5, as the claim has it, fails: two equal rows are one run, before and
    after the detector is applied again. *)
Lemma detector_on_its_output_not_one_run_per_row :
  change_ids int_ne (change_ids cell_ne [Str "A"; Str "A"]) = [1; 1]
  /\ run_count (change_ids int_ne (change_ids cell_ne [Str "A"; Str "A"]))
     <> Z.of_nat (List.length [Str "A"; Str "A"]).
Proof. split; [reflexivity | vm_compute; discriminate]. Qed.

End DetectorFacts.

(** * The Run-Relative Normaliser *)

Module FrameFacts.
Import Dvs.

Lemma get_set_same label c df : get_column label (set_column label c df) = Some c.
Proof.
  induction df as [|[l c'] rest IH]; simpl.
  - now rewrite String.eqb_refl.
  - destruct (String.eqb label l) eqn:E; simpl; rewrite E; [reflexivity | exact IH].
Qed.

Lemma get_set_other label label' c df :
  label <> label' -> get_column label (set_column label' c df) = get_column label df.
Proof.
  intros Hne. apply String.eqb_neq in Hne.
  induction df as [|[l c'] rest IH]; simpl.
  - now rewrite Hne.
  - destruct (String.eqb label' l) eqn:E; simpl.
    + apply String.eqb_eq in E. subst l. now rewrite Hne.
    + now rewrite IH.
Qed.

Lemma has_column_get label df :
  has_column label df = true <-> exists c, get_column label df = Some c.
Proof.
  unfold has_column, columns. induction df as [|[l c'] rest IH]; simpl.
  - split; [discriminate | intros [c H]; discriminate].
  - destruct (String.eqb label l); simpl.
    + split; [intros _; now exists c' | reflexivity].
    + exact IH.
Qed.

Lemma get_after_drop label label' df df' :
  label <> label' -> drop_column label' df = Ok df' ->
  get_column label df' = get_column label df.
Proof.
  intros Hne. unfold drop_column. destruct (has_column label' df); [|discriminate].
  intros [= <-]. apply String.eqb_neq in Hne.
  induction df as [|[l c] rest IH]; simpl; [reflexivity|].
  destruct (String.eqb label' l) eqn:E; simpl.
  - apply String.eqb_eq in E. subst l. now rewrite Hne.
  - now rewrite IH.
Qed.

Lemma last_char_append a b c : last_char (a ++ String c b) = last_char (String c b).
Proof.
  induction a as [|x a IH]; [reflexivity|].
  change (String x a ++ String c b)%string with (String x (a ++ String c b)).
  destruct a as [|y a']; simpl in *; exact IH.
Qed.

Lemma new_label_not_temporary a b : (a ++ " NEW")%string <> (b ++ "_at_change")%string.
Proof.
  intros H. apply (f_equal last_char) in H.
  rewrite !last_char_append in H. discriminate H.
Qed.

Lemma append_cons_length a c b : String.length (a ++ String c b) <> String.length a.
Proof.
  induction a as [|x a IH]; simpl; [discriminate|]. intros H. apply IH. now injection H.
Qed.

Lemma temporary_label_fresh a : (a ++ "_at_change")%string <> a.
Proof. intros H. apply (f_equal String.length) in H. now apply append_cons_length in H. Qed.

End FrameFacts.

Module NormaliserFacts.
Import Dvs FrameFacts.



(** The broadcast value of a numeric target grouped by run id. *)
Lemma group_first_numeric ids xs :
  map cell_of_option (group_first Z.eqb (fun _ => false) notna ids (map Num xs))
  = map (fun k => Num (first_valid ids xs k)) ids.
Proof.
  unfold group_first. rewrite map_map. apply map_ext. intros k. cbv beta iota.
  unfold first_valid. generalize ids. intros l. revert xs.
  induction l as [|i l IH]; intros xs; [reflexivity|].
  destruct xs as [|x xs]; [reflexivity|].
  cbn [map combine find fst snd notna].
  destruct (Z.eqb i k && negb (PrimFloat.is_nan x)); [reflexivity | apply IH].
Qed.

(** On two numbers the difference of a row is the IEEE difference, a
    missing operand included. *)
Lemma cell_sub_numbers x y : cell_sub (Num x) (Num y) = Ok (Num (PrimFloat.sub x y)).
Proof.
  unfold cell_sub, isna, notna. rewrite !negb_involutive.
  destruct (PrimFloat.is_nan x) eqn:Ex.
  - apply FloatFacts.is_nan_eq in Ex. subst x. now rewrite FloatFacts.sub_nan_l.
  - destruct (PrimFloat.is_nan y) eqn:Ey; [|reflexivity].
    apply FloatFacts.is_nan_eq in Ey. subst y. now rewrite FloatFacts.sub_nan_r.
Qed.

Lemma sub_numeric xs ys :
  mapM (fun ab => cell_sub (fst ab) (snd ab)) (combine (map Num xs) (map Num ys))
  = Ok (map Num (zip_with PrimFloat.sub xs ys)).
Proof.
  revert ys. induction xs as [|x xs IH]; intros ys; [reflexivity|].
  destruct ys as [|y ys]; [reflexivity|].
  cbn [map combine mapM fst snd zip_with]. rewrite cell_sub_numbers. cbn [bind].
  now rewrite IH.
Qed.



(** What [add_normalised_column] leaves in the frame when the grouping
    column holds run ids and the target is numeric. *)
Lemma normalised_by_run_id df grouping target new ids xs :
  get_column grouping df = Some (Int64 ids) ->
  get_column target df = Some (Values (map Num xs)) ->
  exists df',
    add_normalised_column df grouping target new = Ok df'
    /\ get_column (new ++ " NEW") df'
       = Some (Values (map Num (zip_with PrimFloat.sub xs (map (first_valid ids xs) ids)))).
Proof.
  intros Hg Ht.
  unfold add_normalised_column, getitem, groupby_getitem. rewrite Hg, Ht. cbn [bind].
  set (tmp := (target ++ "_at_change")%string).
  set (anchors := transform_first (Int64 ids) (Values (map Num xs))).
  set (df2 := set_column tmp anchors df).
  assert (H3 : get_column target df2 = Some (Values (map Num xs))).
  { unfold df2. rewrite get_set_other; [exact Ht|].
    intros E. symmetry in E. now apply temporary_label_fresh in E. }
  assert (H4 : get_column tmp df2 = Some anchors) by apply get_set_same.
  rewrite H3, H4. cbn [bind].
  unfold anchors, transform_first, first_of_groups, column_sub.
  rewrite group_first_numeric.
  cbn [to_cells]. rewrite <- (map_map (first_valid ids xs) Num), sub_numeric. cbn [bind].
  set (d := Values (map Num (zip_with PrimFloat.sub xs (map (first_valid ids xs) ids)))).
  set (df3 := set_column (new ++ " NEW") d df2).
  assert (H5 : has_column tmp df3 = true).
  { apply has_column_get. exists (transform_first (Int64 ids) (Values (map Num xs))).
    unfold df3. rewrite get_set_other; [exact H4|].
    intros E. symmetry in E. now apply new_label_not_temporary in E. }
  unfold drop_column at 1. rewrite H5.
  eexists. split; [reflexivity|].
  assert (Hd : drop_column tmp df3 = Ok (filter (fun lc => negb (String.eqb tmp (fst lc))) df3))
    by (unfold drop_column; now rewrite H5).
  rewrite (get_after_drop _ _ _ _ (new_label_not_temporary new target) Hd).
  apply get_set_same.
Qed.

(** [add_change_column] puts the run ids of the target column in the
    frame and leaves the other columns as they are. *)
Lemma change_column_added df target new c :
  get_column target df = Some c ->
  exists df',
    add_change_column df target new = Ok df'
    /\ get_column new df' = Some (Int64 (column_change c))
    /\ (forall label, label <> new -> get_column label df' = get_column label df).
Proof.
  intros H. unfold add_change_column, getitem. rewrite H. cbn [bind].
  eexists. split; [reflexivity|]. split; [apply get_set_same|].
  intros label Hl. now apply get_set_other.
Qed.











End NormaliserFacts.

(** * The Column Availability Checker *)

Module CheckerFacts.
Import Dvs.

Lemma any_notna_spec c : any_notna c = true <-> has_value c.
Proof.
  destruct c as [l|l]; simpl.
  - apply existsb_exists.
  - destruct l; split; intros H; try discriminate; try reflexivity. now elim H.
Qed.

(** In a frame with distinct labels no label stands twice. *)
Lemma distinct_labels_not_repeated df c : NoDup (columns df) -> is_repeated c df = false.
Proof.
  unfold is_repeated, label_count. generalize (columns df). intros l H.
  assert (G : (List.length (filter (String.eqb c) l) <= 1)%nat).
  { induction H as [|x l Hx _ IH]; [simpl; lia|].
    cbn [filter]. destruct (String.eqb_spec c x) as [->|_]; [|exact IH].
    assert (E : filter (String.eqb x) l = []).
    { clear IH. induction l as [|y l IHl]; [reflexivity|].
      cbn [filter]. destruct (String.eqb_spec x y) as [->|_].
      - elim Hx. now left.
      - apply IHl. intros Hin. apply Hx. now right. }
    rewrite E. simpl. lia. }
  apply Nat.leb_gt. lia.
Qed.

(** The check passes exactly when every needed column stands once in the
    frame and holds a value; it logs nothing then. *)
Lemma check_columns_pass df needed :
  check_columns df needed = Ok (true, [])
  <-> forall c, In c needed ->
        is_repeated c df = false
        /\ exists col, get_column c df = Some col /\ has_value col.
Proof.
  induction needed as [|c rest IH]; cbn [check_columns].
  - split; [intros _ c [] | reflexivity].
  - destruct (get_column c df) as [col|] eqn:G.
    + destruct (is_repeated c df) eqn:R.
      * split; [discriminate|]. intros H.
        destruct (H c (or_introl eq_refl)) as [R' _]. congruence.
      * destruct (any_notna col) eqn:N; cbn [negb].
        -- rewrite IH. split.
           ++ intros H c' [<-|Hin]; [|now apply H].
              split; [exact R|]. exists col. split; [exact G | now apply any_notna_spec].
           ++ intros H c' Hin. apply H. now right.
        -- split; [discriminate|]. intros H.
           destruct (H c (or_introl eq_refl)) as (_ & col' & G' & V).
           rewrite G in G'. injection G' as <-. apply any_notna_spec in V. congruence.
    + split; [discriminate|]. intros H.
      destruct (H c (or_introl eq_refl)) as (_ & col' & G' & _). congruence.
Qed.

Lemma check_columns_quiet df needed log :
  check_columns df needed = Ok (true, log) -> log = [].
Proof.
  induction needed as [|c rest IH]; cbn [check_columns].
  - now intros [= <-].
  - destruct (get_column c df) as [col|]; [|discriminate].
    destruct (is_repeated c df); [discriminate|].
    destruct (any_notna col); cbn [negb]; [exact IH | discriminate].
Qed.

Lemma check_columns_fail df needed log :
  check_columns df needed = Ok (false, log) ->
  exists c, In c needed
    /\ ((get_column c df = None /\ log = [msg_does_not_exist c])
        \/ (exists col, get_column c df = Some col /\ ~ has_value col
                        /\ log = [msg_full_of_nan c])).
Proof.
  induction needed as [|c rest IH]; cbn [check_columns]; [discriminate|].
  destruct (get_column c df) as [col|] eqn:G.
  - destruct (is_repeated c df); [discriminate|].
    destruct (any_notna col) eqn:N; cbn [negb].
    + intros H. destruct (IH H) as (c' & Hin & Hc'). exists c'. split; [now right | exact Hc'].
    + intros [= <-]. exists c. split; [now left|]. right. exists col.
      split; [exact G|]. split; [|reflexivity].
      intros V. apply any_notna_spec in V. congruence.
  - intros [= <-]. exists c. split; [now left|]. left. now split.
Qed.

(** The check raises nothing but [ValueError], and only at a needed label
    that stands more than once. *)
Lemma check_columns_raise df needed e :
  check_columns df needed = Raise e ->
  e = ValueError /\ exists c, In c needed /\ is_repeated c df = true.
Proof.
  induction needed as [|c rest IH]; cbn [check_columns]; [discriminate|].
  destruct (get_column c df) as [col|]; [|discriminate].
  destruct (is_repeated c df) eqn:R.
  - intros [= <-]. split; [reflexivity|]. exists c. split; [now left | exact R].
  - destruct (any_notna col); cbn [negb]; [|discriminate].
    intros H. destruct (IH H) as (He & c' & Hin & Hc'). split; [exact He|].
    exists c'. split; [now right | exact Hc'].
Qed.

(** A sheet with two columns labelled [Time [minutes]] ends the run. *)
Example repeated_needed_label_ends_the_run :
  check_for_needed_columns
    [("Time [minutes]", Values [Num 0]); ("Time [minutes]", Values [Num 1])]%string
    "Target Partial Pressure (Solvent A or B)"
  = Raise ValueError
  /\ process_spreadsheet (fun _ => false) (fun label => label) (fun c => c)
       [("Run 1",
         [("Time [minutes]", Values [Num 0]); ("Time [minutes]", Values [Num 1])])]%string
     = Raise ValueError.
Proof. split; reflexivity. Qed.

(** On a frame with distinct labels the check answers. *)
Lemma check_columns_answers df needed :
  NoDup (columns df) -> exists ok log, check_columns df needed = Ok (ok, log).
Proof.
  intros H. destruct (check_columns df needed) as [[ok log]|e] eqn:E; [eauto|].
  destruct (check_columns_raise _ _ _ E) as (_ & c & _ & R).
  rewrite (distinct_labels_not_repeated df c H) in R. discriminate.
Qed.

Lemma reasons_differ c c' : msg_full_of_nan c <> msg_does_not_exist c'.
Proof. unfold msg_full_of_nan, msg_does_not_exist. simpl. discriminate. Qed.

Section Loop.
Variable is_unnamed_sheet : string -> bool.
Variable strip : string -> string.
Variable to_numeric : column -> column.

Lemma skipped_sheet sheet df rest errors :
  is_unnamed_sheet sheet = false ->
  check_for_needed_columns (strip_columns strip df)
    (solvent_a_or_b (strip_columns strip df)) = Ok (false, errors) ->
  process_sheets is_unnamed_sheet strip to_numeric ((sheet, df) :: rest)
  = (("Processing " ++ sheet)%string
       :: errors
       ++ ("Skipping " ++ sheet ++ " because of missing column" ++ nl)%string
       :: fst (process_sheets is_unnamed_sheet strip to_numeric rest),
     snd (process_sheets is_unnamed_sheet strip to_numeric rest)).
Proof.
  intros Hname Hcheck. cbn [process_sheets]. rewrite Hname, Hcheck.
  cbn [negb fst snd].
  now destruct (process_sheets is_unnamed_sheet strip to_numeric rest).
Qed.

Lemma written_depends_on_rest s rest rest' :
  snd (process_sheets is_unnamed_sheet strip to_numeric rest)
  = snd (process_sheets is_unnamed_sheet strip to_numeric rest') ->
  snd (process_sheets is_unnamed_sheet strip to_numeric (s :: rest))
  = snd (process_sheets is_unnamed_sheet strip to_numeric (s :: rest')).
Proof.
  intros H. destruct s as [sheet df]. cbn [process_sheets].
  destruct (process_sheets is_unnamed_sheet strip to_numeric rest) as [log w].
  destruct (process_sheets is_unnamed_sheet strip to_numeric rest') as [log' w'].
  simpl in H. subst w'.
  destruct (is_unnamed_sheet sheet); [reflexivity|].
  destruct (check_for_needed_columns _ _) as [[ok errors]|e]; [|reflexivity].
  destruct ok; cbn [negb]; [|reflexivity].
  destruct (calculate_and_add_columns _ _); reflexivity.
Qed.

Lemma skipped_sheet_anywhere sheet df before after errors :
  is_unnamed_sheet sheet = false ->
  check_for_needed_columns (strip_columns strip df)
    (solvent_a_or_b (strip_columns strip df)) = Ok (false, errors) ->
  process_spreadsheet is_unnamed_sheet strip to_numeric (before ++ (sheet, df) :: after)
  = process_spreadsheet is_unnamed_sheet strip to_numeric (before ++ after).
Proof.
  intros Hname Hcheck. unfold process_spreadsheet.
  induction before as [|s before IH]; simpl app.
  - now rewrite (skipped_sheet _ _ _ errors).
  - now apply written_depends_on_rest.
Qed.
End Loop.

(** C8.  On a table, whose labels are distinct, the check answers, and it
    passes exactly when every needed column is in the frame and holds a
    value that is not missing.  Whatever the labels are, it passes exactly
    when every needed column stands once in the frame and holds a value;
    when it fails, the logged reason names a failing column and tells an
    absent column from a column full of NaN, and the loop over the sheets
    logs the skip and goes on with the next sheet: the written workbook is
    the one the other sheets give.  The check raises nothing but
    [ValueError], and only when a needed label stands more than once. *)
Theorem checker_passes_iff_columns_usable :
  forall (is_unnamed_sheet : string -> bool) (strip : string -> string)
         (to_numeric : column -> column) (df : DataFrame) (p : string),
    (NoDup (columns df) ->
       (exists ok log, check_for_needed_columns df p = Ok (ok, log))
       /\ (check_for_needed_columns df p = Ok (true, [])
           <-> forall c, In c (needed_columns p) ->
                         exists col, get_column c df = Some col /\ has_value col))
    /\ (check_for_needed_columns df p = Ok (true, [])
        <-> forall c, In c (needed_columns p) ->
                      is_repeated c df = false
                      /\ exists col, get_column c df = Some col /\ has_value col)
    /\ (forall log, check_for_needed_columns df p = Ok (true, log) -> log = [])
    /\ (forall log, check_for_needed_columns df p = Ok (false, log) ->
        exists c, In c (needed_columns p)
          /\ ((get_column c df = None /\ log = [msg_does_not_exist c])
              \/ (exists col, get_column c df = Some col /\ ~ has_value col
                  /\ log = [msg_full_of_nan c])))
    /\ (forall e, check_for_needed_columns df p = Raise e ->
        e = ValueError /\ exists c, In c (needed_columns p) /\ is_repeated c df = true)
    /\ (forall c c', msg_full_of_nan c <> msg_does_not_exist c')
    /\ (forall sheet sheet_df before after errors,
          is_unnamed_sheet sheet = false ->
          check_for_needed_columns (strip_columns strip sheet_df)
            (solvent_a_or_b (strip_columns strip sheet_df)) = Ok (false, errors) ->
          process_spreadsheet is_unnamed_sheet strip to_numeric
            (before ++ (sheet, sheet_df) :: after)
          = process_spreadsheet is_unnamed_sheet strip to_numeric (before ++ after)).
Proof.
  intros is_unnamed_sheet strip to_numeric df p. unfold check_for_needed_columns.
  split; [|split; [|split; [|split; [|split; [|split]]]]].
  - intros Hdistinct. split; [now apply check_columns_answers|].
    rewrite check_columns_pass. split.
    + intros H c Hin. exact (proj2 (H c Hin)).
    + intros H c Hin. split; [now apply distinct_labels_not_repeated | now apply H].
  - apply check_columns_pass.
  - intros log. apply check_columns_quiet.
  - intros log. apply check_columns_fail.
  - intros e. apply check_columns_raise.
  - apply reasons_differ.
  - intros sheet sheet_df before after errors. apply skipped_sheet_anywhere.
Qed.

Lemma checker_passes_iff_columns_usable_witness :
  (exists ok log,
     check_for_needed_columns
       [("Time [minutes]"%string, Values [Num 0%float; Num 1%float]);
        ("Moisture content %"%string, Values [Num PrimFloat.nan; Num PrimFloat.nan]);
        ("RH Direction"%string, Values [Str "Up"; Str "Up"]);
        ("Target Partial Pressure (Solvent B) [%]"%string, Values [Num 0%float; Num 10%float])]
       "Target Partial Pressure (Solvent B) [%]"
     = Ok (ok, log))
  /\ check_for_needed_columns
       [("Time [minutes]"%string, Values [Num 0%float; Num 1%float]);
        ("Moisture content %"%string, Values [Num PrimFloat.nan; Num PrimFloat.nan]);
        ("RH Direction"%string, Values [Str "Up"; Str "Up"]);
        ("Target Partial Pressure (Solvent B) [%]"%string, Values [Num 0%float; Num 10%float])]
       "Target Partial Pressure (Solvent B) [%]"
     = Ok (false, [msg_full_of_nan "Moisture content %"])
  /\ process_spreadsheet (fun _ => false) (fun label => label) (fun c => c)
       ([("Run 1"%string,
          [("Time [minutes]"%string, Values [Num 0%float; Num 1%float]);
           ("Moisture content %"%string, Values [Num 2.5%float; Num 3%float]);
           ("RH Direction"%string, Values [Str "Up"; Str "Up"]);
           ("Target Partial Pressure (Solvent A) [%]"%string,
            Values [Num 0%float; Num 10%float])])]
        ++ ("Run 2"%string,
            [("Time [minutes]"%string, Values [Num 0%float; Num 1%float]);
             ("Moisture content %"%string, Values [Num PrimFloat.nan; Num PrimFloat.nan]);
             ("RH Direction"%string, Values [Str "Up"; Str "Up"]);
             ("Target Partial Pressure (Solvent B) [%]"%string,
              Values [Num 0%float; Num 10%float])])
        :: [])
     = process_spreadsheet (fun _ => false) (fun label => label) (fun c => c)
         ([("Run 1"%string,
            [("Time [minutes]"%string, Values [Num 0%float; Num 1%float]);
             ("Moisture content %"%string, Values [Num 2.5%float; Num 3%float]);
             ("RH Direction"%string, Values [Str "Up"; Str "Up"]);
             ("Target Partial Pressure (Solvent A) [%]"%string,
              Values [Num 0%float; Num 10%float])])]
          ++ []).
Proof.
  split; [|split].
  - apply (proj1 (checker_passes_iff_columns_usable (fun _ => false) (fun label => label)
                    (fun c => c)
                    [("Time [minutes]"%string, Values [Num 0%float; Num 1%float]);
                     ("Moisture content %"%string,
                      Values [Num PrimFloat.nan; Num PrimFloat.nan]);
                     ("RH Direction"%string, Values [Str "Up"; Str "Up"]);
                     ("Target Partial Pressure (Solvent B) [%]"%string,
                      Values [Num 0%float; Num 10%float])]
                    "Target Partial Pressure (Solvent B) [%]")).
    repeat constructor; simpl; intuition discriminate.
  - reflexivity.
  - apply (proj2 (proj2 (proj2 (proj2 (proj2 (proj2
             (checker_passes_iff_columns_usable (fun _ => false) (fun label => label)
                (fun c => c) [] EmptyString)))))))
      with (errors := [msg_full_of_nan "Moisture content %"]).
    + reflexivity.
    + reflexivity.
Defined.

End CheckerFacts.

(** * Rounding in binary64 *)

Module RoundingFacts.

Lemma digits2_bounds p :
  2 ^ (Zpos (digits2_pos p) - 1) <= Zpos p < 2 ^ Zpos (digits2_pos p).
Proof.
  induction p as [p IH|p IH|]; simpl digits2_pos.
  - rewrite Pos2Z.inj_succ. replace (Z.succ (Zpos (digits2_pos p)) - 1) with (Zpos (digits2_pos p) - 1 + 1) by lia.
    rewrite Z.pow_succ_r by lia. rewrite Z.pow_add_r by lia. change (2 ^ 1) with 2. lia.
  - rewrite Pos2Z.inj_succ. replace (Z.succ (Zpos (digits2_pos p)) - 1) with (Zpos (digits2_pos p) - 1 + 1) by lia.
    rewrite Z.pow_succ_r by lia. rewrite Z.pow_add_r by lia. change (2 ^ 1) with 2. lia.
  - simpl. lia.
Qed.

(** The number of binary digits of a positive integer is fixed by the
    powers of two around it. *)
Lemma digits2_unique m d :
  0 < d -> 2 ^ (d - 1) <= m < 2 ^ d -> Zdigits2 m = d.
Proof.
  intros Hd [Hlo Hhi].
  assert (0 < m) by (pose proof (Z.pow_pos_nonneg 2 (d - 1)); lia).
  destruct m as [|p|p]; try lia. simpl.
  pose proof (digits2_bounds p) as [Blo Bhi].
  set (k := Zpos (digits2_pos p)) in *.
  assert (0 < k) by (subst k; lia).
  destruct (Z.lt_trichotomy k d) as [Hlt|[Heq|Hgt]]; [|exact Heq|].
  - assert (2 ^ k <= 2 ^ (d - 1)) by (apply Z.pow_le_mono_r; lia). lia.
  - assert (2 ^ d <= 2 ^ (k - 1)) by (apply Z.pow_le_mono_r; lia). lia.
Qed.

Lemma iter_pos_nat {A} (f : A -> A) p x : SpecFloat.iter_pos f p x = Nat.iter (Pos.to_nat p) f x.
Proof.
  revert x. induction p as [p IH|p IH|]; intros x; simpl SpecFloat.iter_pos.
  - rewrite !IH. rewrite Pos2Nat.inj_xI. simpl Nat.iter.
    rewrite <- Nat.iter_add. replace (Pos.to_nat p + Pos.to_nat p)%nat with (2 * Pos.to_nat p)%nat by lia.
    now rewrite <- Nat.iter_succ_r.
  - rewrite !IH. rewrite Pos2Nat.inj_xO.
    rewrite <- Nat.iter_add. now replace (Pos.to_nat p + Pos.to_nat p)%nat with (2 * Pos.to_nat p)%nat by lia.
  - reflexivity.
Qed.

Lemma shr_1_m r : 0 <= shr_m r -> shr_m (shr_1 r) = shr_m r / 2.
Proof.
  destruct r as [m rb sb]. simpl. intros H.
  destruct m as [|p|p]; try lia.
  - reflexivity.
  - destruct p as [p|p|]; simpl.
    + rewrite Pos2Z.inj_xI. apply (Z.div_unique _ 2 _ 1); lia.
    + rewrite Pos2Z.inj_xO. apply (Z.div_unique _ 2 _ 0); lia.
    + reflexivity.
Qed.

Lemma shr_iter_m n r :
  0 <= shr_m r -> shr_m (Nat.iter n shr_1 r) = shr_m r / 2 ^ Z.of_nat n.
Proof.
  intros H. induction n as [|n IH].
  - simpl. now rewrite Z.div_1_r.
  - rewrite Nat2Z.inj_succ, Z.pow_succ_r by lia. simpl Nat.iter.
    rewrite shr_1_m; rewrite IH.
    + rewrite Z.div_div by lia. f_equal. lia.
    + apply Z.div_pos; [lia | apply Z.pow_pos_nonneg; lia].
Qed.

Lemma shr_record_of_loc_m m l : shr_m (shr_record_of_loc m l) = m.
Proof. destruct l as [|[]]; reflexivity. Qed.

(** The mantissa and exponent that come out of [shr]. *)
Lemma shr_m_e m l e n :
  0 <= m ->
  shr_m (fst (shr (shr_record_of_loc m l) e n)) = (if 0 <? n then m / 2 ^ n else m)
  /\ snd (shr (shr_record_of_loc m l) e n) = (if 0 <? n then e + n else e).
Proof.
  intros Hm. destruct n as [|p|p]; simpl.
  - now rewrite shr_record_of_loc_m.
  - rewrite iter_pos_nat, shr_iter_m by (now rewrite shr_record_of_loc_m).
    now rewrite shr_record_of_loc_m, positive_nat_Z.
  - now rewrite shr_record_of_loc_m.
Qed.

Lemma round_nearest_even_cases m l :
  round_nearest_even m l = m \/ round_nearest_even m l = m + 1.
Proof. destruct l as [|[]]; simpl; auto. destruct (Z.even m); auto. Qed.

Lemma fexp_normal e : -1021 <= e -> fexp prec emax e = e - 53.
Proof. unfold fexp, emin, prec, emax. lia. Qed.


Lemma pow2_split a b : 0 <= a -> 0 <= b -> 2 ^ (a + b) = 2 ^ a * 2 ^ b.
Proof. intros. now rewrite Z.pow_add_r. Qed.

Lemma digits2_ge_53 m : 2 ^ 52 <= m -> 53 <= Zdigits2 m.
Proof.
  intros H. destruct m as [|p|p]; try (simpl in H; lia). simpl.
  pose proof (digits2_bounds p) as [_ B].
  destruct (Z_lt_le_dec (Zpos (digits2_pos p)) 53) as [Hlt|]; [|assumption].
  assert (2 ^ Zpos (digits2_pos p) <= 2 ^ 52) by (apply Z.pow_le_mono_r; lia). lia.
Qed.

Lemma Zdigits2_bounds m : 0 < m -> 2 ^ (Zdigits2 m - 1) <= m < 2 ^ Zdigits2 m.
Proof. destruct m as [|p|p]; try lia. intros _. apply digits2_bounds. Qed.

(** One call of [shr_fexp] on a mantissa of at least 53 digits leaves a
    mantissa of exactly 53 digits. *)
Lemma shr_fexp_normal m e l :
  2 ^ 52 <= m -> -1074 <= e ->
  let n := Zdigits2 m - 53 in
  let r := shr_fexp prec emax m e l in
  snd r = e + n
  /\ 2 ^ 52 <= shr_m (fst r) < 2 ^ 53
  /\ shr_m (fst r) * 2 ^ n <= m < (shr_m (fst r) + 1) * 2 ^ n.
Proof.
  intros Hm He n r.
  assert (Hpos : 0 < m) by lia.
  pose proof (digits2_ge_53 m Hm) as Hd.
  pose proof (Zdigits2_bounds m Hpos) as [Blo Bhi].
  assert (Hn : fexp prec emax (Zdigits2 m + e) - e = n)
    by (rewrite fexp_normal by lia; unfold n; lia).
  subst r. unfold shr_fexp. rewrite Hn.
  destruct (shr_m_e m l e n ltac:(lia)) as [Em Ee]. rewrite Em, Ee.
  destruct (Z.ltb_spec 0 n) as [Hn0|Hn0].
  - assert (P : 0 < 2 ^ n) by (apply Z.pow_pos_nonneg; lia).
    assert (S1 : 2 ^ (Zdigits2 m - 1) = 2 ^ 52 * 2 ^ n)
      by (rewrite <- pow2_split by lia; f_equal; unfold n; lia).
    assert (S2 : 2 ^ Zdigits2 m = 2 ^ 53 * 2 ^ n)
      by (rewrite <- pow2_split by lia; f_equal; unfold n; lia).
    pose proof (Z.div_mod m (2 ^ n) ltac:(lia)) as Hdm.
    pose proof (Z.mod_pos_bound m (2 ^ n) P) as Hmod.
    split; [reflexivity|]. split; [split|split].
    + apply Z.div_le_lower_bound; lia.
    + apply Z.div_lt_upper_bound; lia.
    + nia.
    + nia.
  - assert (D : Zdigits2 m = 53) by (unfold n in *; lia).
    assert (N0 : n = 0) by (unfold n; lia).
    rewrite D in Bhi. rewrite N0. change (2 ^ 0) with 1.
    split; [lia|]. split; lia.
Qed.

(** [binary_round_aux] on a positive mantissa of at least 53 digits, away
    from underflow and overflow: the result is a normal number one of whose
    two neighbours-or-itself brackets the input. *)
Lemma binary_round_aux_faithful m e l :
  2 ^ 52 <= m -> -1074 <= e -> Zdigits2 m + e <= 1023 ->
  exists m' e',
    binary_round_aux prec emax false m e l = S754_finite false m' e'
    /\ 2 ^ 52 <= Zpos m' < 2 ^ 53
    /\ e <= e' <= e + (Zdigits2 m - 53) + 1
    /\ (Zpos m' - 1) * 2 ^ (e' - e) <= m
    /\ m + 1 <= (Zpos m' + 1) * 2 ^ (e' - e).
Proof.
  intros Hm He Hov.
  pose proof (digits2_ge_53 m Hm) as Hd.
  destruct (shr_fexp_normal m e l Hm He) as (E1 & B1 & V1).
  set (n := Zdigits2 m - 53) in *.
  unfold binary_round_aux.
  destruct (shr_fexp prec emax m e l) as [mrs1 e1]. simpl fst in *. simpl snd in *.
  set (m1 := shr_m mrs1) in *.
  set (m2 := round_nearest_even m1 (loc_of_shr_record mrs1)).
  assert (C2 : m2 = m1 \/ m2 = m1 + 1) by apply round_nearest_even_cases.
  assert (Hm2 : 2 ^ 52 <= m2) by lia.
  destruct (shr_fexp_normal m2 e1 loc_Exact Hm2 ltac:(lia)) as (E2 & B2 & V2).
  destruct (shr_fexp prec emax m2 e1 loc_Exact) as [mrs2 e2]. simpl fst in *. simpl snd in *.
  assert (P : 0 < 2 ^ n) by (apply Z.pow_pos_nonneg; lia).
  assert (D2 : Zdigits2 m2 = 53 \/ (Zdigits2 m2 = 54 /\ m2 = 2 ^ 53)).
  { destruct (Z_lt_le_dec m2 (2 ^ 53)) as [Hlt|Hge].
    - left. apply digits2_unique; [lia|]. change (53 - 1) with 52. lia.
    - right. assert (m2 = 2 ^ 53) by lia. split; [|assumption].
      apply digits2_unique; [lia|]. rewrite H.
      split; [apply Z.leb_le | apply Z.ltb_lt]; reflexivity. }
  destruct (shr_m mrs2) as [|p|p] eqn:Ep; try (exfalso; lia).
  assert (Hle : (e2 <=? emax - prec) = true).
  { apply Z.leb_le. unfold emax, prec. destruct D2 as [D|[D _]]; rewrite D in E2; lia. }
  rewrite Hle. exists p, e2. split; [reflexivity|]. split; [lia|].
  destruct D2 as [D|[D M]]; rewrite D in *.
  - change (2 ^ (53 - 53)) with 1 in V2.
    assert (Zpos p = m2) by lia.
    replace (e2 - e) with n by lia. split; [lia|]. split; nia.
  - change (2 ^ (54 - 53)) with 2 in V2.
    assert (Zpos p = 2 ^ 52) by lia.
    replace (e2 - e) with (n + 1) by lia.
    rewrite pow2_split by lia. change (2 ^ 1) with 2.
    split; [lia|]. split; nia.
Qed.


(** Rounding never changes the sign and never makes a NaN out of a
    mantissa that is not negative. *)
Lemma binary_round_aux_sign s m e l :
  0 <= m ->
  binary_round_aux prec emax s m e l = S754_zero s
  \/ binary_round_aux prec emax s m e l = S754_infinity s
  \/ exists m' e', binary_round_aux prec emax s m e l = S754_finite s m' e'.
Proof.
  intros Hm. unfold binary_round_aux, shr_fexp.
  destruct (shr_m_e m l e (fexp prec emax (Zdigits2 m + e) - e) Hm) as [E1 _].
  destruct (shr (shr_record_of_loc m l) e (fexp prec emax (Zdigits2 m + e) - e))
    as [mrs1 e1]. simpl fst in E1.
  assert (H1 : 0 <= shr_m mrs1).
  { rewrite E1. destruct (Z.ltb_spec 0 (fexp prec emax (Zdigits2 m + e) - e)); [|assumption].
    apply Z.div_pos; [assumption | apply Z.pow_pos_nonneg; lia]. }
  set (m2 := round_nearest_even (shr_m mrs1) (loc_of_shr_record mrs1)).
  assert (H2 : 0 <= m2)
    by (destruct (round_nearest_even_cases (shr_m mrs1) (loc_of_shr_record mrs1));
        unfold m2; lia).
  destruct (shr_m_e m2 loc_Exact e1 (fexp prec emax (Zdigits2 m2 + e1) - e1) H2) as [E2 _].
  destruct (shr (shr_record_of_loc m2 loc_Exact) e1 (fexp prec emax (Zdigits2 m2 + e1) - e1))
    as [mrs2 e2]. simpl fst in E2.
  assert (H3 : 0 <= shr_m mrs2).
  { rewrite E2. destruct (Z.ltb_spec 0 (fexp prec emax (Zdigits2 m2 + e1) - e1)); [|assumption].
    apply Z.div_pos; [assumption | apply Z.pow_pos_nonneg; lia]. }
  destruct (shr_m mrs2) as [|p|p]; [now left | | lia].
  destruct (e2 <=? emax - prec); [right; right; now exists p, e2 | right; now left].
Qed.

(** A 53-digit mantissa in the exponent range is its own rounding. *)
Lemma binary_round_aux_exact p e :
  2 ^ 52 <= Zpos p < 2 ^ 53 -> -1074 <= e <= 971 ->
  binary_round_aux prec emax false (Zpos p) e loc_Exact = S754_finite false p e.
Proof.
  intros [Hlo Hhi] He.
  assert (D : Zdigits2 (Zpos p) = 53)
    by (apply digits2_unique; [lia|]; change (53 - 1) with 52; lia).
  assert (Hn : fexp prec emax (Zdigits2 (Zpos p) + e) - e = 0)
    by (rewrite fexp_normal by lia; lia).
  unfold binary_round_aux, shr_fexp. rewrite Hn. cbn [shr shr_record_of_loc].
  cbn [loc_of_shr_record shr_m round_nearest_even]. rewrite Hn. cbn [shr shr_record_of_loc shr_m].
  assert (Hle : (e <=? emax - prec) = true) by (apply Z.leb_le; unfold emax, prec; lia).
  now rewrite Hle.
Qed.

Lemma iter_xO p k : Zpos (Pos.iter xO p k) = Zpos p * 2 ^ Zpos k.
Proof.
  induction k as [|k IH] using Pos.peano_ind.
  - simpl. lia.
  - rewrite Pos.iter_succ, Pos2Z.inj_xO, IH, Pos2Z.inj_succ, Z.pow_succ_r by lia. lia.
Qed.

(** The binary64 value of a count below [2^53] is the count itself, with
    the mantissa shifted up to 53 digits. *)
Lemma float_of_count_spec a :
  1 <= a < 2 ^ 53 ->
  exists m e,
    Prim2SF (PrimFloat.of_uint63 (Uint63.of_Z a)) = S754_finite false m e
    /\ 2 ^ 52 <= Zpos m < 2 ^ 53
    /\ -52 <= e <= 0
    /\ Zpos m = a * 2 ^ (- e).
Proof.
  intros [Hlo Hhi].
  rewrite FloatAxioms.of_uint63_spec, Uint63.of_Z_spec.
  rewrite Z.mod_small by (change wB with (2 ^ 63); split; [lia|];
                          apply Z.lt_trans with (2 ^ 53); [lia | reflexivity]).
  destruct a as [|p|p]; try lia. cbn [binary_normalize]. unfold binary_round.
  pose proof (digits2_bounds p) as [Blo Bhi].
  set (d := Zpos (digits2_pos p)) in *.
  assert (Hd : 1 <= d <= 53).
  { split; [subst d; lia|].
    destruct (Z_lt_le_dec 53 d) as [Hgt|]; [|assumption].
    assert (2 ^ 53 <= 2 ^ (d - 1)) by (apply Z.pow_le_mono_r; lia). lia. }
  rewrite fexp_normal by lia.
  unfold shl_align. replace (d + 0 - 53 - 0) with (d - 53) by lia.
  destruct (d - 53) as [|k|k] eqn:Ek; try lia.
  - rewrite binary_round_aux_exact; [|replace d with 53 in * by lia; split; [exact Blo | exact Bhi] | lia].
    exists p, 0. repeat split; try lia; replace d with 53 in * by lia; assumption.
  - assert (Hk : Zpos k = 53 - d) by lia.
    assert (Hm : Zpos (Pos.iter xO p k) = Zpos p * 2 ^ (53 - d)) by (now rewrite iter_xO, Hk).
    assert (S1 : 2 ^ 52 = 2 ^ (d - 1) * 2 ^ (53 - d))
      by (rewrite <- pow2_split by lia; f_equal; lia).
    assert (S2 : 2 ^ 53 = 2 ^ d * 2 ^ (53 - d))
      by (rewrite <- pow2_split by lia; f_equal; lia).
    assert (P : 0 < 2 ^ (53 - d)) by (apply Z.pow_pos_nonneg; lia).
    rewrite binary_round_aux_exact; [| rewrite Hm, S1, S2; split; nia | lia].
    exists (Pos.iter xO p k), (d + 0 - 53). split; [reflexivity|].
    split; [rewrite Hm, S1, S2; split; nia|]. split; [lia|].
    rewrite Hm. f_equal. f_equal. lia.
Qed.

End RoundingFacts.

Module RealFacts.
Import RoundingFacts.

Lemma bpow_pos e : (0 < powerRZ 2 e)%R.
Proof. apply powerRZ_lt. lra. Qed.

Lemma bpow_add a b : powerRZ 2 (a + b) = (powerRZ 2 a * powerRZ 2 b)%R.
Proof. apply powerRZ_add. lra. Qed.

Lemma IZR_pow2 k : 0 <= k -> IZR (2 ^ k) = powerRZ 2 k.
Proof.
  intros Hk. rewrite <- (Z2Nat.id k Hk) at 1 2.
  now rewrite <- pow_IZR, pow_powerRZ.
Qed.

Lemma F2R_pos m e : (0 < F2R m e)%R.
Proof.
  unfold F2R. apply Rmult_lt_0_compat; [|apply bpow_pos].
  apply IZR_lt. reflexivity.
Qed.

(** For a 53-digit mantissa one unit of the last place is at most
    [2^-52] of the value. *)
Lemma ulp_le m e :
  2 ^ 52 <= Zpos m -> (powerRZ 2 e <= ulp52 * F2R m e)%R.
Proof.
  intros H. unfold ulp52, F2R.
  assert (H1 : (IZR (2 ^ 52) <= IZR (Zpos m))%R) by now apply IZR_le.
  rewrite IZR_pow2 in H1 by lia.
  pose proof (bpow_pos e) as Pe. pose proof (bpow_pos (-52)) as Pu.
  assert (E : (powerRZ 2 (-52) * powerRZ 2 52 = 1)%R).
  { rewrite <- bpow_add. reflexivity. }
  assert (H2 : (1 <= powerRZ 2 (-52) * IZR (Zpos m))%R).
  { rewrite <- E. apply Rmult_le_compat_l; [lra | exact H1]. }
  replace (powerRZ 2 (-52) * (IZR (Zpos m) * powerRZ 2 e))%R
    with ((powerRZ 2 (-52) * IZR (Zpos m)) * powerRZ 2 e)%R by ring.
  rewrite <- (Rmult_1_l (powerRZ 2 e)) at 1.
  apply Rmult_le_compat_r; lra.
Qed.

(** The product of two normal numbers, faithfully rounded. *)
Lemma SFmul_faithful m1 e1 m2 e2 :
  2 ^ 52 <= Zpos m1 < 2 ^ 53 -> 2 ^ 52 <= Zpos m2 < 2 ^ 53 ->
  -1074 <= e1 + e2 -> e1 + e2 + 106 <= 1023 ->
  exists m' e',
    SFmul prec emax (S754_finite false m1 e1) (S754_finite false m2 e2)
    = S754_finite false m' e'
    /\ 2 ^ 52 <= Zpos m' < 2 ^ 53
    /\ (F2R m' e' * (1 - ulp52) <= F2R m1 e1 * F2R m2 e2 <= F2R m' e' * (1 + ulp52))%R.
Proof.
  intros H1 H2 Hlo Hhi. cbn [SFmul xorb].
  assert (P : 2 ^ 52 <= Zpos (m1 * m2) < 2 ^ 106).
  { rewrite Pos2Z.inj_mul. change (2 ^ 106) with (2 ^ 53 * 2 ^ 53).
    change (2 ^ 52) with (1 * 2 ^ 52) at 1. split; nia. }
  assert (D : Zdigits2 (Zpos (m1 * m2)) <= 106).
  { pose proof (Zdigits2_bounds (Zpos (m1 * m2)) ltac:(lia)) as [B _].
    destruct (Z_lt_le_dec 106 (Zdigits2 (Zpos (m1 * m2)))) as [G|]; [|assumption].
    assert (2 ^ 106 <= 2 ^ (Zdigits2 (Zpos (m1 * m2)) - 1)) by (apply Z.pow_le_mono_r; lia).
    lia. }
  destruct (binary_round_aux_faithful (Zpos (m1 * m2)) (e1 + e2) loc_Exact
              ltac:(lia) Hlo ltac:(lia)) as (m' & e' & E & B & Be & Vlo & Vhi).
  exists m', e'. split; [exact E|]. split; [exact B|].
  set (k := e' - (e1 + e2)) in *.
  assert (Hk : 0 <= k) by (unfold k; lia).
  apply IZR_le in Vlo, Vhi.
  rewrite mult_IZR, IZR_pow2 in Vlo, Vhi by assumption.
  rewrite minus_IZR in Vlo. rewrite !plus_IZR in Vhi.
  rewrite Pos2Z.inj_mul, mult_IZR in Vlo, Vhi.
  pose proof (ulp_le m' e' ltac:(lia)) as U.
  pose proof (bpow_pos (e1 + e2)) as P12.
  assert (Ee : powerRZ 2 e' = (powerRZ 2 k * powerRZ 2 (e1 + e2))%R)
    by (rewrite <- bpow_add; f_equal; unfold k; lia).
  assert (Ex : (F2R m1 e1 * F2R m2 e2
               = IZR (Zpos m1) * IZR (Zpos m2) * powerRZ 2 (e1 + e2))%R)
    by (unfold F2R; rewrite bpow_add; ring).
  rewrite Ex. unfold F2R in *. rewrite Ee in *.
  set (M := IZR (Zpos m')) in *. set (X := (IZR (Zpos m1) * IZR (Zpos m2))%R) in *.
  set (bk := powerRZ 2 k) in *. set (b := powerRZ 2 (e1 + e2)) in *.
  assert (L1 : ((M - 1) * bk * b <= X * b)%R) by (apply Rmult_le_compat_r; lra).
  assert (L2 : (X * b <= (M + 1) * bk * b)%R) by (apply Rmult_le_compat_r; lra).
  split; nra.
Qed.


(** The quotient of two normal numbers, faithfully rounded. *)
Lemma SFdiv_faithful m1 e1 m2 e2 :
  2 ^ 52 <= Zpos m1 < 2 ^ 53 -> 2 ^ 52 <= Zpos m2 < 2 ^ 53 ->
  -1021 <= e1 - e2 <= 1022 ->
  exists m' e',
    SFdiv prec emax (S754_finite false m1 e1) (S754_finite false m2 e2)
    = S754_finite false m' e'
    /\ 2 ^ 52 <= Zpos m' < 2 ^ 53
    /\ e1 - e2 - 53 <= e' <= e1 - e2 - 51
    /\ (F2R m' e' * (1 - ulp52) * F2R m2 e2 <= F2R m1 e1
        <= F2R m' e' * (1 + ulp52) * F2R m2 e2)%R.
Proof.
  intros H1 H2 He. cbn [SFdiv xorb]. unfold SFdiv_core_binary.
  assert (D1 : Zdigits2 (Zpos m1) = 53)
    by (apply digits2_unique; [lia|]; change (53 - 1) with 52; lia).
  assert (D2 : Zdigits2 (Zpos m2) = 53)
    by (apply digits2_unique; [lia|]; change (53 - 1) with 52; lia).
  rewrite D1, D2.
  replace (53 + e1 - (53 + e2)) with (e1 - e2) by lia.
  rewrite fexp_normal by lia.
  replace (Z.min (e1 - e2 - 53) (e1 - e2)) with (e1 - e2 - 53) by lia.
  replace (e1 - e2 - (e1 - e2 - 53)) with 53 by lia.
  rewrite Z.shiftl_mul_pow2 by lia.
  pose proof (Z_div_mod (Zpos m1 * 2 ^ 53) (Zpos m2) ltac:(lia)) as DM.
  destruct (Z.div_eucl (Zpos m1 * 2 ^ 53) (Zpos m2)) as [q r].
  destruct DM as [DM Hr].
  set (e0 := e1 - e2 - 53).
  assert (Q : 2 ^ 52 <= q < 2 ^ 54).
  { change (2 ^ 54) with (2 * 2 ^ 53). change (2 ^ 53) with (2 * 2 ^ 52) in *. split; nia. }
  assert (Dq : Zdigits2 q <= 54).
  { pose proof (Zdigits2_bounds q ltac:(lia)) as [B _].
    destruct (Z_lt_le_dec 54 (Zdigits2 q)) as [G|]; [|assumption].
    assert (2 ^ 54 <= 2 ^ (Zdigits2 q - 1)) by (apply Z.pow_le_mono_r; lia). lia. }
  pose proof (digits2_ge_53 q ltac:(lia)) as Dq'.
  destruct (binary_round_aux_faithful q e0 (new_location (Zpos m2) r)
              ltac:(lia) ltac:(unfold e0; lia) ltac:(unfold e0; lia))
    as (m' & e' & E & B & Be & Vlo & Vhi).
  exists m', e'. split; [exact E|]. split; [exact B|]. split; [unfold e0 in Be; lia|].
  set (k := e' - e0) in *.
  assert (Hk : 0 <= k) by (unfold k; lia).
  assert (Zlo : (Zpos m' - 1) * 2 ^ k * Zpos m2 <= Zpos m1 * 2 ^ 53) by nia.
  assert (Zhi : Zpos m1 * 2 ^ 53 <= (Zpos m' + 1) * 2 ^ k * Zpos m2) by nia.
  apply IZR_le in Zlo, Zhi.
  rewrite !mult_IZR, !IZR_pow2 in Zlo, Zhi by lia.
  rewrite minus_IZR in Zlo. rewrite plus_IZR in Zhi.
  pose proof (ulp_le m' e' ltac:(lia)) as U.
  pose proof (bpow_pos (e0 + e2)) as P0.
  assert (Ee : powerRZ 2 e' = (powerRZ 2 k * powerRZ 2 e0)%R)
    by (rewrite <- bpow_add; f_equal; unfold k; lia).
  assert (E1 : powerRZ 2 e1 = (powerRZ 2 53 * powerRZ 2 (e0 + e2))%R)
    by (rewrite <- bpow_add; f_equal; unfold e0; lia).
  assert (E02 : powerRZ 2 (e0 + e2) = (powerRZ 2 e0 * powerRZ 2 e2)%R) by apply bpow_add.
  pose proof (bpow_pos e0) as Pe0. pose proof (bpow_pos e2) as Pe2.
  unfold F2R in *. rewrite Ee in *. rewrite E1, E02.
  set (M := IZR (Zpos m')) in *. set (M1 := IZR (Zpos m1)) in *.
  set (M2 := IZR (Zpos m2)) in *.
  set (bk := powerRZ 2 k) in *. set (b0 := powerRZ 2 e0) in *.
  set (b2 := powerRZ 2 e2) in *. set (b53 := powerRZ 2 53) in *.
  assert (Pb : (0 < b0 * b2)%R) by (apply Rmult_lt_0_compat; assumption).
  assert (L1 : ((M - 1) * bk * M2 * (b0 * b2) <= M1 * b53 * (b0 * b2))%R)
    by (apply Rmult_le_compat_r; lra).
  assert (L2 : (M1 * b53 * (b0 * b2) <= (M + 1) * bk * M2 * (b0 * b2))%R)
    by (apply Rmult_le_compat_r; lra).
  assert (PM2 : (0 < M2 * b2)%R)
    by (apply Rmult_lt_0_compat; [apply IZR_lt; reflexivity | assumption]).
  assert (U' : (bk * b0 * (M2 * b2) <= ulp52 * (M * (bk * b0)) * (M2 * b2))%R)
    by (apply Rmult_le_compat_r; lra).
  split; nra.
Qed.

(** Two normal numbers compare as their values do. *)
Lemma SFltb_normal m1 e1 m2 e2 :
  2 ^ 52 <= Zpos m1 < 2 ^ 53 -> 2 ^ 52 <= Zpos m2 < 2 ^ 53 ->
  (F2R m1 e1 < F2R m2 e2)%R ->
  SFltb (S754_finite false m1 e1) (S754_finite false m2 e2) = true.
Proof.
  intros H1 H2 Hlt. unfold SFltb, SFcompare.
  destruct (Z.compare_spec e1 e2) as [Heq|Hl|Hg].
  - subst e2. unfold F2R in Hlt. pose proof (bpow_pos e1) as P.
    assert (L : (IZR (Zpos m1) < IZR (Zpos m2))%R) by nra.
    apply lt_IZR in L.
    assert (C : Pos.compare_cont Eq m1 m2 = Lt) by (apply Pos.compare_lt_iff; lia).
    now rewrite C.
  - reflexivity.
  - exfalso. unfold F2R in Hlt.
    assert (Ee : powerRZ 2 e1 = (powerRZ 2 (e1 - e2) * powerRZ 2 e2)%R)
      by (rewrite <- bpow_add; f_equal; lia).
    assert (G : (2 <= powerRZ 2 (e1 - e2))%R).
    { rewrite <- IZR_pow2 by lia. apply IZR_le.
      change 2 with (2 ^ 1) at 1. apply Z.pow_le_mono_r; lia. }
    pose proof (bpow_pos e2) as P.
    destruct H1 as [L1 _]. destruct H2 as [_ U2].
    apply IZR_le in L1. apply IZR_lt in U2.
    change (2 ^ 53) with (2 * 2 ^ 52) in U2. rewrite mult_IZR in U2.
    rewrite Ee in Hlt.
    set (M1 := IZR (Zpos m1)) in *. set (M2 := IZR (Zpos m2)) in *.
    set (T := IZR (2 ^ 52)) in *. set (g := powerRZ 2 (e1 - e2)) in *.
    set (b := powerRZ 2 e2) in *.
    assert (PT : (0 < T)%R) by (apply IZR_lt; reflexivity).
    assert (A1 : (T * 2 <= M1 * g)%R) by nra.
    assert (A2 : (M2 * b < T * 2 * b)%R) by nra.
    assert (A3 : (T * 2 * b <= M1 * g * b)%R) by (apply Rmult_le_compat_r; lra).
    nra.
Qed.

End RealFacts.

(** * The percentage column *)

Module PercentFacts.
Import RoundingFacts RealFacts.

Lemma F2R_of_count a m e :
  -52 <= e <= 0 -> Zpos m = a * 2 ^ (- e) -> F2R m e = IZR a.
Proof.
  intros He Hm. unfold F2R. rewrite Hm, mult_IZR, IZR_pow2 by lia.
  rewrite Rmult_assoc, <- bpow_add. replace (- e + e) with 0 by lia.
  simpl. ring.
Qed.

Lemma hundred_spec :
  Prim2SF 100%float = S754_finite false 7036874417766400 (-46)
  /\ F2R 7036874417766400 (-46) = 100%R.
Proof.
  split; [reflexivity|].
  apply (F2R_of_count 100); [lia | reflexivity].
Qed.

Lemma ulp52_small : (0 < ulp52 <= / 8)%R.
Proof.
  unfold ulp52. split; [apply bpow_pos|].
  replace (/ 8)%R with (powerRZ 2 (-3)) by (simpl; lra).
  replace (-52) with (-49 + -3) by lia. rewrite bpow_add.
  pose proof (bpow_pos (-3)) as P.
  assert (powerRZ 2 (-49) <= 1)%R.
  { pose proof (bpow_add (-49) 49) as E. change (powerRZ 2 (-49 + 49)) with 1%R in E.
    pose proof (bpow_pos (-49)) as P'.
    assert (G : (1 <= powerRZ 2 49)%R)
      by (rewrite <- IZR_pow2 by lia; apply IZR_le; lia).
    nra. }
  nra.
Qed.

Lemma count_ulp a : a < 2 ^ 49 -> (IZR a * ulp52 < / 8)%R.
Proof.
  intros H. apply IZR_lt in H. rewrite IZR_pow2 in H by lia.
  replace (/ 8)%R with (powerRZ 2 (-3)) by (simpl; lra).
  replace (-3) with (49 + -52) by lia. rewrite bpow_add. unfold ulp52.
  apply Rmult_lt_compat_r; [apply bpow_pos | exact H].
Qed.

(** One entry of the percentage column: a count divided by the number of
    rows and multiplied by 100, both operations rounded. *)
Lemma percentage_value a N :
  1 <= a <= N -> N < 2 ^ 53 ->
  exists mx ex my ey,
    Prim2SF (float_of_count a / float_of_count N * 100)%float = S754_finite false my ey
    /\ 2 ^ 52 <= Zpos my < 2 ^ 53
    /\ (F2R mx ex * (1 - ulp52) * IZR N <= IZR a <= F2R mx ex * (1 + ulp52) * IZR N)%R
    /\ (F2R my ey * (1 - ulp52) <= F2R mx ex * 100 <= F2R my ey * (1 + ulp52))%R.
Proof.
  intros Ha HN. unfold float_of_count.
  destruct (float_of_count_spec a ltac:(lia)) as (ma & ea & Ea & Ba & Bea & Va).
  destruct (float_of_count_spec N ltac:(lia)) as (mn & en & En & Bn & Ben & Vn).
  destruct hundred_spec as [Ec Vc].
  rewrite FloatAxioms.mul_spec, FloatAxioms.div_spec, Ea, En, Ec.
  unfold SF64mul, SF64div.
  destruct (SFdiv_faithful ma ea mn en Ba Bn ltac:(lia)) as (mx & ex & Ex & Bx & Bex & Vx).
  rewrite Ex.
  destruct (SFmul_faithful mx ex 7036874417766400 (-46) Bx ltac:(split; reflexivity || discriminate)
              ltac:(lia) ltac:(lia)) as (my & ey & Ey & By & Vy).
  exists mx, ex, my, ey. split; [exact Ey|]. split; [exact By|].
  rewrite (F2R_of_count a ma ea Bea Va) in Vx.
  rewrite (F2R_of_count N mn en Ben Vn) in Vx.
  rewrite Vc in Vy. split; [exact Vx | exact Vy].
Qed.

(** The percentage column grows strictly with the position, for a table of
    fewer than [2^49] rows. *)
Lemma percentage_increasing a b N :
  1 <= a < b -> b <= N -> N < 2 ^ 49 ->
  PrimFloat.ltb (float_of_count a / float_of_count N * 100)%float
                (float_of_count b / float_of_count N * 100)%float = true.
Proof.
  intros Hab HbN HN.
  assert (H53 : N < 2 ^ 53) by (apply Z.lt_trans with (2 ^ 49); [assumption | reflexivity]).
  destruct (percentage_value a N ltac:(lia) H53) as (mxa & exa & mya & eya & Ea & Ba & Da & Ma).
  destruct (percentage_value b N ltac:(lia) H53) as (mxb & exb & myb & eyb & Eb & Bb & Db & Mb).
  rewrite FloatAxioms.ltb_spec, Ea, Eb.
  apply SFltb_normal; [exact Ba | exact Bb |].
  pose proof (F2R_pos mxa exa) as Pxa. pose proof (F2R_pos mxb exb) as Pxb.
  pose proof (F2R_pos mya eya) as Pya. pose proof (F2R_pos myb eyb) as Pyb.
  set (xa := F2R mxa exa) in *. set (xb := F2R mxb exb) in *.
  set (ya := F2R mya eya) in *. set (yb := F2R myb eyb) in *.
  pose proof ulp52_small as [U0 U8].
  pose proof (count_ulp a ltac:(lia)) as Ua.
  set (u := ulp52) in *.
  assert (Ra : (1 <= IZR a)%R) by (apply IZR_le; lia).
  assert (Rb : (IZR a + 1 <= IZR b)%R) by (rewrite <- plus_IZR; apply IZR_le; lia).
  assert (Rn : (0 < IZR N)%R) by (apply IZR_lt; lia).
  set (ar := IZR a) in *. set (br := IZR b) in *. set (n := IZR N) in *.
  destruct Da as [Da1 Da2]. destruct Db as [Db1 Db2].
  destruct Ma as [Ma1 Ma2]. destruct Mb as [Mb1 Mb2].
  apply Rnot_le_lt. intros Hle.
  (* 100 b <= ya (1+u)^2 n *)
  assert (S1 : (100 * br <= xb * 100 * (1 + u) * n)%R) by nra.
  assert (S2 : (xb * 100 * ((1 + u) * n) <= yb * (1 + u) * ((1 + u) * n))%R)
    by (apply Rmult_le_compat_r; nra).
  assert (S3 : (yb * ((1 + u) * (1 + u) * n) <= ya * ((1 + u) * (1 + u) * n))%R)
    by (apply Rmult_le_compat_r; nra).
  assert (T1 : (100 * br <= ya * n * ((1 + u) * (1 + u)))%R) by nra.
  (* ya (1-u)^2 n <= 100 a *)
  assert (S4 : (ya * (1 - u) * ((1 - u) * n) <= xa * 100 * ((1 - u) * n))%R)
    by (apply Rmult_le_compat_r; nra).
  assert (T2 : (ya * n * ((1 - u) * (1 - u)) <= 100 * ar)%R) by nra.
  set (w := (ya * n)%R) in *.
  assert (Pw : (0 < w)%R) by (apply Rmult_lt_0_compat; assumption).
  set (p := ((1 + u) * (1 + u))%R) in *. set (q := ((1 - u) * (1 - u))%R) in *.
  assert (Pq : (/ 2 < q)%R) by (unfold q; nra).
  assert (Pp : (0 < p)%R) by (unfold p; nra).
  assert (T3 : (100 * br * q <= w * p * q)%R) by (apply Rmult_le_compat_r; lra).
  assert (T4 : (w * q * p <= 100 * ar * p)%R) by (apply Rmult_le_compat_r; lra).
  assert (T5 : (br * q <= ar * p)%R) by nra.
  assert (T6 : ((ar + 1) * q <= ar * p)%R) by nra.
  assert (T7 : (p - q = 4 * u)%R) by (unfold p, q; ring).
  nra.
Qed.

(** The last entry is exactly 100. *)
Lemma percentage_last N :
  1 <= N < 2 ^ 53 ->
  (float_of_count N / float_of_count N * 100)%float = 100%float.
Proof.
  intros HN. unfold float_of_count.
  destruct (float_of_count_spec N HN) as (m & e & E & B & Be & V).
  apply Prim2SF_inj.
  rewrite FloatAxioms.mul_spec, FloatAxioms.div_spec, E.
  assert (D : SF64div (S754_finite false m e) (S754_finite false m e) = Prim2SF 1%float).
  { unfold SF64div. cbn [SFdiv xorb]. unfold SFdiv_core_binary.
    assert (D1 : Zdigits2 (Zpos m) = 53)
      by (apply digits2_unique; [lia|]; change (53 - 1) with 52; lia).
    rewrite D1. replace (53 + e - (53 + e)) with 0 by lia.
    replace (e - e) with 0 by lia.
    change (Z.min (fexp prec emax 0) 0) with (-53).
    change (0 - -53) with 53.
    rewrite Z.shiftl_mul_pow2 by lia.
    pose proof (Z_div_mod (Zpos m * 2 ^ 53) (Zpos m) ltac:(lia)) as DM.
    destruct (Z.div_eucl (Zpos m * 2 ^ 53) (Zpos m)) as [q r].
    destruct DM as [DM Hr].
    assert (q = 2 ^ 53) by nia. assert (r = 0) by nia. subst q r.
    unfold new_location, new_location_even, new_location_odd.
    change (0 =? 0) with true. cbv iota.
    destruct (Z.even (Zpos m)); vm_compute; reflexivity. }
  rewrite D. vm_compute. reflexivity.
Qed.

End PercentFacts.

(** * Counting the entries of a column by value *)

Module CountingFacts.
Import MaskArea.

Section Counting.
Context {A : Type}.
Variable eqv : A -> A -> bool.
Hypothesis eqv_sym : forall x y, eqv x y = eqv y x.
Hypothesis eqv_trans : forall x y z, eqv x y = true -> eqv y z = true -> eqv x z = true.

Lemma sum_Z_app l l' : sum_Z (l ++ l') = sum_Z l + sum_Z l'.
Proof. induction l; simpl; lia. Qed.

Lemma sum_filter_split (p : A -> bool) (g : A -> Z) l :
  sum_Z (map g l)
  = sum_Z (map g (filter p l)) + sum_Z (map g (filter (fun x => negb (p x)) l)).
Proof. induction l as [|x l IH]; simpl; [reflexivity|]. destruct (p x); simpl; lia. Qed.

Lemma sum_map_ext (g h : A -> Z) l :
  (forall x, In x l -> g x = h x) -> sum_Z (map g l) = sum_Z (map h l).
Proof.
  induction l as [|x l IH]; intros H; simpl; [reflexivity|].
  rewrite (H x (or_introl eq_refl)), IH; [reflexivity|]. intros y Hy. apply H. now right.
Qed.

Lemma sum_map_const (c : Z) (l : list A) : sum_Z (map (fun _ => c) l) = Z.of_nat (List.length l) * c.
Proof.
  induction l as [|x l IH]; [reflexivity|].
  cbn [List.length map]. change (sum_Z (c :: map (fun _ => c) l)) with (c + sum_Z (map (fun _ => c) l)).
  rewrite IH, Nat2Z.inj_succ. ring.
Qed.

Lemma occurrences_cons x r d :
  occurrences eqv (x :: r) d = Z.b2z (eqv x d) + occurrences eqv r d.
Proof.
  unfold occurrences. cbn [filter].
  destruct (eqv x d); cbn [List.length Z.b2z]; [rewrite Nat2Z.inj_succ|]; lia.
Qed.

Lemma occurrences_app l l' d :
  occurrences eqv (l ++ l') d = occurrences eqv l d + occurrences eqv l' d.
Proof. unfold occurrences. rewrite filter_app, length_app. lia. Qed.

Lemma occurrences_nonneg s d : 0 <= occurrences eqv s d.
Proof. unfold occurrences. lia. Qed.

Lemma occurrences_same s x y : eqv x y = true -> occurrences eqv s x = occurrences eqv s y.
Proof.
  intros H. unfold occurrences. f_equal. f_equal. apply filter_ext. intros z.
  destruct (eqv z x) eqn:E1, (eqv z y) eqn:E2; try reflexivity.
  - rewrite (eqv_trans z x y E1 H) in E2. discriminate.
  - rewrite eqv_sym in H. rewrite (eqv_trans z y x E2 H) in E1. discriminate.
Qed.

Lemma occurrences_zero s d :
  (forall x, In x s -> eqv x d = false) -> occurrences eqv s d = 0.
Proof.
  intros H. unfold occurrences.
  induction s as [|x s IH]; [reflexivity|]. simpl.
  rewrite (H x (or_introl eq_refl)). apply IH. intros y Hy. apply H. now right.
Qed.

Lemma occurrences_member s d :
  In d s -> eqv d d = true -> 1 <= occurrences eqv s d.
Proof.
  intros Hin Hr. apply in_split in Hin. destruct Hin as (l1 & l2 & ->).
  rewrite occurrences_app, occurrences_cons, Hr.
  pose proof (occurrences_nonneg l1 d). pose proof (occurrences_nonneg l2 d).
  cbn [Z.b2z]. lia.
Qed.

Lemma distinct_incl s x : In x (distinct eqv s) -> In x s.
Proof.
  revert x. induction s as [|y s IH]; intros x; simpl; [tauto|].
  intros [->|H]; [now left|]. right. apply IH. apply filter_In in H. tauto.
Qed.

Lemma filter_filter_none (p q : A -> bool) l :
  (forall z, p z = true -> q z = false) -> filter p (filter q l) = [].
Proof.
  intros H. induction l as [|z l IH]; [reflexivity|]. cbn [filter].
  destruct (q z) eqn:Eq; [|exact IH]. cbn [filter].
  destruct (p z) eqn:Ep; [|exact IH]. rewrite (H z Ep) in Eq. discriminate.
Qed.

Lemma filter_filter_all (p q : A -> bool) l :
  (forall z, p z = true -> q z = true) -> filter p (filter q l) = filter p l.
Proof.
  intros H. induction l as [|z l IH]; [reflexivity|]. cbn [filter].
  destruct (q z) eqn:Eq; cbn [filter].
  - now rewrite IH.
  - destruct (p z) eqn:Ep; [|exact IH]. rewrite (H z Ep) in Eq. discriminate.
Qed.

(** Among the distinct values at most one is equal to [x], and one is as
    soon as [x] occurs. *)
Lemma distinct_class s x :
  (forall y, In y s -> eqv y y = true) ->
  Z.of_nat (List.length (filter (fun d => eqv d x) (distinct eqv s)))
  = Z.b2z (existsb (fun y => eqv y x) s).
Proof.
  induction s as [|y s IH]; intros Hr; [reflexivity|].
  cbn [distinct filter existsb].
  assert (IH' := IH (fun z Hz => Hr z (or_intror Hz))). clear IH.
  destruct (eqv y x) eqn:E; cbn [orb].
  - rewrite filter_filter_none; [reflexivity|].
    intros z Ezx. apply negb_false_iff.
    rewrite eqv_sym in E. exact (eqv_trans z x y Ezx E).
  - rewrite filter_filter_all; [exact IH'|].
    intros z Ezx. apply negb_true_iff.
    destruct (eqv z y) eqn:Ezy; [|reflexivity].
    rewrite eqv_sym in Ezy. rewrite (eqv_trans y z x Ezy Ezx) in E. discriminate.
Qed.

Lemma existsb_occurrences s x :
  existsb (fun y => eqv y x) s = false -> occurrences eqv s x = 0.
Proof.
  intros H. apply occurrences_zero. intros y Hy.
  destruct (eqv y x) eqn:E; [|reflexivity].
  assert (existsb (fun y => eqv y x) s = true) by (apply existsb_exists; now exists y).
  congruence.
Qed.

(** Summing a class function over the rows is summing it over the distinct
    values, each weighted by its number of occurrences. *)
Lemma sum_by_class (f : A -> Z) s :
  (forall y, In y s -> eqv y y = true) ->
  (forall x y, eqv x y = true -> f x = f y) ->
  sum_Z (map f s) = sum_Z (map (fun d => occurrences eqv s d * f d) (distinct eqv s)).
Proof.
  intros Hr Hf. induction s as [|x r IH]; [reflexivity|].
  assert (Hr' : forall y, In y r -> eqv y y = true) by (intros y Hy; apply Hr; now right).
  assert (Hx : eqv x x = true) by (apply Hr; now left).
  specialize (IH Hr').
  cbn [map sum_Z fold_right distinct]. fold (sum_Z (map f r)).
  rewrite IH.
  rewrite occurrences_cons, Hx.
  rewrite (sum_filter_split (fun d => eqv d x) (fun d => occurrences eqv r d * f d)).
  assert (E1 : sum_Z (map (fun d => occurrences eqv r d * f d)
                          (filter (fun d => eqv d x) (distinct eqv r)))
               = occurrences eqv r x * f x).
  { rewrite (sum_map_ext _ (fun _ => occurrences eqv r x * f x)).
    - rewrite sum_map_const, (distinct_class r x Hr').
      destruct (existsb (fun y => eqv y x) r) eqn:Ex; simpl Z.b2z; [lia|].
      rewrite (existsb_occurrences r x Ex). lia.
    - intros d Hd. apply filter_In in Hd. destruct Hd as [_ Hd].
      now rewrite (occurrences_same r d x Hd), (Hf d x Hd). }
  assert (E2 : sum_Z (map (fun d => occurrences eqv (x :: r) d * f d)
                          (filter (fun y => negb (eqv y x)) (distinct eqv r)))
               = sum_Z (map (fun d => occurrences eqv r d * f d)
                            (filter (fun y => negb (eqv y x)) (distinct eqv r)))).
  { apply sum_map_ext. intros d Hd. apply filter_In in Hd. destruct Hd as [_ Hd].
    rewrite occurrences_cons. rewrite eqv_sym.
    apply negb_true_iff in Hd. rewrite Hd. simpl. lia. }
  rewrite E1. fold (sum_Z (map (fun d => occurrences eqv (x :: r) d * f d)
                               (filter (fun y => negb (eqv y x)) (distinct eqv r)))).
  rewrite E2. simpl Z.b2z. lia.
Qed.

Lemma sum_occurrences_is_sum_of_squares s :
  (forall y, In y s -> eqv y y = true) ->
  sum_Z (map (occurrences eqv s) s) = sum_of_squares eqv s.
Proof.
  intros Hr. unfold sum_of_squares. apply sum_by_class; [exact Hr|].
  intros x y. apply occurrences_same.
Qed.


Lemma sum_at_least_length (g : A -> Z) l :
  (forall x, In x l -> 1 <= g x) ->
  Z.of_nat (List.length l) <= sum_Z (map g l)
  /\ (sum_Z (map g l) = Z.of_nat (List.length l) <-> forall x, In x l -> g x = 1).
Proof.
  induction l as [|x l IH]; intros H.
  - simpl. split; [lia|]. split; [intros _ x [] | reflexivity].
  - assert (H' : forall y, In y l -> 1 <= g y) by (intros y Hy; apply H; now right).
    destruct (IH H') as [IH1 IH2]. pose proof (H x (or_introl eq_refl)) as Hx.
    cbn [map List.length]. change (sum_Z (g x :: map g l)) with (g x + sum_Z (map g l)).
    rewrite Nat2Z.inj_succ. split; [lia|]. split.
    + intros E y [<-|Hy]; [lia|]. apply IH2; [lia | exact Hy].
    + intros E. rewrite (E x (or_introl eq_refl)).
      assert (sum_Z (map g l) = Z.of_nat (List.length l))
        by (apply IH2; intros y Hy; apply E; now right).
      lia.
Qed.

(** Two rows with equal values: the value occurs at least twice. *)
Lemma tie_occurs_twice d0 s i j :
  (i < j < List.length s)%nat ->
  eqv (nth i s d0) (nth j s d0) = true -> eqv (nth j s d0) (nth j s d0) = true ->
  2 <= occurrences eqv s (nth j s d0).
Proof.
  intros Hij E Hr.
  destruct (nth_split s d0 (n := i) ltac:(lia)) as (l1 & l2 & Es & Hl1).
  assert (Hj : nth j s d0 = nth (j - i - 1) l2 d0).
  { rewrite Es at 1. rewrite app_nth2 by lia. rewrite Hl1.
    destruct (j - i)%nat as [|k] eqn:Ek; [lia|]. cbn [nth]. f_equal. lia. }
  assert (Hin : In (nth j s d0) l2).
  { rewrite Hj. apply nth_In.
    assert (List.length s = (List.length l1 + S (List.length l2))%nat)
      by (rewrite Es at 1; rewrite length_app; reflexivity).
    lia. }
  rewrite Es at 1. rewrite occurrences_app, occurrences_cons, E.
  pose proof (occurrences_nonneg l1 (nth j s d0)).
  pose proof (occurrences_member l2 (nth j s d0) Hin Hr).
  cbn [Z.b2z]. lia.
Qed.

(** Without ties every value occurs once. *)
Lemma tie_free_occurs_once d0 s j :
  tie_free eqv d0 s -> (j < List.length s)%nat ->
  eqv (nth j s d0) (nth j s d0) = true ->
  occurrences eqv s (nth j s d0) = 1.
Proof.
  intros Hfree Hj Hr.
  destruct (nth_split s d0 (n := j) Hj) as (l1 & l2 & Es & Hl1).
  assert (Hlen : List.length s = (List.length l1 + S (List.length l2))%nat)
    by (rewrite Es at 1; rewrite length_app; reflexivity).
  rewrite Es at 1. rewrite occurrences_app, occurrences_cons, Hr.
  rewrite (occurrences_zero l1), (occurrences_zero l2); [reflexivity| |].
  - intros x Hx. destruct (In_nth l2 x d0 Hx) as (k & Hk & <-).
    replace (nth k l2 d0) with (nth (j + S k) s d0).
    + rewrite eqv_sym. apply Hfree. lia.
    + rewrite Es at 1. rewrite app_nth2 by lia. rewrite Hl1.
      destruct (j + S k - j)%nat as [|k'] eqn:Ek; [lia|]. cbn [nth]. f_equal. lia.
  - intros x Hx. destruct (In_nth l1 x d0 Hx) as (k & Hk & <-).
    replace (nth k l1 d0) with (nth k s d0).
    + apply Hfree. lia.
    + rewrite Es at 1. now rewrite app_nth1 by lia.
Qed.

(** The total of the per-row counts against the number of rows. *)
Lemma sum_occurrences_and_ties d0 s :
  (forall y, In y s -> eqv y y = true) ->
  Z.of_nat (List.length s) <= sum_Z (map (occurrences eqv s) s)
  /\ (sum_Z (map (occurrences eqv s) s) = Z.of_nat (List.length s) <-> tie_free eqv d0 s)
  /\ (forall i j, (i < j < List.length s)%nat -> eqv (nth i s d0) (nth j s d0) = true ->
                  Z.of_nat (List.length s) < sum_Z (map (occurrences eqv s) s)).
Proof.
  intros Hr.
  assert (H1 : forall x, In x s -> 1 <= occurrences eqv s x)
    by (intros x Hx; apply occurrences_member; [exact Hx | now apply Hr]).
  destruct (sum_at_least_length (occurrences eqv s) s H1) as [Hge Hiff].
  assert (Htie : forall i j, (i < j < List.length s)%nat ->
                   eqv (nth i s d0) (nth j s d0) = true ->
                   Z.of_nat (List.length s) < sum_Z (map (occurrences eqv s) s)).
  { intros i j Hij E.
    assert (Hin : In (nth j s d0) s) by (apply nth_In; lia).
    pose proof (tie_occurs_twice d0 s i j Hij E (Hr _ Hin)) as H2.
    destruct (Z.eq_dec (sum_Z (map (occurrences eqv s) s)) (Z.of_nat (List.length s)))
      as [Heq|Hne]; [|lia].
    pose proof (proj1 Hiff Heq _ Hin). lia. }
  split; [exact Hge|]. split; [|exact Htie]. split.
  - intros Heq i j Hij. destruct (eqv (nth i s d0) (nth j s d0)) eqn:E; [|reflexivity].
    specialize (Htie i j Hij E). lia.
  - intros Hfree. apply Hiff. intros x Hx.
    destruct (In_nth s x d0 Hx) as (j & Hj & <-).
    apply (tie_free_occurs_once d0); [exact Hfree | exact Hj |].
    apply Hr. apply nth_In. exact Hj.
Qed.

End Counting.
End CountingFacts.

(** * The Area/Diameter Converter *)

Module DiameterFacts.
Import MaskArea RoundingFacts.

Lemma SFeqb_same x y : SFeqb x y = true <-> sf_same x y.
Proof.
  unfold SFeqb, SFcompare, sf_same.
  destruct x as [s|s| |s m e], y as [s'|s'| |s' m' e'];
    try destruct s; try destruct s';
    try (split; intros H;
         first [discriminate H | contradiction | exact I | reflexivity
               | destruct H as (H & _); discriminate H]).
  - change (Pos.compare_cont Eq m m') with (Pos.compare m m').
    destruct (Z.compare_spec e e'), (Pos.compare_spec m m'); simpl;
      split; intros G; try discriminate G;
      try (destruct G as (_ & ? & ?); lia); try (repeat split; congruence).
  - change (Pos.compare_cont Eq m m') with (Pos.compare m m').
    destruct (Z.compare_spec e e'), (Pos.compare_spec m m'); simpl;
      split; intros G; try discriminate G;
      try (destruct G as (_ & ? & ?); lia); try (repeat split; congruence).
Qed.

Lemma sf_same_sym x y : sf_same x y -> sf_same y x.
Proof.
  destruct x, y; simpl; try tauto; try congruence.
  intros (-> & -> & ->). auto.
Qed.

Lemma sf_same_trans x y z : sf_same x y -> sf_same y z -> sf_same x z.
Proof.
  destruct x, y, z; simpl; try tauto; try congruence.
  intros (-> & -> & ->) (-> & -> & ->). auto.
Qed.

Lemma float_eqb_sym x y : PrimFloat.eqb x y = PrimFloat.eqb y x.
Proof.
  rewrite !FloatAxioms.eqb_spec.
  destruct (SFeqb (Prim2SF x) (Prim2SF y)) eqn:E1, (SFeqb (Prim2SF y) (Prim2SF x)) eqn:E2;
    try reflexivity.
  - apply SFeqb_same, sf_same_sym, SFeqb_same in E1. congruence.
  - apply SFeqb_same, sf_same_sym, SFeqb_same in E2. congruence.
Qed.

Lemma float_eqb_trans x y z :
  PrimFloat.eqb x y = true -> PrimFloat.eqb y z = true -> PrimFloat.eqb x z = true.
Proof.
  rewrite !FloatAxioms.eqb_spec, !SFeqb_same. apply sf_same_trans.
Qed.

Lemma float_eqb_refl x : PrimFloat.is_nan x = false -> PrimFloat.eqb x x = true.
Proof. unfold PrimFloat.is_nan. now intros H%negb_false_iff. Qed.

Lemma sf_nonneg_not_nan x : sf_nonneg (Prim2SF x) -> PrimFloat.is_nan x = false.
Proof.
  intros H. destruct (PrimFloat.is_nan x) eqn:E; [|reflexivity].
  apply FloatFacts.is_nan_spec in E. rewrite E in H. destruct H.
Qed.

Lemma leb_zero_nonneg x : PrimFloat.leb 0 x = true -> sf_nonneg (Prim2SF x).
Proof.
  rewrite FloatAxioms.leb_spec. change (Prim2SF 0) with (S754_zero false).
  unfold SFleb, SFcompare, sf_nonneg.
  destruct (Prim2SF x) as [s|s| |s m e]; try destruct s; try discriminate; trivial.
Qed.

Lemma round_nonneg m e l :
  0 <= m -> sf_nonneg (binary_round_aux prec emax false m e l).
Proof.
  intros H. destruct (binary_round_aux_sign false m e l H) as [E|[E|(m' & e' & E)]];
    rewrite E; simpl; trivial.
Qed.

Lemma div_nonneg x m e :
  sf_nonneg x -> sf_nonneg (SF64div x (S754_finite false m e)).
Proof.
  unfold SF64div. destruct x as [s|s| |s mx ex]; simpl; trivial; try tauto.
  - intros ->. reflexivity.
  - intros ->. cbn [xorb]. unfold SFdiv_core_binary.
    set (m' := match _ with Z0 => Zpos mx | Zpos _ => _ | Zneg _ => 0 end).
    assert (Hm' : 0 <= m').
    { subst m'. destruct (_ - _ - _) as [|p|p]; [lia | | lia].
      apply Z.shiftl_nonneg. lia. }
    pose proof (Z_div_mod m' (Zpos m) ltac:(lia)) as DM.
    destruct (Z.div_eucl m' (Zpos m)) as [q r]. destruct DM as [DM Hr].
    apply round_nonneg. nia.
Qed.

Lemma sqrt_nonneg x : sf_nonneg x -> sf_nonneg (SF64sqrt x).
Proof.
  unfold SF64sqrt. destruct x as [s|s| |s mx ex]; simpl; trivial.
  - intros ->. reflexivity.
  - intros ->. unfold SFsqrt_core_binary.
    set (m' := match _ with Z0 => Zpos mx | Zpos _ => _ | Zneg _ => 0 end).
    assert (Hm' : 0 <= m').
    { subst m'. destruct (_ - _) as [|p|p]; [lia | | lia].
      apply Z.shiftl_nonneg. lia. }
    pose proof (Z.sqrtrem_spec m' Hm') as SQ.
    destruct (Z.sqrtrem m') as [q r]. destruct SQ as [SQ Hr].
    apply round_nonneg. lia.
Qed.

Lemma mul_nonneg x m e :
  sf_nonneg x -> sf_nonneg (SF64mul x (S754_finite false m e)).
Proof.
  unfold SF64mul. destruct x as [s|s| |s mx ex]; simpl; trivial; try tauto.
  - intros ->. reflexivity.
  - intros ->. apply round_nonneg. lia.
Qed.

Lemma nonneg_not_below_zero x : sf_nonneg (Prim2SF x) -> PrimFloat.ltb x 0 = false.
Proof.
  rewrite FloatAxioms.ltb_spec. change (Prim2SF 0) with (S754_zero false).
  unfold SFltb, SFcompare, sf_nonneg.
  destruct (Prim2SF x) as [s|s| |s m e]; try reflexivity; intros ->; reflexivity.
Qed.

(** The diameter of an area that is not negative is defined and is not
    NaN. *)
Lemma diameter_defined area :
  PrimFloat.leb 0 area = true ->
  exists d, get_diameter_from_area area = Ok d /\ PrimFloat.is_nan d = false.
Proof.
  intros H. apply leb_zero_nonneg in H.
  assert (Hq : sf_nonneg (Prim2SF (area / math_pi)%float)).
  { rewrite FloatAxioms.div_spec.
    change (Prim2SF math_pi) with (S754_finite false 7074237752028440 (-51)).
    now apply div_nonneg. }
  unfold get_diameter_from_area, math_sqrt.
  rewrite (nonneg_not_below_zero _ Hq). cbn [bind].
  eexists. split; [reflexivity|].
  apply sf_nonneg_not_nan. rewrite FloatAxioms.mul_spec, FloatAxioms.sqrt_spec.
  change (Prim2SF 2) with (S754_finite false 4503599627370496 (-51)).
  apply mul_nonneg, sqrt_nonneg, Hq.
Qed.

End DiameterFacts.

Module AreaFacts.
Import MaskArea RoundingFacts DiameterFacts.

Lemma float_of_count_nonneg n :
  0 <= n < 2 ^ 63 -> sf_nonneg (Prim2SF (float_of_count n)).
Proof.
  intros Hn. unfold float_of_count.
  rewrite FloatAxioms.of_uint63_spec, Uint63.of_Z_spec.
  rewrite Z.mod_small by (change wB with (2 ^ 63); exact Hn).
  destruct n as [|p|p]; [exact I | | lia].
  cbn [binary_normalize]. unfold binary_round.
  destruct (shl_align p 0 (fexp prec emax (Zpos (digits2_pos p) + 0))) as [mz ez].
  apply round_nonneg. lia.
Qed.

Lemma mul_nonneg_l m e y :
  sf_nonneg y -> sf_nonneg (SF64mul (S754_finite false m e) y).
Proof.
  unfold SF64mul. destruct y as [s|s| |s my ey]; cbn [SFmul sf_nonneg xorb].
  - trivial.
  - tauto.
  - tauto.
  - intros ->. apply round_nonneg. lia.
Qed.

Lemma nonneg_above_zero x : sf_nonneg (Prim2SF x) -> PrimFloat.leb 0 x = true.
Proof.
  rewrite FloatAxioms.leb_spec. change (Prim2SF 0) with (S754_zero false).
  unfold SFleb, SFcompare, sf_nonneg.
  destruct (Prim2SF x) as [s|s| |s m e]; try reflexivity; try contradiction;
    intros ->; reflexivity.
Qed.

Lemma countNonZero_nonneg image : 0 <= countNonZero image.
Proof.
  unfold countNonZero. induction image as [|line image IH]; [cbn; lia|].
  cbn [map]. unfold sum_Z in *. cbn [fold_right].
  pose proof (Nat2Z.is_nonneg
                (List.length (filter (fun px => negb (Byte.eqb px Byte.x00)) line))).
  lia.
Qed.

(** The area of a mask is never negative and never NaN: the records of a
    measurement table meet what the builder's statements ask of them. *)
Lemma get_mask_area_not_negative (image : raster) :
  countNonZero image < 2 ^ 63 ->
  exists area, get_mask_area (Some image) = Ok area /\ PrimFloat.leb 0 area = true.
Proof.
  intros Hn. eexists. split; [reflexivity|].
  pose proof (countNonZero_nonneg image) as H0.
  apply nonneg_above_zero.
  rewrite !FloatAxioms.mul_spec.
  change (Prim2SF 1000) with (S754_finite false 8796093022208000 (-43)).
  change (Prim2SF area_of_pixel) with (S754_finite false 7273078951615389 (-67)).
  apply mul_nonneg, mul_nonneg_l, float_of_count_nonneg. lia.
Qed.

(** C9, as the code has it.  The area is the binary64 product
    (4.92843e-05 * count) * 1000, each product rounded to nearest; for 2000
    pixels that is 98.56859999999999, the binary64 number just below
    98.5686. *)
Theorem mask_area_of_pixel_count :
  forall image : raster,
    get_mask_area (Some image)
    = Ok (area_of_pixel * float_of_count (countNonZero image) * 1000)%float
    /\ (countNonZero image = 2000 ->
        get_mask_area (Some image) = Ok 98.56859999999999%float
        /\ PrimFloat.next_up 98.56859999999999%float = 98.5686%float).
Proof.
  intros image. split; [reflexivity|].
  intros H. unfold get_mask_area. rewrite H. split; reflexivity.
Qed.

Lemma mask_area_of_pixel_count_witness :
  get_mask_area (Some (repeat (repeat Byte.xff 50) 40)) = Ok 98.56859999999999%float
  /\ PrimFloat.next_up 98.56859999999999%float = 98.5686%float.
Proof.
  apply (mask_area_of_pixel_count (repeat (repeat Byte.xff 50) 40)).
  vm_compute. reflexivity.
Defined.

(** C9, as the claim has it, fails: for a mask of 2000 white pixels the
    script returns 98.56859999999999, which is not the number 98.5686. *)
Lemma mask_area_of_2000_pixels_is_not_98_5686 :
  countNonZero (repeat (repeat Byte.xff 50) 40) = 2000
  /\ get_mask_area (Some (repeat (repeat Byte.xff 50) 40)) = Ok 98.56859999999999%float
  /\ (98.56859999999999 =? 98.5686)%float = false.
Proof. repeat split; vm_compute; reflexivity. Qed.

End AreaFacts.

(** * The Distribution Builder *)

Module BuilderFacts.
Import MaskArea.

Lemma insert_row_perm sort_by r l : Permutation (insert_row sort_by r l) (r :: l).
Proof.
  induction l as [|x l IH]; simpl; [reflexivity|].
  destruct (key_lt sort_by x r); [|reflexivity].
  rewrite IH. apply perm_swap.
Qed.

Lemma stable_sort_values_perm sort_by t : Permutation (stable_sort_values sort_by t) t.
Proof.
  unfold stable_sort_values. induction t as [|r t IH]; simpl; [reflexivity|].
  rewrite insert_row_perm. now constructor.
Qed.

Lemma make_rows_columns images : forall diameter freq cumulative percentage,
  List.length diameter = List.length images ->
  List.length freq = List.length images ->
  List.length cumulative = List.length images ->
  List.length percentage = List.length images ->
  map image (make_rows images diameter freq cumulative percentage) = images
  /\ map Diameter (make_rows images diameter freq cumulative percentage) = diameter
  /\ map Freq (make_rows images diameter freq cumulative percentage) = freq
  /\ map Cumulative_Freq (make_rows images diameter freq cumulative percentage) = cumulative
  /\ map Percentage_of_Particle (make_rows images diameter freq cumulative percentage)
     = percentage.
Proof.
  induction images as [|i images IH];
    intros [|d diameter] [|f freq] [|c cumulative] [|p percentage] H1 H2 H3 H4;
    simpl in H1, H2, H3, H4; try discriminate; [repeat split|].
  injection H1 as H1. injection H2 as H2. injection H3 as H3. injection H4 as H4.
  destruct (IH diameter freq cumulative percentage H1 H2 H3 H4) as (E1 & E2 & E3 & E4 & E5).
  cbn [make_rows map image Diameter Freq Cumulative_Freq Percentage_of_Particle].
  rewrite E1, E2, E3, E4, E5. repeat split.
Qed.

Lemma check_labels_ok cols labels :
  (forall label, In label labels -> In label cols) -> check_labels cols labels = Ok tt.
Proof.
  induction labels as [|l labels IH]; intros H; simpl; [reflexivity|].
  assert (E : existsb (String.eqb l) cols = true).
  { apply existsb_exists. exists l. split; [apply H; now left | apply String.eqb_refl]. }
  rewrite E. apply IH. intros l' Hl'. apply H. now right.
Qed.

Lemma diameters_defined areas :
  (forall a, In a areas -> PrimFloat.leb 0 a = true) ->
  exists ds, mapM get_diameter_from_area areas = Ok ds
             /\ List.length ds = List.length areas
             /\ (forall d, In d ds -> PrimFloat.is_nan d = false).
Proof.
  induction areas as [|a areas IH]; intros H.
  - exists []. repeat split. intros d [].
  - destruct (DiameterFacts.diameter_defined a (H a (or_introl eq_refl))) as (d & Ed & Nd).
    destruct (IH (fun x Hx => H x (or_intror Hx))) as (ds & Eds & Lds & Nds).
    exists (d :: ds). cbn [mapM]. rewrite Ed. cbn [bind]. rewrite Eds. cbn [bind].
    split; [reflexivity|]. split; [simpl; now rewrite Lds|].
    intros x [<-|Hx]; [exact Nd | now apply Nds].
Qed.

Lemma cumsum_skipna_some acc zs :
  cumsum_skipna acc (map Some zs) = map Some (cumsum_from acc zs).
Proof.
  revert acc. induction zs as [|z zs IH]; intros acc; simpl; [reflexivity|]. now rewrite IH.
Qed.

Lemma last_cumsum_from acc zs :
  zs <> [] -> last (map Some (cumsum_from acc zs)) None = Some (acc + sum_Z zs).
Proof.
  revert acc. induction zs as [|z zs IH]; intros acc H; [now elim H|].
  destruct zs as [|z' zs'].
  - simpl. f_equal. lia.
  - change (cumsum_from acc (z :: z' :: zs')) with ((acc + z) :: cumsum_from (acc + z) (z' :: zs')).
    cbn [map]. 
    change (last (Some (acc + z) :: map Some (cumsum_from (acc + z) (z' :: zs'))) None)
      with (last (map Some (cumsum_from (acc + z) (z' :: zs'))) None).
    rewrite IH by discriminate.
    f_equal. change (sum_Z (z :: z' :: zs')) with (z + sum_Z (z' :: zs')). lia.
Qed.

Lemma value_counts_defined ds :
  (forall d, In d ds -> PrimFloat.is_nan d = false) ->
  map (value_counts ds) ds = map (fun d => Some (occurrences PrimFloat.eqb ds d)) ds.
Proof.
  intros H. apply map_ext_in. intros d Hd. unfold value_counts. now rewrite (H d Hd).
Qed.

Lemma map_const_length {A B C} (c : C) (l : list A) (l' : list B) :
  List.length l = List.length l' -> map (fun _ => c) l = map (fun _ => c) l'.
Proof.
  revert l'. induction l as [|x l IH]; intros [|y l'] H; simpl in H; try discriminate;
    [reflexivity|].
  cbn [map]. f_equal. apply IH. now injection H.
Qed.

(** What the builder writes for a table of measured areas. *)
Lemma builder_runs sort_values images_df sort_by calculate_percent :
  (forall labels t, Permutation (sort_values labels t) t) ->
  images_df <> [] ->
  (forall label, In label sort_by -> In label ["Grid"; "Mask"; "Area"]%string) ->
  (forall r, In r images_df -> PrimFloat.leb 0 (Area r) = true) ->
  exists rows ds,
    update_and_save_dataframe sort_values images_df sort_by calculate_percent = Ok rows
    /\ map image rows = sort_values sort_by images_df
    /\ map Diameter rows = ds
    /\ List.length rows = List.length images_df
    /\ mapM get_diameter_from_area (map Area (map image rows)) = Ok ds
    /\ (forall d, In d ds -> PrimFloat.is_nan d = false)
    /\ map Freq rows = map (fun d => Some (occurrences PrimFloat.eqb ds d)) ds
    /\ map Cumulative_Freq rows
       = map Some (cumsum_from 0 (map (occurrences PrimFloat.eqb ds) ds))
    /\ map Percentage_of_Particle rows
       = (if calculate_percent
          then map Some (percentage_of_particle (List.length rows))
          else map (fun _ => None) rows).
Proof.
  intros Hperm Hne Hlabels Hareas.
  unfold update_and_save_dataframe.
  pose proof (Hperm sort_by images_df) as P.
  set (sorted_df := sort_values sort_by images_df) in *.
  assert (Hlen : List.length sorted_df = List.length images_df)
    by (now apply Permutation_length).
  assert (C1 : frame_columns images_df = ["Grid"; "Mask"; "Area"]%string)
    by (destruct images_df; [now elim Hne | reflexivity]).
  assert (C2 : frame_columns sorted_df = ["Grid"; "Mask"; "Area"]%string).
  { destruct sorted_df; [|reflexivity]. destruct images_df; [now elim Hne | discriminate]. }
  rewrite C1, (check_labels_ok _ _ Hlabels). cbn [bind].
  rewrite C2. cbn [check_labels existsb String.eqb Ascii.eqb Bool.eqb orb bind].
  destruct (diameters_defined (map Area sorted_df)) as (ds & Eds & Lds & Nds).
  { intros a Ha. apply in_map_iff in Ha. destruct Ha as (r & <- & Hr).
    apply Hareas. apply (Permutation_in _ P Hr). }
  rewrite Eds. cbn [bind]. rewrite length_map in Lds.
  rewrite (value_counts_defined ds Nds).
  rewrite <- (map_map (occurrences PrimFloat.eqb ds) Some), cumsum_skipna_some.
  set (freq := map Some (map (occurrences PrimFloat.eqb ds) ds)).
  set (cumulative := map Some (cumsum_from 0 (map (occurrences PrimFloat.eqb ds) ds))).
  set (percentage := if calculate_percent
                     then map Some (percentage_of_particle (List.length sorted_df))
                     else map (fun _ => None) sorted_df).
  destruct (make_rows_columns sorted_df ds freq cumulative percentage)
    as (E1 & E2 & E3 & E4 & E5).
  - exact Lds.
  - unfold freq. now rewrite !length_map.
  - unfold cumulative. now rewrite length_map, DetectorFacts.cumsum_from_length, length_map.
  - unfold percentage. destruct calculate_percent; rewrite !length_map; [|reflexivity].
    unfold percentage_of_particle. now rewrite ?length_map, length_seq.
  - exists (make_rows sorted_df ds freq cumulative percentage), ds.
    assert (Lrows : List.length (make_rows sorted_df ds freq cumulative percentage)
                    = List.length sorted_df)
      by (rewrite <- E1 at 2; now rewrite length_map).
    split; [reflexivity|]. split; [exact E1|]. split; [exact E2|].
    split; [lia|]. split; [now rewrite E1|]. split; [exact Nds|].
    split; [rewrite E3; unfold freq; now rewrite map_map|]. split; [exact E4|].
    rewrite E5, Lrows. unfold percentage. destruct calculate_percent; [reflexivity|].
    apply map_const_length. exact (eq_sym Lrows).
Qed.


(** C10.  Every row's Freq is the number of rows of the whole table with
    that row's Diameter; the last Cumulative Freq is the sum over the
    distinct diameters of the square of their multiplicity, which is the
    number of rows exactly when no two diameters are equal and is larger as
    soon as two are. *)
Theorem freq_is_multiplicity_of_diameter :
  forall (sort_values : list string -> list image_data -> list image_data)
         (images_df : list image_data) (sort_by : list string) (calculate_percent : bool),
    (forall labels t, Permutation (sort_values labels t) t) ->
    images_df <> [] ->
    (forall label, In label sort_by -> In label ["Grid"; "Mask"; "Area"]%string) ->
    (forall r, In r images_df -> PrimFloat.leb 0 (Area r) = true) ->
    exists rows,
      update_and_save_dataframe sort_values images_df sort_by calculate_percent = Ok rows
      /\ Permutation (map image rows) images_df
      /\ mapM get_diameter_from_area (map Area (map image rows)) = Ok (map Diameter rows)
      /\ map Freq rows
         = map (fun d => Some (occurrences PrimFloat.eqb (map Diameter rows) d))
               (map Diameter rows)
      /\ last (map Cumulative_Freq rows) None
         = Some (sum_of_squares PrimFloat.eqb (map Diameter rows))
      /\ Z.of_nat (List.length rows) <= sum_of_squares PrimFloat.eqb (map Diameter rows)
      /\ (sum_of_squares PrimFloat.eqb (map Diameter rows) = Z.of_nat (List.length rows)
          <-> tie_free PrimFloat.eqb PrimFloat.nan (map Diameter rows))
      /\ (forall i j, (i < j < List.length rows)%nat ->
            PrimFloat.eqb (nth i (map Diameter rows) PrimFloat.nan)
                          (nth j (map Diameter rows) PrimFloat.nan) = true ->
            Z.of_nat (List.length rows) < sum_of_squares PrimFloat.eqb (map Diameter rows)).
Proof.
  intros sort_values images_df sort_by calculate_percent Hperm Hne Hlabels Hareas.
  destruct (builder_runs sort_values images_df sort_by calculate_percent
              Hperm Hne Hlabels Hareas)
    as (rows & ds & Erun & Eimg & Eds & Elen & Edia & Nds & Efreq & Ecum & _).
  exists rows. rewrite Eds.
  assert (Hrefl : forall d, In d ds -> PrimFloat.eqb d d = true)
    by (intros d Hd; apply DiameterFacts.float_eqb_refl; now apply Nds).
  pose proof (CountingFacts.sum_occurrences_is_sum_of_squares PrimFloat.eqb
                DiameterFacts.float_eqb_sym DiameterFacts.float_eqb_trans ds Hrefl) as Esq.
  pose proof (CountingFacts.sum_occurrences_and_ties PrimFloat.eqb
                DiameterFacts.float_eqb_sym PrimFloat.nan ds Hrefl) as (Hge & Hiff & Htie).
  assert (Lds : List.length ds = List.length rows) by (rewrite <- Eds; apply length_map).
  rewrite Esq, Lds in *.
  split; [exact Erun|]. split; [rewrite Eimg; apply Hperm|]. split; [exact Edia|].
  split; [exact Efreq|]. split.
  - rewrite Ecum, last_cumsum_from; [now rewrite Esq|].
    destruct ds; [|discriminate]. destruct rows; [|discriminate].
    destruct images_df; [now elim Hne | discriminate].
  - split; [exact Hge|]. split; [exact Hiff | exact Htie].
Qed.

Lemma freq_is_multiplicity_of_diameter_witness :
  exists rows,
    update_and_save_dataframe stable_sort_values
      [ {| Grid := "a1"; Mask := 2; Area := 2%float |};
        {| Grid := "a1"; Mask := 3; Area := 1%float |};
        {| Grid := "b2"; Mask := 2; Area := 1%float |} ]
      ["Area"%string] true = Ok rows
    /\ map Freq rows = [Some 2; Some 2; Some 1]
    /\ last (map Cumulative_Freq rows) None = Some 5.
Proof.
  destruct (freq_is_multiplicity_of_diameter stable_sort_values
              [ {| Grid := "a1"; Mask := 2; Area := 2%float |};
                {| Grid := "a1"; Mask := 3; Area := 1%float |};
                {| Grid := "b2"; Mask := 2; Area := 1%float |} ]
              ["Area"%string] true)
    as (rows & Erun & _).
  - apply stable_sort_values_perm.
  - discriminate.
  - intros label [<-|[]]. simpl. tauto.
  - intros r [<-|[<-|[<-|[]]]]; reflexivity.
  - exists rows. split; [exact Erun|].
    vm_compute in Erun. injection Erun as <-. split; reflexivity.
Defined.

(** C7, as the code has it.  The percentage at position k is
    ((k+1) / N) * 100 with the division and the product each rounded; the
    column grows strictly, starts at (1 / N) * 100 and ends at exactly 100. *)
Theorem percentage_of_particle_column :
  forall (sort_values : list string -> list image_data -> list image_data)
         (images_df : list image_data) (sort_by : list string),
    (forall labels t, Permutation (sort_values labels t) t) ->
    images_df <> [] ->
    (forall label, In label sort_by -> In label ["Grid"; "Mask"; "Area"]%string) ->
    (forall r, In r images_df -> PrimFloat.leb 0 (Area r) = true) ->
    Z.of_nat (List.length images_df) < 2 ^ 49 ->
    exists rows,
      update_and_save_dataframe sort_values images_df sort_by true = Ok rows
      /\ List.length rows = List.length images_df
      /\ map Percentage_of_Particle rows
         = map Some (percentage_of_particle (List.length rows))
      /\ (forall k, (k < List.length rows)%nat ->
            nth k (percentage_of_particle (List.length rows)) PrimFloat.nan
            = (float_of_count (Z.of_nat k + 1)
               / float_of_count (Z.of_nat (List.length rows)) * 100)%float)
      /\ (forall i j, (i < j < List.length rows)%nat ->
            PrimFloat.ltb (nth i (percentage_of_particle (List.length rows)) PrimFloat.nan)
                          (nth j (percentage_of_particle (List.length rows)) PrimFloat.nan)
            = true)
      /\ hd PrimFloat.nan (percentage_of_particle (List.length rows))
         = (float_of_count 1 / float_of_count (Z.of_nat (List.length rows)) * 100)%float
      /\ last (percentage_of_particle (List.length rows)) PrimFloat.nan = 100%float.
Proof.
  intros sort_values images_df sort_by Hperm Hne Hlabels Hareas Hsize.
  destruct (builder_runs sort_values images_df sort_by true Hperm Hne Hlabels Hareas)
    as (rows & ds & Erun & _ & _ & Elen & _ & _ & _ & _ & Epct).
  exists rows. split; [exact Erun|]. split; [exact Elen|]. split; [exact Epct|].
  rewrite Elen. set (n := List.length images_df) in *.
  assert (Hn : (0 < n)%nat) by (subst n; destruct images_df; [now elim Hne | simpl; lia]).
  assert (Hnth : forall k, (k < n)%nat ->
            nth k (percentage_of_particle n) PrimFloat.nan
            = (float_of_count (Z.of_nat k + 1) / float_of_count (Z.of_nat n) * 100)%float).
  { intros k Hk. unfold percentage_of_particle.
    rewrite (nth_indep _ PrimFloat.nan
               ((fun k => (float_of_count (Z.of_nat k + 1) / float_of_count (Z.of_nat n) * 100)%float) O))
      by (now rewrite length_map, length_seq).
    rewrite (map_nth (fun k => (float_of_count (Z.of_nat k + 1) / float_of_count (Z.of_nat n) * 100)%float)).
    now rewrite seq_nth. }
  split; [exact Hnth|]. split; [|split].
  - intros i j Hij. rewrite !Hnth by lia.
    apply PercentFacts.percentage_increasing; lia.
  - destruct n as [|n']; [lia|]. reflexivity.
  - assert (L : List.length (percentage_of_particle n) = n)
      by (unfold percentage_of_particle; now rewrite length_map, length_seq).
    assert (E : last (percentage_of_particle n) PrimFloat.nan
                = nth (n - 1) (percentage_of_particle n) PrimFloat.nan).
    { rewrite <- L at 2. generalize (percentage_of_particle n). intros l.
      induction l as [|x l IH]; [reflexivity|].
      destruct l as [|y l']; [reflexivity|].
      change (last (x :: y :: l') PrimFloat.nan) with (last (y :: l') PrimFloat.nan).
      rewrite IH. simpl. now rewrite Nat.sub_0_r. }
    rewrite E, Hnth by lia.
    replace (Z.of_nat (n - 1) + 1) with (Z.of_nat n) by lia.
    apply PercentFacts.percentage_last.
    split; [lia|]. apply Z.lt_trans with (2 ^ 49); [exact Hsize | reflexivity].
Qed.

Lemma percentage_of_particle_column_witness :
  exists rows,
    update_and_save_dataframe stable_sort_values
      [ {| Grid := "a1"; Mask := 2; Area := 2%float |};
        {| Grid := "a1"; Mask := 3; Area := 1%float |};
        {| Grid := "b2"; Mask := 2; Area := 1%float |} ]
      ["Area"%string] true = Ok rows
    /\ map Percentage_of_Particle rows = map Some (percentage_of_particle 3)
    /\ last (percentage_of_particle 3) PrimFloat.nan = 100%float.
Proof.
  destruct (percentage_of_particle_column stable_sort_values
              [ {| Grid := "a1"; Mask := 2; Area := 2%float |};
                {| Grid := "a1"; Mask := 3; Area := 1%float |};
                {| Grid := "b2"; Mask := 2; Area := 1%float |} ]
              ["Area"%string])
    as (rows & Erun & Elen & Epct & _ & _ & _ & Elast).
  - apply stable_sort_values_perm.
  - discriminate.
  - intros label [<-|[]]. simpl. tauto.
  - intros r [<-|[<-|[<-|[]]]]; reflexivity.
  - reflexivity.
  - exists rows. rewrite Elen in Epct, Elast. now repeat split.
Defined.

(** C7, as the claim has it, fails: for three rows the first percentage is
    (1 / 3) * 100 = 33.33333333333333, and 100 / 3 is 33.333333333333336. *)
Lemma first_percentage_is_not_100_over_n :
  (rows <- update_and_save_dataframe stable_sort_values
             [ {| Grid := "a1"; Mask := 2; Area := 2%float |};
               {| Grid := "a1"; Mask := 3; Area := 1%float |};
               {| Grid := "b2"; Mask := 2; Area := 1%float |} ]
             ["Area"%string] true ;;
   Ok (map Percentage_of_Particle rows))
  = Ok [Some 33.33333333333333%float; Some 66.66666666666666%float; Some 100%float]
  /\ (100 / float_of_count 3)%float = 33.333333333333336%float
  /\ (33.33333333333333 =? 100 / float_of_count 3)%float = false.
Proof. repeat split; vm_compute; reflexivity. Qed.

End BuilderFacts.

(** * Runs of equal values *)

Module RunFacts.
Import Dvs DetectorFacts DiameterFacts.

Section Runs.
Context {A : Type}.
Variable ne : A -> A -> bool.
Variable d : A.

(** Between two rows with the same id no row differs from the row above. *)
Lemma same_id_no_flag s i j k :
  (i <= k)%nat -> (k < j)%nat -> (j < List.length s)%nat ->
  nth i (change_ids ne s) 0 = nth j (change_ids ne s) 0 ->
  ne (nth (S k) s d) (nth k s d) = false.
Proof.
  intros Hik Hkj Hj Heq.
  pose proof (change_ids_mono ne d s i k Hik ltac:(lia)) as H1.
  pose proof (change_ids_mono ne d s (S k) j ltac:(lia) Hj) as H2.
  pose proof (change_ids_step ne d s k ltac:(lia)) as H3.
  destruct (ne (nth (S k) s d) (nth k s d)); [simpl in H3; lia | reflexivity].
Qed.

Hypothesis ne_trans : forall a b c, ne a b = false -> ne b c = false -> ne a c = false.

Lemma same_id_same_value s i j :
  (i < j)%nat -> (j < List.length s)%nat ->
  nth i (change_ids ne s) 0 = nth j (change_ids ne s) 0 ->
  ne (nth j s d) (nth i s d) = false.
Proof.
  intros Hij Hj Heq.
  assert (G : forall n, (i + S n <= j)%nat -> ne (nth (i + S n) s d) (nth i s d) = false).
  { induction n as [|n IH]; intros Hn.
    - replace (i + 1)%nat with (S i) by lia. apply (same_id_no_flag s i j i); lia || assumption.
    - apply (ne_trans _ (nth (i + S n) s d)); [|apply IH; lia].
      replace (i + S (S n))%nat with (S (i + S n)) by lia.
      apply (same_id_no_flag s i j (i + S n)); lia || assumption. }
  replace j with (i + S (j - i - 1))%nat by lia. apply G. lia.
Qed.

(** Every number from 1 to the id of a row is the id of that row or of a
    row above it. *)
Lemma ids_without_gap s i v :
  (i < List.length s)%nat -> 1 <= v <= nth i (change_ids ne s) 0 ->
  exists k, (k <= i)%nat /\ nth k (change_ids ne s) 0 = v.
Proof.
  induction i as [|i IH]; intros Hi Hv.
  - rewrite (change_ids_first ne d) in Hv by assumption. exists 0%nat. split; [lia|].
    rewrite (change_ids_first ne d) by assumption. lia.
  - destruct (Z.eq_dec v (nth (S i) (change_ids ne s) 0)) as [->|Hne].
    + exists (S i). split; [lia | reflexivity].
    + rewrite (change_ids_step ne d) in Hv, Hne by assumption.
      destruct (IH ltac:(lia)) as (k & Hk & Hkv).
      { destruct (ne _ _); simpl in *; lia. }
      exists k. split; [lia | exact Hkv].
Qed.

End Runs.

Lemma cell_ne_trans a b c : cell_ne a b = false -> cell_ne b c = false -> cell_ne a c = false.
Proof.
  destruct a as [x|s], b as [y|t], c as [z|u]; simpl; try discriminate.
  - rewrite !negb_false_iff. apply float_eqb_trans.
  - rewrite !negb_false_iff, !String.eqb_eq. congruence.
Qed.

Lemma cell_ne_false_notna a b : cell_ne a b = false -> notna a = true /\ notna b = true.
Proof.
  destruct a as [x|s], b as [y|t]; simpl; try discriminate; [|auto].
  rewrite negb_false_iff. intros H.
  rewrite FloatAxioms.eqb_spec in H.
  assert (Hx : PrimFloat.is_nan x = false /\ PrimFloat.is_nan y = false).
  { split.
    - destruct (PrimFloat.is_nan x) eqn:E; [|reflexivity].
      apply FloatFacts.is_nan_spec in E. rewrite E in H. discriminate H.
    - destruct (PrimFloat.is_nan y) eqn:E; [|reflexivity].
      apply FloatFacts.is_nan_spec in E. rewrite E in H.
      destruct (Prim2SF x); discriminate H. }
  destruct Hx as [-> ->]. auto.
Qed.

(** X1.  Two rows of a spreadsheet column that get the same run id hold
    equal values, and neither of them is missing; two neighbouring rows with
    different ids hold values that differ (or one of them is missing). *)
Theorem rows_of_one_run_hold_equal_values :
  forall (s : list cell) (i j : nat),
    (i < j)%nat -> (j < List.length s)%nat ->
    let ids := change_ids cell_ne s in
    let value k := nth k s (Num PrimFloat.nan) in
    (nth i ids 0 = nth j ids 0 ->
       cell_ne (value j) (value i) = false
       /\ notna (value i) = true /\ notna (value j) = true)
    /\ (j = S i -> nth i ids 0 <> nth j ids 0 -> cell_ne (value j) (value i) = true).
Proof.
  intros s i j Hij Hj ids value. split.
  - intros Heq.
    pose proof (same_id_same_value cell_ne (Num PrimFloat.nan) cell_ne_trans s i j Hij Hj Heq) as H.
    split; [exact H|]. apply cell_ne_false_notna in H. tauto.
  - intros -> Hne. unfold ids in Hne.
    rewrite (change_ids_step cell_ne (Num PrimFloat.nan)) in Hne by assumption.
    unfold value. destruct (cell_ne _ _); [reflexivity | simpl in Hne; lia].
Qed.

Lemma rows_of_one_run_hold_equal_values_witness :
  let s := [Str "up"; Str "up"; Str "down"]%string in
  cell_ne (nth 1 s (Num PrimFloat.nan)) (nth 0 s (Num PrimFloat.nan)) = false
  /\ notna (nth 0 s (Num PrimFloat.nan)) = true /\ notna (nth 1 s (Num PrimFloat.nan)) = true.
Proof.
  intros s.
  apply (proj1 (rows_of_one_run_hold_equal_values s 0 1 ltac:(lia) ltac:(simpl; lia))).
  reflexivity.
Defined.

(** X2.  The run ids of a column are exactly the whole numbers from 1 to
    the number of runs: no id is skipped and none lies outside. *)
Theorem run_ids_are_one_to_run_count :
  forall (A : Type) (ne : A -> A -> bool) (s : list A) (v : Z),
    In v (change_ids ne s) <-> 1 <= v <= run_count (change_ids ne s).
Proof.
  intros A ne s v. unfold run_count. rewrite last_as_nth, change_ids_length.
  destruct s as [|d r] eqn:Es.
  - simpl. split; [tauto | lia].
  - rewrite <- Es. assert (Hlen : (0 < List.length s)%nat) by (subst s; simpl; lia).
    clear Es r. split.
    + intros Hin. apply (In_nth _ _ 0) in Hin. destruct Hin as (n & Hn & <-).
      rewrite change_ids_length in Hn.
      pose proof (change_ids_bound ne d s n Hn).
      pose proof (change_ids_mono ne d s n (List.length s - 1) ltac:(lia) ltac:(lia)). lia.
    + intros Hv.
      destruct (ids_without_gap ne d s (List.length s - 1) v ltac:(lia) Hv) as (k & Hk & <-).
      apply nth_In. rewrite change_ids_length. lia.
Qed.

End RunFacts.

(** * The column steps and their composition *)

Module PipelineFacts.
Import Dvs FrameFacts NormaliserFacts.

Lemma columns_set label c df :
  columns (set_column label c df)
  = if has_column label df then columns df else columns df ++ [label].
Proof.
  unfold has_column, columns. induction df as [|[l c'] rest IH]; simpl; [reflexivity|].
  destruct (String.eqb label l) eqn:E; simpl; [reflexivity|]. rewrite IH.
  destruct (existsb _ _); reflexivity.
Qed.

Lemma get_dropped label df df' :
  drop_column label df = Ok df' -> get_column label df' = None.
Proof.
  unfold drop_column. destruct (has_column label df); [|discriminate].
  intros [= <-]. induction df as [|[l c] rest IH]; simpl; [reflexivity|].
  destruct (String.eqb label l) eqn:E; simpl; [exact IH | now rewrite E].
Qed.


(** Whatever the grouping and the target hold: what a successful call
    leaves in the frame. *)
Lemma normalised_frame df grouping target new df' :
  add_normalised_column df grouping target new = Ok df' ->
  exists keys t d,
    get_column grouping df = Some keys /\ get_column target df = Some t
    /\ column_sub t (transform_first keys t) = Ok d
    /\ get_column (new ++ " NEW") df' = Some d
    /\ get_column (target ++ "_at_change") df' = None
    /\ (forall label, label <> (new ++ " NEW")%string -> label <> (target ++ "_at_change")%string ->
          get_column label df' = get_column label df).
Proof.
  unfold add_normalised_column, getitem, groupby_getitem.
  destruct (get_column grouping df) as [keys|] eqn:Hg; [|discriminate].
  destruct (get_column target df) as [t|] eqn:Ht; [|discriminate]. cbn [bind].
  set (tmp := (target ++ "_at_change")%string).
  rewrite get_set_other by (intros E; symmetry in E; now apply temporary_label_fresh in E).
  rewrite Ht, get_set_same. cbn [bind].
  destruct (column_sub t (transform_first keys t)) as [d|e] eqn:Hd; [|discriminate]. cbn [bind].
  intros Hdrop. exists keys, t, d.
  split; [reflexivity|]. split; [reflexivity|]. split; [exact Hd|].
  split.
  { rewrite (get_after_drop _ _ _ _ (new_label_not_temporary new target) Hdrop).
    apply get_set_same. }
  split; [exact (get_dropped _ _ _ Hdrop)|].
  intros label H1 H2.
  rewrite (get_after_drop _ _ _ _ H2 Hdrop), get_set_other by assumption.
  now apply get_set_other.
Qed.

Lemma normalised_numeric_frame df grouping target new ids xs :
  get_column grouping df = Some (Int64 ids) ->
  get_column target df = Some (Values (map Num xs)) ->
  exists df',
    add_normalised_column df grouping target new = Ok df'
    /\ get_column (new ++ " NEW") df' = Some (Values (map Num (normalised_by ids xs)))
    /\ get_column (target ++ "_at_change") df' = None
    /\ (forall label, label <> (new ++ " NEW")%string -> label <> (target ++ "_at_change")%string ->
          get_column label df' = get_column label df).
Proof.
  intros Hg Ht. destruct (normalised_by_run_id df grouping target new ids xs Hg Ht) as (df' & Hok & Hnew).
  exists df'. split; [exact Hok|]. split; [exact Hnew|].
  destruct (normalised_frame _ _ _ _ _ Hok) as (_ & _ & _ & _ & _ & _ & _ & Htmp & Hrest).
  split; assumption.
Qed.


Lemma mapM_raise {A B} (f : A -> Result B) (e0 : exn) (l : list A) :
  (forall x e, f x = Raise e -> e = e0) ->
  (exists x, In x l /\ f x = Raise e0) ->
  mapM f l = Raise e0.
Proof.
  intros Honly. induction l as [|a l IH]; intros (x & Hin & Hx); [destruct Hin|].
  cbn [mapM]. destruct (f a) as [b|e] eqn:Ea; cbn [bind].
  - destruct Hin as [->|Hin]; [congruence|].
    rewrite IH by (exists x; auto). reflexivity.
  - now rewrite (Honly _ _ Ea).
Qed.





Section Anchors.
Context {K : Type}.
Variable same : K -> K -> bool.
Variable dropped : K -> bool.
Hypothesis same_refl : forall k, dropped k = false -> same k k = true.
Hypothesis same_present : forall k' k, same k' k = true -> dropped k' = false.






End Anchors.







Lemma columns_filter (p : string -> bool) (df : DataFrame) :
  columns (filter (fun lc => p (fst lc)) df) = filter p (columns df).
Proof.
  unfold columns. induction df as [|[l c] rest IH]; simpl; [reflexivity|].
  destruct (p l); simpl; now rewrite IH.
Qed.

Lemma filter_app_fresh (p : string -> bool) (l : list string) (x : string) :
  p x = true -> filter p (l ++ [x]) = filter p l ++ [x].
Proof. intros H. rewrite filter_app. simpl. now rewrite H. Qed.

(** X5.  After a successful [add_normalised_column] the frame has no
    column labelled [<target>_at_change], also when the sheet came with a
    column of that label; the labels are the old ones without that one, in
    their order, with [<new> NEW] added at the end unless it was there; and
    every column other than these two is unchanged. *)
Theorem normalised_column_labels :
  forall df grouping target new df',
    add_normalised_column df grouping target new = Ok df' ->
    let temporary := (target ++ "_at_change")%string in
    let kept := filter (fun label => negb (String.eqb temporary label)) (columns df) in
    columns df' = (if has_column (new ++ " NEW") df then kept else kept ++ [(new ++ " NEW")%string])
    /\ get_column temporary df' = None
    /\ (forall label, label <> (new ++ " NEW")%string -> label <> temporary ->
          get_column label df' = get_column label df).
Proof.
  intros df grouping target new df' Hok temporary kept.
  destruct (normalised_frame _ _ _ _ _ Hok) as (keys & t & d & Hg & Ht & Hd & _ & Htmp & Hrest).
  split; [|split; assumption].
  revert Hok. unfold add_normalised_column, getitem, groupby_getitem. rewrite Hg, Ht. cbn [bind].
  rewrite get_set_other by (intros E; symmetry in E; now apply temporary_label_fresh in E).
  rewrite Ht, get_set_same. cbn [bind]. rewrite Hd. cbn [bind].
  fold temporary. unfold drop_column. destruct (has_column temporary _); [|discriminate].
  intros [= <-].
  rewrite (columns_filter (fun label => negb (String.eqb temporary label))).
  rewrite !columns_set.
  assert (Hfresh : negb (String.eqb temporary (new ++ " NEW")) = true).
  { apply negb_true_iff, String.eqb_neq. intros E. symmetry in E.
    now apply new_label_not_temporary in E. }
  assert (Hsame : has_column (new ++ " NEW") (set_column temporary (transform_first keys t) df)
                  = has_column (new ++ " NEW") df).
  { destruct (has_column (new ++ " NEW") df) eqn:E.
    - apply has_column_get. apply has_column_get in E. destruct E as [c E]. exists c.
      rewrite get_set_other; [exact E|]. apply new_label_not_temporary.
    - destruct (has_column (new ++ " NEW") (set_column _ _ df)) eqn:E'; [|reflexivity].
      apply has_column_get in E'. destruct E' as [c E'].
      rewrite get_set_other in E' by apply new_label_not_temporary.
      assert (has_column (new ++ " NEW") df = true) by (apply has_column_get; now exists c).
      congruence. }
  rewrite Hsame.
  assert (Hkept : filter (fun label => negb (String.eqb temporary label))
                    (if has_column temporary df then columns df else columns df ++ [temporary])
                  = kept).
  { destruct (has_column temporary df); [reflexivity|].
    rewrite filter_app. simpl. rewrite String.eqb_refl. simpl. apply app_nil_r. }
  destruct (has_column (new ++ " NEW") df).
  - exact Hkept.
  - rewrite filter_app_fresh by exact Hfresh. now rewrite Hkept.
Qed.

Lemma normalised_column_labels_witness :
  let df := [("Run", Int64 [1; 1; 2]); ("Time_at_change", Values [Str "old"]);
             ("Time", Values [Num 1; Num 3; Num 7])]%string in
  let df' := [("Run", Int64 [1; 1; 2]); ("Time", Values [Num 1; Num 3; Num 7]);
              ("Normalised NEW", Values [Num 0; Num 2; Num 0])]%string in
  add_normalised_column df "Run" "Time" "Normalised" = Ok df'
  /\ columns df' = ["Run"; "Time"; "Normalised NEW"]%string
  /\ get_column "Time_at_change" df' = None.
Proof.
  intros df df'. split; [reflexivity|].
  destruct (normalised_column_labels df "Run" "Time" "Normalised" df' eq_refl) as (H1 & H2 & _).
  split; [exact H1 | exact H2].
Defined.

Ltac differ := let E := fresh in intros E; discriminate E.

Ltac fresh_label H :=
  let E := fresh in intros E; apply H; rewrite E; simpl; tauto.

(** What [add_pressure_change_columns] leaves in the frame. *)
Lemma pressure_change_columns_frame df pressure c ts ms :
  get_column pressure df = Some c ->
  get_column "Time [minutes]" df = Some (Values (map Num ts)) ->
  get_column "Moisture content %" df = Some (Values (map Num ms)) ->
  exists df',
    add_pressure_change_columns df pressure = Ok df'
    /\ get_column "Normalised time (Individual RH Steps) NEW" df'
       = Some (Values (map Num (normalised_by (column_change c) ts)))
    /\ get_column "Normalised moisture content per RH step NEW" df'
       = Some (Values (map Num (normalised_by (column_change c) ms)))
    /\ (forall label,
          In label ["Pressure Change"; "Time [minutes]_at_change";
                    "Moisture content %_at_change"]%string ->
          get_column label df' = None)
    /\ (forall label,
          ~ In label ["Pressure Change"; "Time [minutes]_at_change";
                      "Moisture content %_at_change";
                      "Normalised time (Individual RH Steps) NEW";
                      "Normalised moisture content per RH step NEW"]%string ->
          get_column label df' = get_column label df).
Proof.
  intros Hp Ht Hm. unfold add_pressure_change_columns.
  destruct (change_column_added df pressure "Pressure Change" c Hp) as (df1 & -> & Hid1 & Hrest1).
  cbn [bind].
  destruct (normalised_numeric_frame df1 "Pressure Change" "Time [minutes]"
              "Normalised time (Individual RH Steps)" (column_change c) ts Hid1)
    as (df2 & -> & Hnew2 & Htmp2 & Hrest2).
  { rewrite Hrest1 by differ. exact Ht. }
  cbn [bind].
  destruct (normalised_numeric_frame df2 "Pressure Change" "Moisture content %"
              "Normalised moisture content per RH step" (column_change c) ms)
    as (df3 & -> & Hnew3 & Htmp3 & Hrest3).
  { rewrite Hrest2 by differ. exact Hid1. }
  { rewrite Hrest2, Hrest1 by differ. exact Hm. }
  cbn [bind].
  assert (Hid3 : get_column "Pressure Change" df3 = Some (Int64 (column_change c))).
  { rewrite Hrest3, Hrest2 by differ. exact Hid1. }
  destruct (drop_column "Pressure Change" df3) as [df4|e] eqn:Hdrop4.
  2:{ unfold drop_column in Hdrop4.
      assert (H : has_column "Pressure Change" df3 = true) by (apply has_column_get; eauto).
      rewrite H in Hdrop4. discriminate. }
  assert (Hrest4 : forall label, label <> "Pressure Change"%string ->
                                 get_column label df4 = get_column label df3).
  { intros label Hl. exact (get_after_drop _ _ _ _ Hl Hdrop4). }
  cbn [append] in *.
  exists df4. split; [reflexivity|].
  split. { rewrite Hrest4, Hrest3 by differ. exact Hnew2. }
  split. { rewrite Hrest4 by differ. exact Hnew3. }
  split.
  - intros label [<-|[<-|[<-|[]]]].
    + exact (get_dropped _ _ _ Hdrop4).
    + rewrite Hrest4, Hrest3 by differ. exact Htmp2.
    + rewrite Hrest4 by differ. exact Htmp3.
  - intros label Hl.
    rewrite Hrest4, Hrest3, Hrest2, Hrest1 by fresh_label Hl. reflexivity.
Qed.

(** What [add_direction_change_columns] leaves in the frame. *)
Lemma direction_change_columns_frame df d ts :
  get_column "RH Direction" df = Some d ->
  get_column "Time [minutes]" df = Some (Values (map Num ts)) ->
  exists df',
    add_direction_change_columns df = Ok df'
    /\ get_column "Normalised time (up vs down RH ramps) NEW" df'
       = Some (Values (map Num (normalised_by (column_change d) ts)))
    /\ (forall label,
          In label ["Direction Change"; "Time [minutes]_at_change"]%string ->
          get_column label df' = None)
    /\ (forall label,
          ~ In label ["Direction Change"; "Time [minutes]_at_change";
                      "Normalised time (up vs down RH ramps) NEW"]%string ->
          get_column label df' = get_column label df).
Proof.
  intros Hd Ht. unfold add_direction_change_columns.
  destruct (change_column_added df "RH Direction" "Direction Change" d Hd)
    as (df1 & -> & Hid1 & Hrest1).
  cbn [bind].
  destruct (normalised_numeric_frame df1 "Direction Change" "Time [minutes]"
              "Normalised time (up vs down RH ramps)" (column_change d) ts Hid1)
    as (df2 & -> & Hnew2 & Htmp2 & Hrest2).
  { rewrite Hrest1 by differ. exact Ht. }
  cbn [bind].
  assert (Hid2 : get_column "Direction Change" df2 = Some (Int64 (column_change d))).
  { rewrite Hrest2 by differ. exact Hid1. }
  destruct (drop_column "Direction Change" df2) as [df3|e] eqn:Hdrop3.
  2:{ unfold drop_column in Hdrop3.
      assert (H : has_column "Direction Change" df2 = true) by (apply has_column_get; eauto).
      rewrite H in Hdrop3. discriminate. }
  assert (Hrest3 : forall label, label <> "Direction Change"%string ->
                                 get_column label df3 = get_column label df2).
  { intros label Hl. exact (get_after_drop _ _ _ _ Hl Hdrop3). }
  cbn [append] in *.
  exists df3. split; [reflexivity|].
  split. { rewrite Hrest3 by differ. exact Hnew2. }
  split.
  - intros label [<-|[<-|[]]].
    + exact (get_dropped _ _ _ Hdrop3).
    + rewrite Hrest3 by differ. exact Htmp2.
  - intros label Hl.
    rewrite Hrest3, Hrest2, Hrest1 by fresh_label Hl. reflexivity.
Qed.




End PipelineFacts.

(** * The check and the loop over the sheets *)

Module WorkbookFacts.
Import Dvs FrameFacts CheckerFacts PipelineFacts.

(** The failing column is the first one of the list that is unusable. *)
Lemma check_columns_first_failure df needed log :
  check_columns df needed = Ok (false, log) ->
  exists before c after,
    needed = before ++ c :: after
    /\ (forall b, In b before -> exists col, get_column b df = Some col /\ has_value col)
    /\ (log
        = [match get_column c df with
           | None => msg_does_not_exist c
           | Some _ => msg_full_of_nan c
           end])
    /\ (forall col, get_column c df = Some col -> ~ has_value col).
Proof.
  induction needed as [|c rest IH]; cbn [check_columns]; [discriminate|].
  destruct (get_column c df) as [col|] eqn:G.
  - destruct (is_repeated c df); [discriminate|].
    destruct (any_notna col) eqn:N; cbn [negb].
    + intros H. destruct (IH H) as (before & c' & after & -> & Hb & Hlog & Hc').
      exists (c :: before), c', after. split; [reflexivity|]. split; [|split; assumption].
      intros b [<-|Hin]; [|now apply Hb]. exists col. split; [exact G | now apply any_notna_spec].
    + intros [= <-]. exists [], c, rest. split; [reflexivity|]. split; [intros b []|].
      rewrite G. split; [reflexivity|]. intros col' [= <-] V.
      apply any_notna_spec in V. congruence.
  - intros [= <-]. exists [], c, rest. split; [reflexivity|]. split; [intros b []|].
    rewrite G. split; [reflexivity | discriminate].
Qed.

(** The check raises at the first needed label that stands more than once,
    when the needed columns before it are usable. *)
Lemma check_columns_first_repeated df needed e :
  check_columns df needed = Raise e ->
  exists before c after,
    needed = before ++ c :: after
    /\ (forall b, In b before -> exists col, get_column b df = Some col /\ has_value col)
    /\ is_repeated c df = true.
Proof.
  induction needed as [|c rest IH]; cbn [check_columns]; [discriminate|].
  destruct (get_column c df) as [col|] eqn:G; [|discriminate].
  destruct (is_repeated c df) eqn:R.
  - intros _. exists [], c, rest. split; [reflexivity|]. split; [intros b [] | exact R].
  - destruct (any_notna col) eqn:N; cbn [negb]; [|discriminate].
    intros H. destruct (IH H) as (before & c' & after & -> & Hb & Hc').
    exists (c :: before), c', after. split; [reflexivity|]. split; [|exact Hc'].
    intros b [<-|Hin]; [|now apply Hb]. exists col. split; [exact G | now apply any_notna_spec].
Qed.

(** X7.  When the check passes, nothing is logged.  When it fails, one
    line is logged, about the first of the needed columns (time, moisture,
    direction, pressure, in this order) that is missing or holds no value:
    the needed columns before it are all usable.  When it raises, the
    needed columns before the first repeated needed label are all usable. *)
Theorem check_reports_first_unusable_column :
  forall (df : DataFrame) (p : string),
    (forall log, check_for_needed_columns df p = Ok (true, log) -> log = [])
    /\ (forall log, check_for_needed_columns df p = Ok (false, log) ->
        exists before c after,
          needed_columns p = before ++ c :: after
          /\ (forall b, In b before -> exists col, get_column b df = Some col /\ has_value col)
          /\ (log
              = [match get_column c df with
                 | None => msg_does_not_exist c
                 | Some _ => msg_full_of_nan c
                 end])
          /\ (forall col, get_column c df = Some col -> ~ has_value col))
    /\ (forall e, check_for_needed_columns df p = Raise e ->
        exists before c after,
          needed_columns p = before ++ c :: after
          /\ (forall b, In b before -> exists col, get_column b df = Some col /\ has_value col)
          /\ is_repeated c df = true).
Proof.
  intros df p. unfold check_for_needed_columns. split; [|split].
  - intros log. apply check_columns_quiet.
  - intros log. apply check_columns_first_failure.
  - intros e. apply check_columns_first_repeated.
Qed.

Lemma check_reports_first_unusable_column_witness :
  check_for_needed_columns
    [("Time [minutes]", Values [Num 0; Num 1]);
     ("RH Direction", Values [Num PrimFloat.nan; Num PrimFloat.nan])]%string
    "Target Partial Pressure (Solvent A) [%]"
  = Ok (false, [msg_does_not_exist "Moisture content %"])
  /\ exists before c after,
       needed_columns "Target Partial Pressure (Solvent A) [%]" = before ++ c :: after
       /\ (forall b, In b before ->
             exists col,
               get_column b [("Time [minutes]", Values [Num 0; Num 1]);
                             ("RH Direction", Values [Num PrimFloat.nan; Num PrimFloat.nan])]%string
               = Some col /\ has_value col)
       /\ c = "Moisture content %"%string.
Proof.
  split; [reflexivity|].
  destruct (proj1 (proj2 (check_reports_first_unusable_column
                     [("Time [minutes]", Values [Num 0; Num 1]);
                      ("RH Direction", Values [Num PrimFloat.nan; Num PrimFloat.nan])]%string
                     "Target Partial Pressure (Solvent A) [%]"))
              [msg_does_not_exist "Moisture content %"] eq_refl)
    as (before & c & after & Hsplit & Hbefore & Hlog & _).
  exists before, c, after. split; [exact Hsplit|]. split; [exact Hbefore|].
  destruct before as [|b0 before].
  - simpl in Hsplit. injection Hsplit as <- _. simpl in Hlog. discriminate Hlog.
  - simpl in Hsplit. injection Hsplit as <- Hsplit.
    destruct before as [|b1 before].
    + simpl in Hsplit. now injection Hsplit as <- _.
    + simpl in Hsplit. injection Hsplit as <- _.
      destruct (Hbefore "Moisture content %"%string ltac:(simpl; auto)) as (col & G & _).
      discriminate G.
Defined.

(** A frame whose needed column [p] is absent or holds no value never
    passes the check, and with distinct labels the check answers [False]. *)
Lemma unusable_column_fails df p :
  (forall col, get_column p df = Some col -> ~ has_value col) ->
  (forall log, check_for_needed_columns df p <> Ok (true, log))
  /\ (NoDup (columns df) -> exists log, check_for_needed_columns df p = Ok (false, log)).
Proof.
  intros Hp.
  assert (Hnever : forall log, check_for_needed_columns df p <> Ok (true, log)).
  { intros log E. unfold check_for_needed_columns in E.
    pose proof (check_columns_quiet _ _ _ E) as ->.
    apply check_columns_pass with (c := p) in E; [|simpl; tauto].
    destruct E as (_ & col & G & V). now elim (Hp col G). }
  split; [exact Hnever|]. intros Hdistinct.
  destruct (check_columns_answers df (needed_columns p) Hdistinct) as (ok & log & E).
  exists log. destruct ok; [|exact E]. now elim (Hnever log).
Qed.

(** X8.  [solvent_a_or_b] answers the Solvent A label whenever the frame
    has that column, the Solvent B label when it has B and not A, and the
    text [Target Partial Pressure (Solvent A or B)] when it has neither.
    So a sheet whose Solvent A column holds no value never passes the check
    whatever its Solvent B column holds, and neither does a sheet with
    neither column unless it has a column labelled with that text; when the
    labels of the sheet are distinct, the check answers [False] there. *)
Theorem solvent_a_is_preferred :
  forall (df : DataFrame),
    (forall col, get_column (pressure_solvent "A") df = Some col ->
       solvent_a_or_b df = pressure_solvent "A"
       /\ (~ has_value col ->
           (forall log, check_for_needed_columns df (solvent_a_or_b df) <> Ok (true, log))
           /\ (NoDup (columns df) ->
               exists log, check_for_needed_columns df (solvent_a_or_b df) = Ok (false, log))))
    /\ (get_column (pressure_solvent "A") df = None ->
        forall col, get_column (pressure_solvent "B") df = Some col ->
          solvent_a_or_b df = pressure_solvent "B")
    /\ (get_column (pressure_solvent "A") df = None ->
        get_column (pressure_solvent "B") df = None ->
        solvent_a_or_b df = "Target Partial Pressure (Solvent A or B)"%string
        /\ (get_column "Target Partial Pressure (Solvent A or B)" df = None ->
            (forall log, check_for_needed_columns df (solvent_a_or_b df) <> Ok (true, log))
            /\ (NoDup (columns df) ->
                exists log, check_for_needed_columns df (solvent_a_or_b df) = Ok (false, log)))).
Proof.
  intros df. unfold solvent_a_or_b. cbn [first_present].
  split; [|split].
  - intros col G.
    assert (H : has_column (pressure_solvent "A") df = true) by (apply has_column_get; eauto).
    rewrite H. split; [reflexivity|]. intros V. apply unusable_column_fails.
    intros col' G'. congruence.
  - intros GA col GB.
    destruct (has_column (pressure_solvent "A") df) eqn:HA.
    { apply has_column_get in HA. destruct HA as [c HA]. congruence. }
    assert (H : has_column (pressure_solvent "B") df = true) by (apply has_column_get; eauto).
    now rewrite H.
  - intros GA GB.
    destruct (has_column (pressure_solvent "A") df) eqn:HA.
    { apply has_column_get in HA. destruct HA as [c HA]. congruence. }
    destruct (has_column (pressure_solvent "B") df) eqn:HB.
    { apply has_column_get in HB. destruct HB as [c HB]. congruence. }
    split; [reflexivity|]. intros G. apply unusable_column_fails. intros col G'. congruence.
Qed.

Lemma solvent_a_is_preferred_witness :
  exists log,
    check_for_needed_columns
      [("Time [minutes]", Values [Num 0]); ("Moisture content %", Values [Num 1]);
       ("RH Direction", Values [Str "Up"]);
       ("Target Partial Pressure (Solvent B) [%]", Values [Num 10]);
       ("Target Partial Pressure (Solvent A) [%]", Values [Num PrimFloat.nan])]%string
      (solvent_a_or_b
         [("Time [minutes]", Values [Num 0]); ("Moisture content %", Values [Num 1]);
          ("RH Direction", Values [Str "Up"]);
          ("Target Partial Pressure (Solvent B) [%]", Values [Num 10]);
          ("Target Partial Pressure (Solvent A) [%]", Values [Num PrimFloat.nan])]%string)
    = Ok (false, log).
Proof.
  apply (proj2 (proj1 (solvent_a_is_preferred
                  [("Time [minutes]", Values [Num 0]); ("Moisture content %", Values [Num 1]);
                   ("RH Direction", Values [Str "Up"]);
                   ("Target Partial Pressure (Solvent B) [%]", Values [Num 10]);
                   ("Target Partial Pressure (Solvent A) [%]",
                    Values [Num PrimFloat.nan])]%string)
                 (Values [Num PrimFloat.nan]) eq_refl)).
  - intros (v & [<-|[]] & Hv). discriminate Hv.
  - repeat constructor; simpl; intuition discriminate.
Defined.

Section Sheets.
Variable is_unnamed_sheet : string -> bool.
Variable strip : string -> string.
Variable to_numeric : column -> column.

(** What a sheet does to the written workbook: it is skipped, or it is
    computed and put before the sheets of the rest, or its check raises and
    the run ends there. *)
Lemma sheet_cases s :
  (is_skipped is_unnamed_sheet strip s = true
   /\ is_processed is_unnamed_sheet strip s = false
   /\ forall rest,
        snd (process_sheets is_unnamed_sheet strip to_numeric (s :: rest))
        = snd (process_sheets is_unnamed_sheet strip to_numeric rest))
  \/ (is_skipped is_unnamed_sheet strip s = false
      /\ is_processed is_unnamed_sheet strip s = true
      /\ forall rest,
           snd (process_sheets is_unnamed_sheet strip to_numeric (s :: rest))
           = match computed strip to_numeric s with
             | Raise e => Raise e
             | Ok df => w <- snd (process_sheets is_unnamed_sheet strip to_numeric rest) ;;
                        Ok ((fst s, df) :: w)
             end)
  \/ (is_skipped is_unnamed_sheet strip s = false
      /\ is_processed is_unnamed_sheet strip s = false
      /\ is_unnamed_sheet (fst s) = false
      /\ exists e,
           check_for_needed_columns (strip_columns strip (snd s))
             (solvent_a_or_b (strip_columns strip (snd s))) = Raise e
           /\ forall rest,
                snd (process_sheets is_unnamed_sheet strip to_numeric (s :: rest)) = Raise e).
Proof.
  destruct s as [sheet df]. unfold is_skipped, is_processed, computed.
  cbn [process_sheets fst snd].
  destruct (is_unnamed_sheet sheet) eqn:U.
  - left. split; [reflexivity|]. split; [reflexivity|]. intros rest.
    now destruct (process_sheets is_unnamed_sheet strip to_numeric rest).
  - cbn [negb andb orb].
    destruct (check_for_needed_columns _ _) as [[ok errors]|e].
    + destruct ok; cbn [negb].
      * right. left. split; [reflexivity|]. split; [reflexivity|]. intros rest.
        destruct (calculate_and_add_columns _ _); [|reflexivity].
        now destruct (process_sheets is_unnamed_sheet strip to_numeric rest).
      * left. split; [reflexivity|]. split; [reflexivity|]. intros rest.
        now destruct (process_sheets is_unnamed_sheet strip to_numeric rest).
    + right. right. split; [reflexivity|]. split; [reflexivity|]. split; [reflexivity|].
      exists e. split; reflexivity.
Qed.

Lemma written_sheets src w :
  process_spreadsheet is_unnamed_sheet strip to_numeric src = Ok w ->
  Forall2 (fun s o => fst o = fst s /\ computed strip to_numeric s = Ok (snd o))
    (filter (is_processed is_unnamed_sheet strip) src) w.
Proof.
  unfold process_spreadsheet. revert w.
  induction src as [|s rest IH]; intros w.
  - simpl. intros [= <-]. constructor.
  - cbn [filter].
    destruct (sheet_cases s) as [(_ & -> & E)|[(_ & -> & E)|(_ & _ & _ & e & _ & E)]];
      rewrite E.
    + apply IH.
    + destruct (computed strip to_numeric s) as [df|e] eqn:Ec; [|discriminate].
      destruct (snd (process_sheets is_unnamed_sheet strip to_numeric rest)) as [w'|e];
        [|discriminate].
      cbn [bind]. intros [= <-]. constructor; [split; [reflexivity | exact Ec] | now apply IH].
    + discriminate.
Qed.

Lemma all_computed src :
  (forall s, In s src -> is_unnamed_sheet (fst s) = false ->
             exists ok log,
               check_for_needed_columns (strip_columns strip (snd s))
                 (solvent_a_or_b (strip_columns strip (snd s))) = Ok (ok, log)) ->
  (forall s, In s src -> is_processed is_unnamed_sheet strip s = true ->
             exists df, computed strip to_numeric s = Ok df) ->
  exists w, process_spreadsheet is_unnamed_sheet strip to_numeric src = Ok w.
Proof.
  unfold process_spreadsheet.
  induction src as [|s0 rest IH]; intros Hans H; [now exists []|].
  destruct IH as [w Hw];
    [intros s Hin; apply Hans; now right | intros s Hin; apply H; now right|].
  destruct (sheet_cases s0) as [(_ & _ & E)|[(_ & P & E)|(_ & _ & U & e & C & _)]].
  - rewrite E. now exists w.
  - rewrite E, Hw. destruct (H s0 (or_introl eq_refl) P) as [df ->]. cbn [bind]. eauto.
  - destruct (Hans s0 (or_introl eq_refl) U) as (ok & log & C'). congruence.
Qed.

Lemma get_column_apply_to_numeric label df :
  get_column label (apply_to_numeric to_numeric df) = option_map to_numeric (get_column label df).
Proof.
  induction df as [|[l c] rest IH]; simpl; [reflexivity|].
  destruct (String.eqb label l); [reflexivity | exact IH].
Qed.

(** A sheet that passed the check and whose time and moisture columns are
    numbers after the conversion is computed without an exception. *)
Lemma checked_numeric_sheet s :
  is_processed is_unnamed_sheet strip s = true ->
  (forall label, In label ["Time [minutes]"; "Moisture content %"]%string ->
     forall col, get_column label (strip_columns strip (snd s)) = Some col ->
       exists xs, to_numeric col = Values (map Num xs)) ->
  exists df, computed strip to_numeric s = Ok df.
Proof.
  intros Hp Hnum. unfold is_processed in Hp. apply andb_true_iff in Hp. destruct Hp as [_ Hc].
  set (df := strip_columns strip (snd s)) in *.
  destruct (check_for_needed_columns df (solvent_a_or_b df)) as [[ok log]|e] eqn:E;
    [|discriminate]. subst ok.
  unfold check_for_needed_columns in E.
  pose proof (check_columns_quiet _ _ _ E) as ->.
  pose proof (proj1 (check_columns_pass df _) E) as Hcols.
  destruct (Hcols "Time [minutes]"%string ltac:(simpl; auto)) as (_ & ct & Gt & _).
  destruct (Hcols "Moisture content %"%string ltac:(simpl; auto)) as (_ & cm & Gm & _).
  destruct (Hcols "RH Direction"%string ltac:(simpl; auto)) as (_ & cd & Gd & _).
  destruct (Hcols (solvent_a_or_b df) ltac:(simpl; auto)) as (_ & cp & Gp & _).
  destruct (Hnum "Time [minutes]"%string ltac:(simpl; auto) ct Gt) as (ts & Ets).
  destruct (Hnum "Moisture content %"%string ltac:(simpl; auto) cm Gm) as (ms & Ems).
  unfold computed, calculate_and_add_columns. fold df.
  destruct (pressure_change_columns_frame (apply_to_numeric to_numeric df) (solvent_a_or_b df)
              (to_numeric cp) ts ms) as (df1 & -> & _ & _ & _ & Hrest1).
  - now rewrite get_column_apply_to_numeric, Gp.
  - rewrite get_column_apply_to_numeric, Gt. simpl. now rewrite Ets.
  - rewrite get_column_apply_to_numeric, Gm. simpl. now rewrite Ems.
  - cbn [bind].
    destruct (direction_change_columns_frame df1 (to_numeric cd) ts) as (df2 & -> & _).
    + rewrite Hrest1 by (simpl; intros [E'|[E'|[E'|[E'|[E'|[]]]]]]; discriminate E').
      now rewrite get_column_apply_to_numeric, Gd.
    + rewrite Hrest1 by (simpl; intros [E'|[E'|[E'|[E'|[E'|[]]]]]]; discriminate E').
      rewrite get_column_apply_to_numeric, Gt. simpl. now rewrite Ets.
    + now exists df2.
Qed.

End Sheets.

Lemma names_of_written {A B} (R : string * A -> string * B -> Prop) l l' :
  (forall s o, R s o -> fst o = fst s) -> Forall2 R l l' -> map fst l' = map fst l.
Proof.
  intros HR F. induction F as [|s o l l' H _ IH]; [reflexivity|].
  simpl. now rewrite (HR _ _ H), IH.
Qed.

(** X9.  The outcome of [process_spreadsheet] is its outcome on the
    sheets that are not skipped: sheets with an unnamed sheet's name and
    sheets on which the check answers [False] have no influence on it,
    wherever they stand, also when another sheet raises.  A sheet on which
    the check raises is not skipped: it ends the run. *)
Theorem skipped_sheets_do_not_matter :
  forall (is_unnamed_sheet : string -> bool) (strip : string -> string)
         (to_numeric : column -> column) (src_workbook : list (string * DataFrame)),
    process_spreadsheet is_unnamed_sheet strip to_numeric src_workbook
    = process_spreadsheet is_unnamed_sheet strip to_numeric
        (filter (fun s => negb (is_skipped is_unnamed_sheet strip s)) src_workbook).
Proof.
  intros is_unnamed_sheet strip to_numeric src. unfold process_spreadsheet.
  induction src as [|s rest IH]; [reflexivity|].
  cbn [filter].
  destruct (sheet_cases is_unnamed_sheet strip to_numeric s)
    as [(-> & _ & E)|[(-> & _ & E)|(-> & _ & _ & e & _ & E)]]; cbn [negb].
  - rewrite E. exact IH.
  - rewrite !E, IH. reflexivity.
  - rewrite !E. reflexivity.
Qed.

(** X10.  When [process_spreadsheet] returns, the written workbook holds
    one sheet for every source sheet that is not skipped, in the order of
    the source and under the same name, and the sheet is what
    [calculate_and_add_columns] makes of the stripped and converted source
    sheet. *)
Theorem written_workbook_is_the_processed_sheets :
  forall (is_unnamed_sheet : string -> bool) (strip : string -> string)
         (to_numeric : column -> column) (src_workbook written : list (string * DataFrame)),
    process_spreadsheet is_unnamed_sheet strip to_numeric src_workbook = Ok written ->
    map fst written = map fst (filter (is_processed is_unnamed_sheet strip) src_workbook)
    /\ Forall2 (fun s o => fst o = fst s /\ computed strip to_numeric s = Ok (snd o))
         (filter (is_processed is_unnamed_sheet strip) src_workbook) written.
Proof.
  intros is_unnamed_sheet strip to_numeric src w H.
  pose proof (written_sheets _ _ _ _ _ H) as F. split; [|exact F].
  apply (names_of_written _ _ _ (fun s o H => proj1 H) F).
Qed.

Lemma written_workbook_is_the_processed_sheets_witness :
  exists written,
    process_spreadsheet (String.eqb "Sheet1") (fun label => label) (fun c => c)
      [("Sheet1", []);
       ("Run 1",
        [("Time [minutes]", Values [Num 0; Num 5]);
         ("Moisture content %", Values [Num 1; Num 1.5]);
         ("RH Direction", Values [Str "Up"; Str "Up"]);
         ("Target Partial Pressure (Solvent A) [%]", Values [Num 0; Num 0])])]%string
    = Ok written
    /\ map fst written = ["Run 1"%string].
Proof.
  eexists. split; [reflexivity|].
  exact (proj1 (written_workbook_is_the_processed_sheets
                  (String.eqb "Sheet1") (fun label => label) (fun c => c)
                  [("Sheet1", []);
                   ("Run 1",
                    [("Time [minutes]", Values [Num 0; Num 5]);
                     ("Moisture content %", Values [Num 1; Num 1.5]);
                     ("RH Direction", Values [Str "Up"; Str "Up"]);
                     ("Target Partial Pressure (Solvent A) [%]",
                      Values [Num 0; Num 0])])]%string
                  _ eq_refl)).
Defined.

(** X11.  One sheet that is not skipped and on which
    [calculate_and_add_columns] raises ends the whole run with an
    exception, whatever the other sheets are. *)
Theorem one_failing_sheet_ends_the_run :
  forall (is_unnamed_sheet : string -> bool) (strip : string -> string)
         (to_numeric : column -> column) (src_workbook : list (string * DataFrame))
         (s : string * DataFrame) (e : exn),
    In s src_workbook ->
    is_processed is_unnamed_sheet strip s = true ->
    computed strip to_numeric s = Raise e ->
    exists e', process_spreadsheet is_unnamed_sheet strip to_numeric src_workbook = Raise e'.
Proof.
  intros is_unnamed_sheet strip to_numeric src s e. unfold process_spreadsheet.
  induction src as [|s0 rest IH]; intros Hin Hp Hc; [destruct Hin|].
  destruct (sheet_cases is_unnamed_sheet strip to_numeric s0)
    as [(_ & P & E)|[(_ & P & E)|(_ & _ & _ & e0 & _ & E)]]; rewrite E.
  - destruct Hin as [->|Hin]; [congruence | now apply IH].
  - destruct Hin as [->|Hin].
    + rewrite Hc. now exists e.
    + destruct (IH Hin Hp Hc) as [e' ->].
      destruct (computed strip to_numeric s0) as [df|e1]; [now exists e' | now exists e1].
  - now exists e0.
Qed.

Lemma one_failing_sheet_ends_the_run_witness :
  exists e',
    process_spreadsheet (String.eqb "Sheet1") (fun label => label) (fun c => c)
      [("Run 1",
        [("Time [minutes]", Values [Num 0; Num 5]);
         ("Moisture content %", Values [Num 1; Num 1.5]);
         ("RH Direction", Values [Str "Up"; Str "Up"]);
         ("Target Partial Pressure (Solvent A) [%]", Values [Num 0; Num 0])]);
       ("Run 2",
        [("Time [minutes]", Values [Num 0; Str "five"]);
         ("Moisture content %", Values [Num 1; Num 1.5]);
         ("RH Direction", Values [Str "Up"; Str "Up"]);
         ("Target Partial Pressure (Solvent A) [%]", Values [Num 0; Num 0])])]%string
    = Raise e'.
Proof.
  apply (one_failing_sheet_ends_the_run
           (String.eqb "Sheet1") (fun label => label) (fun c => c) _
           ("Run 2",
            [("Time [minutes]", Values [Num 0; Str "five"]);
             ("Moisture content %", Values [Num 1; Num 1.5]);
             ("RH Direction", Values [Str "Up"; Str "Up"]);
             ("Target Partial Pressure (Solvent A) [%]", Values [Num 0; Num 0])])%string
           TypeError).
  - right. left. reflexivity.
  - reflexivity.
  - reflexivity.
Defined.

(** X12.  If the labels of every named sheet are distinct once stripped,
    and in every sheet that is not skipped the time and the moisture column
    are numeric after the conversion, the run ends without an exception and
    writes the sheets that are not skipped, all of them, in order. *)
Theorem numeric_workbook_is_written_completely :
  forall (is_unnamed_sheet : string -> bool) (strip : string -> string)
         (to_numeric : column -> column) (src_workbook : list (string * DataFrame)),
    (forall s, In s src_workbook -> is_unnamed_sheet (fst s) = false ->
               NoDup (columns (strip_columns strip (snd s)))) ->
    (forall s label col,
       In s src_workbook -> is_processed is_unnamed_sheet strip s = true ->
       In label ["Time [minutes]"; "Moisture content %"]%string ->
       get_column label (strip_columns strip (snd s)) = Some col ->
       exists xs, to_numeric col = Values (map Num xs)) ->
    exists written,
      process_spreadsheet is_unnamed_sheet strip to_numeric src_workbook = Ok written
      /\ map fst written
         = map fst (filter (is_processed is_unnamed_sheet strip) src_workbook).
Proof.
  intros is_unnamed_sheet strip to_numeric src Hdistinct Hnum.
  destruct (all_computed is_unnamed_sheet strip to_numeric src) as [w Hw].
  { intros s Hin U. apply check_columns_answers. now apply Hdistinct. }
  { intros s Hin Hp. apply (checked_numeric_sheet is_unnamed_sheet); [exact Hp|].
    intros label Hl col G. exact (Hnum s label col Hin Hp Hl G). }
  exists w. split; [exact Hw|].
  apply (names_of_written _ _ _ (fun s o H => proj1 H) (written_sheets _ _ _ _ _ Hw)).
Qed.

Lemma numeric_workbook_is_written_completely_witness :
  exists written,
    process_spreadsheet (String.eqb "Sheet1") (fun label => label) (fun c => c)
      [("Sheet1", [("Time [minutes]", Values [Str "n/a"])]);
       ("Run 1",
        [("Time [minutes]", Values [Num 0; Num 5]);
         ("Moisture content %", Values [Num 1; Num 1.5]);
         ("RH Direction", Values [Str "Up"; Str "Up"]);
         ("Target Partial Pressure (Solvent A) [%]", Values [Num 0; Num 0])])]%string
    = Ok written
    /\ map fst written = ["Run 1"%string].
Proof.
  apply (numeric_workbook_is_written_completely
           (String.eqb "Sheet1") (fun label => label) (fun c => c)
           [("Sheet1", [("Time [minutes]", Values [Str "n/a"])]);
            ("Run 1",
             [("Time [minutes]", Values [Num 0; Num 5]);
              ("Moisture content %", Values [Num 1; Num 1.5]);
              ("RH Direction", Values [Str "Up"; Str "Up"]);
              ("Target Partial Pressure (Solvent A) [%]", Values [Num 0; Num 0])])]%string).
  - intros s [<-|[<-|[]]] U; [discriminate U|].
    repeat constructor; simpl; intuition discriminate.
  - intros s label col [<-|[<-|[]]] Hp [<-|[<-|[]]] G;
      try discriminate Hp; vm_compute in G; injection G as <-.
    + now exists [0; 5]%float.
    + now exists [1; 1.5]%float.
Defined.

End WorkbookFacts.

(** * File names of masks *)

Module ScanFacts.
Import MaskArea.

Lemma mask_group_some s mask :
  mask_group s = Some mask ->
  exists d rest, s = ("_mask" ++ String d rest)%string /\ is_digit d = true
                 /\ mask = digits_prefix (String d rest).
Proof.
  unfold mask_group.
  destruct s as [|c0 s]; [discriminate|].
  destruct (Ascii.eqb_spec c0 "_"); [subst c0 | destruct c0 as [[] [] [] [] [] [] [] []]; try discriminate; congruence].
  destruct s as [|c1 s]; [discriminate|].
  destruct (Ascii.eqb_spec c1 "m"); [subst c1 | destruct c1 as [[] [] [] [] [] [] [] []]; try discriminate; congruence].
  destruct s as [|c2 s]; [discriminate|].
  destruct (Ascii.eqb_spec c2 "a"); [subst c2 | destruct c2 as [[] [] [] [] [] [] [] []]; try discriminate; congruence].
  destruct s as [|c3 s]; [discriminate|].
  destruct (Ascii.eqb_spec c3 "s"); [subst c3 | destruct c3 as [[] [] [] [] [] [] [] []]; try discriminate; congruence].
  destruct s as [|c4 s]; [discriminate|].
  destruct (Ascii.eqb_spec c4 "k"); [subst c4 | destruct c4 as [[] [] [] [] [] [] [] []]; try discriminate; congruence].
  destruct s as [|d rest]; [discriminate|].
  cbn [digits_prefix]. destruct (is_digit d) eqn:Ed; [|discriminate].
  intros [= <-]. exists d, rest. now rewrite Ed.
Qed.

Lemma mask_group_digit d rest :
  is_digit d = true ->
  mask_group ("_mask" ++ String d rest) = Some (digits_prefix (String d rest)).
Proof. intros H. cbn. now rewrite H. Qed.


Lemma first_match_unfold name :
  first_match name
  = match match_here name with
    | Some groups => Some groups
    | None => match name with EmptyString => None | String _ r => first_match r end
    end.
Proof. destruct name; reflexivity. Qed.

Lemma match_here_cons c r :
  match_here (String c r)
  = if Ascii.eqb c newline then None
    else match match_here r with
         | Some (grid, mask) => Some (String c grid, mask)
         | None => option_map (fun mask => (String c EmptyString, mask)) (mask_group r)
         end.
Proof. reflexivity. Qed.

(** What a match at the start of [s] looks like. *)
Lemma match_here_some s grid mask :
  match_here s = Some (grid, mask) ->
  exists g c d rest,
    grid = (g ++ String c EmptyString)%string
    /\ s = (g ++ String c ("_mask" ++ String d rest))%string
    /\ c <> newline /\ is_digit d = true
    /\ mask = digits_prefix (String d rest)
    /\ all_chars (not_newline) grid = true.
Proof.
  revert grid mask. induction s as [|c r IH]; intros grid mask; [discriminate|].
  cbn [match_here]. destruct (Ascii.eqb_spec c newline) as [|Hc]; [discriminate|].
  destruct (match_here r) as [[g' m']|] eqn:Er.
  - intros [= <- <-].
    destruct (IH g' m' eq_refl) as (g & c' & d & rest & -> & -> & Hc' & Hd & Hm & Hall).
    exists (String c g), c', d, rest. repeat split; try assumption.
    cbn [all_chars append]. rewrite Hall. unfold not_newline.
    destruct (Ascii.eqb_spec c newline); [contradiction | reflexivity].
  - destruct (mask_group r) as [m|] eqn:Em; [|discriminate].
    intros [= <- <-]. apply mask_group_some in Em.
    destruct Em as (d & rest & -> & Hd & Hm).
    exists EmptyString, c, d, rest. repeat split; try assumption.
    cbn [all_chars]. unfold not_newline.
    destruct (Ascii.eqb_spec c newline); [contradiction | reflexivity].
Qed.

Lemma match_here_at c d rest :
  c <> newline -> is_digit d = true ->
  match_here (String c ("_mask" ++ String d rest)) <> None.
Proof.
  intros Hc Hd. cbn [match_here].
  destruct (Ascii.eqb_spec c newline); [contradiction|].
  destruct (match_here _) as [[g m]|]; [discriminate|].
  rewrite (mask_group_digit d rest Hd). discriminate.
Qed.

Lemma first_match_app pre t :
  match_here t <> None -> first_match (pre ++ t) <> None.
Proof.
  intros Ht. induction pre as [|x pre IH].
  - simpl. rewrite first_match_unfold. destruct (match_here t); [discriminate | contradiction].
  - change (String x pre ++ t)%string with (String x (pre ++ t)).
    rewrite first_match_unfold.
    destruct (match_here (String x (pre ++ t))); [discriminate | exact IH].
Qed.

Lemma first_match_some name groups :
  first_match name = Some groups ->
  exists pre t, name = (pre ++ t)%string /\ match_here t = Some groups.
Proof.
  induction name as [|x r IH]; [discriminate|].
  rewrite first_match_unfold. destruct (match_here (String x r)) as [g|] eqn:E.
  - intros [= <-]. now exists EmptyString, (String x r).
  - intros H. destruct (IH H) as (pre & t & -> & Ht). now exists (String x pre), t.
Qed.

Lemma append_assoc (a b c : string) : ((a ++ b) ++ c = a ++ (b ++ c))%string.
Proof. induction a as [|x a IH]; simpl; [reflexivity | now rewrite IH]. Qed.

(** X13.  A file name has a match of [(.+)_mask([0-9]+)], so that
    [matches[0]] does not raise [IndexError], exactly when somewhere in it
    [_mask] stands before a digit and after a character that is not a
    newline; a name that starts with [_mask] and has no second one is
    refused. *)
Theorem file_name_matches_iff :
  forall name : string,
    (exists grid mask, first_match name = Some (grid, mask))
    <-> (exists pre c d rest,
           name = (pre ++ String c ("_mask" ++ String d rest))%string
           /\ c <> newline /\ is_digit d = true).
Proof.
  intros name. split.
  - intros (grid & mask & H).
    destruct (first_match_some _ _ H) as (pre & t & -> & Ht).
    destruct (match_here_some _ _ _ Ht) as (g & c & d & rest & _ & -> & Hc & Hd & _).
    exists (pre ++ g)%string, c, d, rest. split; [|split; assumption].
    now rewrite append_assoc.
  - intros (pre & c & d & rest & -> & Hc & Hd).
    pose proof (first_match_app pre _ (match_here_at c d rest Hc Hd)) as H.
    destruct (first_match _) as [[g m]|]; [now exists g, m | contradiction].
Qed.

Lemma digits_prefix_app ds rest :
  all_chars is_digit ds = true -> digits_prefix rest = EmptyString ->
  digits_prefix (ds ++ rest) = ds.
Proof.
  intros Hds Hrest. induction ds as [|d ds IH]; [exact Hrest|].
  cbn [all_chars] in Hds. apply andb_true_iff in Hds. destruct Hds as [Hd Hds].
  cbn [append digits_prefix]. now rewrite Hd, IH.
Qed.

Lemma match_here_no_underscore t :
  all_chars not_underscore t = true -> match_here t = None.
Proof.
  induction t as [|x t IH]; [reflexivity|].
  cbn [all_chars]. intros H. apply andb_true_iff in H. destruct H as [_ Ht].
  cbn [match_here]. destruct (Ascii.eqb x newline); [reflexivity|].
  rewrite (IH Ht). destruct t as [|y t']; [reflexivity|].
  cbn [all_chars] in Ht. apply andb_true_iff in Ht. destruct Ht as [Hy _].
  unfold not_underscore in Hy. apply negb_true_iff in Hy.
  unfold mask_group. destruct (Ascii.eqb_spec y "_") as [->|Hne]; [discriminate|].
  destruct y as [[] [] [] [] [] [] [] []]; try reflexivity. congruence.
Qed.

Lemma all_chars_app p a b :
  all_chars p (a ++ b) = all_chars p a && all_chars p b.
Proof. induction a as [|x a IH]; simpl; [reflexivity | now rewrite IH, andb_assoc]. Qed.

Lemma digit_not_underscore ds :
  all_chars is_digit ds = true -> all_chars not_underscore ds = true.
Proof.
  induction ds as [|d ds IH]; [reflexivity|]. cbn [all_chars].
  intros H. apply andb_true_iff in H. destruct H as [Hd Hds]. rewrite (IH Hds), andb_true_r.
  unfold not_underscore. destruct (Ascii.eqb_spec d "_") as [->|]; [discriminate | reflexivity].
Qed.

Lemma match_here_named grid ds rest :
  grid <> EmptyString ->
  all_chars (not_newline) grid = true ->
  ds <> EmptyString -> all_chars is_digit ds = true ->
  digits_prefix rest = EmptyString -> all_chars not_underscore rest = true ->
  match_here (grid ++ "_mask" ++ ds ++ rest) = Some (grid, ds).
Proof.
  intros Hg Hnl Hds Hdig Hrest Hund.
  assert (Htail : match_here ("_mask" ++ ds ++ rest) = None).
  { change ("_mask" ++ ds ++ rest)%string with (String "_" ("mask" ++ ds ++ rest)).
    rewrite match_here_cons. change (Ascii.eqb "_" newline) with false. cbv iota.
    assert (E : match_here ("mask" ++ ds ++ rest) = None).
    { apply match_here_no_underscore. cbn [append all_chars].
      change (not_underscore "m") with true. change (not_underscore "a") with true.
      change (not_underscore "s") with true. change (not_underscore "k") with true.
      cbn [andb]. rewrite all_chars_app, Hund, (digit_not_underscore ds Hdig). reflexivity. }
    rewrite E. reflexivity. }
  assert (Hgroup : mask_group ("_mask" ++ ds ++ rest) = Some ds).
  { destruct ds as [|d ds']; [now elim Hds|].
    pose proof Hdig as Hdig'. cbn [all_chars] in Hdig'. apply andb_true_iff in Hdig'.
    change ("_mask" ++ String d ds' ++ rest)%string with ("_mask" ++ String d (ds' ++ rest))%string.
    rewrite (mask_group_digit d _ (proj1 Hdig')).
    change (String d (ds' ++ rest)) with (String d ds' ++ rest)%string.
    now rewrite digits_prefix_app. }
  induction grid as [|c g IH]; [now elim Hg|].
  cbn [all_chars] in Hnl. apply andb_true_iff in Hnl. destruct Hnl as [Hc Hnl].
  unfold not_newline in Hc. apply negb_true_iff in Hc.
  change (String c g ++ "_mask" ++ ds ++ rest)%string
    with (String c (g ++ "_mask" ++ ds ++ rest))%string.
  rewrite match_here_cons, Hc.
  destruct g as [|c' g'].
  - change (EmptyString ++ "_mask" ++ ds ++ rest)%string with ("_mask" ++ ds ++ rest)%string.
    rewrite Htail, Hgroup. reflexivity.
  - rewrite IH by (discriminate || assumption). reflexivity.
Qed.

(** X14.  For a file named [<grid>_mask<digits><rest>], where the grid
    is not empty and has no newline and the rest has no underscore and
    does not start with a digit (as [.jpg]), the two groups are the grid
    and the digits: the greedy [.+] runs up to the last [_mask], so the
    grid may itself hold [_mask1]. *)
Theorem named_file_gives_grid_and_mask :
  forall grid ds rest : string,
    grid <> EmptyString ->
    all_chars (not_newline) grid = true ->
    ds <> EmptyString -> all_chars is_digit ds = true ->
    digits_prefix rest = EmptyString -> all_chars not_underscore rest = true ->
    first_match (grid ++ "_mask" ++ ds ++ rest) = Some (grid, ds).
Proof.
  intros. rewrite first_match_unfold, match_here_named by assumption. reflexivity.
Qed.

Lemma named_file_gives_grid_and_mask_witness :
  first_match ("a1_mask1" ++ "_mask" ++ "12" ++ ".jpg") = Some ("a1_mask1", "12")%string.
Proof.
  apply named_file_gives_grid_and_mask; (discriminate || reflexivity).
Defined.

End ScanFacts.

(** * The records of a subdirectory *)

Module CollectFacts.
Import MaskArea ScanFacts.

Lemma digits_prefix_digits s : all_chars is_digit (digits_prefix s) = true.
Proof.
  induction s as [|c r IH]; [reflexivity|]. cbn [digits_prefix].
  destruct (is_digit c) eqn:E; [|reflexivity]. cbn [all_chars]. now rewrite E, IH.
Qed.

Lemma int_from_nonneg s acc :
  all_chars is_digit s = true -> 0 <= acc -> 0 <= int_from acc s.
Proof.
  revert acc. induction s as [|c r IH]; intros acc Hs Hacc; [exact Hacc|].
  cbn [all_chars] in Hs. apply andb_true_iff in Hs. destruct Hs as [Hc Hr].
  cbn [int_from]. apply IH; [exact Hr|].
  unfold is_digit in Hc. apply andb_true_iff in Hc. destruct Hc as [Hlo _].
  apply Nat.leb_le in Hlo. unfold digit_value. lia.
Qed.

Lemma mask_group_is_number name grid mask :
  first_match name = Some (grid, mask) -> 0 <= int mask.
Proof.
  intros H. destruct (first_match_some _ _ H) as (pre & t & _ & Ht).
  destruct (match_here_some _ _ _ Ht) as (g & c & d & rest & _ & _ & _ & _ & -> & _).
  apply int_from_nonneg; [apply digits_prefix_digits | lia].
Qed.

(** A file that cannot be decoded has no white pixel: its area is 0. *)
Lemma unreadable_image_area : get_mask_area None = Ok 0%float.
Proof. reflexivity. Qed.

(** The area recorded for an image, readable or not, is not negative. *)
Lemma recorded_area_not_negative (image : option raster) :
  (forall decoded, image = Some decoded -> countNonZero decoded < 2 ^ 63) ->
  exists area, get_mask_area image = Ok area /\ PrimFloat.leb 0 area = true.
Proof.
  destruct image as [decoded|]; intros H.
  - apply AreaFacts.get_mask_area_not_negative. now apply H.
  - exists 0%float. split; reflexivity.
Qed.

(** The areas the loop collects are areas of masks. *)
Lemma collect_areas image_paths : forall data,
  (forall name image, In (name, Some image) image_paths -> countNonZero image < 2 ^ 63) ->
  collect image_paths = inr data ->
  forall r, In r data -> PrimFloat.leb 0 (Area r) = true.
Proof.
  induction image_paths as [|[name image] rest IH]; intros data Hsize.
  - intros [= <-] r [].
  - assert (Hrest : forall n i, In (n, Some i) rest -> countNonZero i < 2 ^ 63)
      by (intros n i Hin; apply (Hsize n i); now right).
    cbn [collect]. destruct (first_match name) as [[grid mask]|]; [|discriminate].
    destruct ((int mask =? 0) || (int mask =? 1)); [now apply IH|].
    destruct (recorded_area_not_negative image) as (area & Ea & Hpos).
    { intros decoded ->. apply (Hsize name). now left. }
    rewrite Ea. destruct (collect rest) as [e|data']; [discriminate|].
    intros [= <-] r [<-|Hr]; [exact Hpos | now apply (IH data' Hrest)].
Qed.

(** The loop goes through when every file name has a match. *)
Lemma collect_answers image_paths :
  (forall name image, In (name, image) image_paths ->
     exists grid mask, first_match name = Some (grid, mask)) ->
  exists data, collect image_paths = inr data.
Proof.
  induction image_paths as [|[name image] rest IH]; intros H; [now exists []|].
  cbn [collect].
  destruct (H name image (or_introl eq_refl)) as (grid & mask & ->).
  destruct (IH (fun n i Hin => H n i (or_intror Hin))) as [data' ->].
  destruct ((int mask =? 0) || (int mask =? 1)); [now exists data'|].
  cbn [get_mask_area]. eauto.
Qed.

(** Every image whose mask number is neither 0 nor 1 gives a record. *)
Lemma collect_records_every_mask image_paths : forall data,
  collect image_paths = inr data ->
  forall name image grid mask area,
    In (name, image) image_paths -> first_match name = Some (grid, mask) ->
    int mask <> 0 -> int mask <> 1 -> get_mask_area image = Ok area ->
    In {| Grid := grid; Mask := int mask; Area := area |} data.
Proof.
  induction image_paths as [|[name0 image0] rest IH]; intros data Hc name image grid mask area;
    [intros []|].
  cbn [collect] in Hc.
  destruct (first_match name0) as [[grid0 mask0]|] eqn:Em; [|discriminate].
  intros [[= -> ->]|Hin] Hm N0 N1 Ha.
  - rewrite Em in Hm. injection Hm as -> ->.
    apply Z.eqb_neq in N0, N1. rewrite N0, N1 in Hc. cbn [orb] in Hc.
    rewrite Ha in Hc. destruct (collect rest) as [e|data']; [discriminate|].
    injection Hc as <-. now left.
  - destruct ((int mask0 =? 0) || (int mask0 =? 1)).
    + exact (IH data Hc name image grid mask area Hin Hm N0 N1 Ha).
    + destruct (get_mask_area image0); [|discriminate].
      destruct (collect rest) as [e|data'] eqn:Er; [discriminate|].
      injection Hc as <-. right.
      exact (IH data' eq_refl name image grid mask area Hin Hm N0 N1 Ha).
Qed.

(** X15.  Every record the loop over the images collects has a mask
    number of at least 2 and an area that is not negative, and comes from
    an image whose file name gives its grid and its mask number; there are
    at most as many records as images.  Every image whose mask number is
    neither 0 nor 1 gives a record, readable or not: the record of a file
    that cannot be decoded has area 0. *)
Theorem collected_records :
  forall (image_paths : list (string * option raster)) (data : list image_data),
    (forall name image, In (name, Some image) image_paths -> countNonZero image < 2 ^ 63) ->
    collect image_paths = inr data ->
    (List.length data <= List.length image_paths)%nat
    /\ (forall r, In r data ->
          2 <= Mask r
          /\ PrimFloat.leb 0 (Area r) = true
          /\ exists name image mask,
               In (name, image) image_paths
               /\ first_match name = Some (Grid r, mask)
               /\ Mask r = int mask
               /\ get_mask_area image = Ok (Area r))
    /\ (forall name image grid mask area,
          In (name, image) image_paths -> first_match name = Some (grid, mask) ->
          int mask <> 0 -> int mask <> 1 -> get_mask_area image = Ok area ->
          In {| Grid := grid; Mask := int mask; Area := area |} data)
    /\ (forall name grid mask,
          In (name, None) image_paths -> first_match name = Some (grid, mask) ->
          int mask <> 0 -> int mask <> 1 ->
          In {| Grid := grid; Mask := int mask; Area := 0 |} data).
Proof.
  intros image_paths data Hsize Hcollect.
  assert (Hall := collect_records_every_mask image_paths data Hcollect).
  split; [|split; [|split; [exact Hall|]]].
  3: { intros name grid mask Hin Hm N0 N1.
       exact (Hall name None grid mask 0%float Hin Hm N0 N1 unreadable_image_area). }
  all: clear Hall; revert data Hsize Hcollect;
    induction image_paths as [|[name image] rest IH]; intros data Hsize.
  - intros [= <-]. simpl. lia.
  - cbn [collect]. destruct (first_match name) as [[grid mask]|]; [|discriminate].
    assert (Hrest : forall n i, In (n, Some i) rest -> countNonZero i < 2 ^ 63)
      by (intros n i Hin; apply (Hsize n i); now right).
    destruct ((int mask =? 0) || (int mask =? 1)).
    + intros H. pose proof (IH data Hrest H). simpl. lia.
    + destruct (get_mask_area image); [|discriminate].
      destruct (collect rest) as [e|data']; [discriminate|].
      intros [= <-]. pose proof (IH data' Hrest eq_refl). simpl. lia.
  - intros [= <-] r [].
  - cbn [collect]. destruct (first_match name) as [[grid mask]|] eqn:Em; [|discriminate].
    assert (Hrest : forall n i, In (n, Some i) rest -> countNonZero i < 2 ^ 63)
      by (intros n i Hin; apply (Hsize n i); now right).
    destruct ((int mask =? 0) || (int mask =? 1)) eqn:Eskip.
    + intros H r Hr. destruct (IH data Hrest H r Hr) as (H2 & Ha & n & i & m & Hin & Hrest').
      split; [exact H2|]. split; [exact Ha|]. exists n, i, m. split; [now right | exact Hrest'].
    + destruct (recorded_area_not_negative image) as (area & Ea & Hpos).
      { intros decoded ->. apply (Hsize name). now left. }
      rewrite Ea. destruct (collect rest) as [e|data'] eqn:Er; [discriminate|].
      intros [= <-] r [<-|Hr].
      * cbn [Mask Area Grid]. split.
        -- pose proof (mask_group_is_number _ _ _ Em).
           apply orb_false_iff in Eskip. destruct Eskip as [E0 E1].
           apply Z.eqb_neq in E0, E1. lia.
        -- split; [exact Hpos|]. exists name, image, mask.
           split; [now left|]. split; [exact Em|]. split; [reflexivity | exact Ea].
      * destruct (IH data' Hrest eq_refl r Hr) as (H2 & Ha & n & i & m & Hin & Hrest').
        split; [exact H2|]. split; [exact Ha|]. exists n, i, m. split; [now right | exact Hrest'].
Qed.

Lemma collected_records_witness :
  collect [("a1_mask2.jpg"%string, Some [[Byte.xff; Byte.x00]]);
           ("a1_mask0.jpg"%string, None);
           ("b2_mask3.jpg"%string, None)]
  = inr [ {| Grid := "a1"; Mask := 2;
             Area := (area_of_pixel * float_of_count 1 * 1000)%float |};
          {| Grid := "b2"; Mask := 3; Area := 0 |} ]
  /\ In {| Grid := "b2"; Mask := int "3"; Area := 0 |}
        [ {| Grid := "a1"; Mask := 2;
             Area := (area_of_pixel * float_of_count 1 * 1000)%float |};
          {| Grid := "b2"; Mask := 3; Area := 0 |} ].
Proof.
  split; [reflexivity|].
  destruct (collected_records
              [("a1_mask2.jpg"%string, Some [[Byte.xff; Byte.x00]]);
               ("a1_mask0.jpg"%string, None);
               ("b2_mask3.jpg"%string, None)]
              [ {| Grid := "a1"; Mask := 2;
                   Area := (area_of_pixel * float_of_count 1 * 1000)%float |};
                {| Grid := "b2"; Mask := 3; Area := 0 |} ])
    as (_ & _ & _ & H).
  - intros name image [[= <- <-]|[[=]|[[=]|[]]]]. vm_compute. reflexivity.
  - reflexivity.
  - apply (H "b2_mask3.jpg"%string "b2"%string "3"%string).
    + right. right. left. reflexivity.
    + reflexivity.
    + discriminate.
    + discriminate.
Defined.

(** X16.  The loop over the images ends without an exception exactly
    when every file name has a match, whether the images can be read or
    not; otherwise it ends with the [IndexError] of [matches[0]]. *)
Theorem collect_succeeds_iff :
  forall image_paths : list (string * option raster),
    ((exists data, collect image_paths = inr data)
     <-> (forall name image, In (name, image) image_paths ->
            exists grid mask, first_match name = Some (grid, mask)))
    /\ ((exists data, collect image_paths = inr data)
        \/ collect image_paths = inl IndexError).
Proof.
  intros image_paths. split.
  - split; [|apply collect_answers].
    induction image_paths as [|[name image] rest IH]; [intros _ name image []|].
    cbn [collect]. intros [data H] n i [[= <- <-]|Hin].
    + destruct (first_match name) as [[grid mask]|]; [|discriminate]. eauto.
    + assert (IH' : forall n i, (exists data, collect rest = inr data) -> In (n, i) rest ->
                      exists grid mask, first_match n = Some (grid, mask))
        by (intros n' i' Hd Hin'; exact (IH Hd n' i' Hin')).
      apply (IH' n i); [|exact Hin].
      destruct (first_match name) as [[grid mask]|]; [|discriminate].
      destruct ((int mask =? 0) || (int mask =? 1)); [now exists data|].
      destruct (get_mask_area image); [|discriminate].
      destruct (collect rest) as [e|data']; [discriminate | now exists data'].
  - induction image_paths as [|[name image] rest IH]; [left; now exists []|].
    cbn [collect]. destruct (first_match name) as [[grid mask]|]; [|now right].
    destruct ((int mask =? 0) || (int mask =? 1)); [exact IH|].
    cbn [get_mask_area]. destruct IH as [[data' ->]| ->]; [left; eauto | now right].
Qed.

End CollectFacts.

(** * The CSVs of a subdirectory *)

Module SubdirectoryFacts.
Import MaskArea ScanFacts CollectFacts.

Section Run.
Variable sort_values : list string -> list image_data -> list image_data.

Lemma save_written exists_already images_df sort_by output_csv calculate_percent files :
  save sort_values exists_already images_df sort_by output_csv calculate_percent = Ok files ->
  forall name rows, In (name, rows) files -> name = output_csv /\ exists_already = false.
Proof.
  unfold save. destruct exists_already.
  - intros [= <-] name rows [].
  - destruct (update_and_save_dataframe _ _ _ _) as [r|e]; [|discriminate].
    cbn [bind]. intros [= <-] name rows [[= <- <-]|[]]. split; reflexivity.
Qed.

Lemma flag_off (is_file force_update : bool) :
  is_file && negb force_update = false -> is_file = false \/ force_update = true.
Proof. destruct is_file, force_update; simpl; auto. Qed.

Lemma written_files force_update subdirectory csv_basename grid_is_file full_sort_is_file
    image_paths name rows :
  In (name, rows)
     (snd (fst (subdirectory_csvs sort_values force_update subdirectory csv_basename
                  grid_is_file full_sort_is_file image_paths))) ->
  (name = (csv_basename ++ ".csv")%string /\ (grid_is_file = false \/ force_update = true))
  \/ (name = (csv_basename ++ "_full_sort.csv")%string
      /\ (full_sort_is_file = false \/ force_update = true)).
Proof.
  unfold subdirectory_csvs.
  destruct (grid_is_file && negb force_update && (full_sort_is_file && negb force_update));
    [intros []|].
  destruct image_paths as [|p image_paths]; [intros []|].
  destruct (collect (p :: image_paths)) as [e|images_df]; [intros []|].
  destruct (save sort_values (grid_is_file && negb force_update) _ _ _ _) as [first|e] eqn:E1;
    [|intros []].
  destruct (save sort_values (full_sort_is_file && negb force_update) _ _ _ _) as [second|e] eqn:E2;
    cbn [fst snd]; intros Hin.
  - apply in_app_or in Hin. destruct Hin as [Hin|Hin].
    + left. destruct (save_written _ _ _ _ _ _ E1 _ _ Hin) as [-> Hf].
      split; [reflexivity | now apply flag_off].
    + right. destruct (save_written _ _ _ _ _ _ E2 _ _ Hin) as [-> Hf].
      split; [reflexivity | now apply flag_off].
  - left. destruct (save_written _ _ _ _ _ _ E1 _ _ Hin) as [-> Hf].
    split; [reflexivity | now apply flag_off].
Qed.

Hypothesis sort_values_perm : forall labels t, Permutation (sort_values labels t) t.

Lemma save_runs exists_already images_df sort_by output_csv calculate_percent :
  images_df <> [] ->
  (forall label, In label sort_by -> In label ["Grid"; "Mask"; "Area"]%string) ->
  (forall r, In r images_df -> PrimFloat.leb 0 (Area r) = true) ->
  exists rows,
    save sort_values exists_already images_df sort_by output_csv calculate_percent
    = Ok (if exists_already then [] else [(output_csv, rows)])
    /\ Permutation (map image rows) images_df
    /\ map Percentage_of_Particle rows
       = (if calculate_percent
          then map Some (percentage_of_particle (List.length images_df))
          else map (fun _ => None) images_df).
Proof.
  intros Hne Hlabels Hareas.
  destruct (BuilderFacts.builder_runs sort_values images_df sort_by calculate_percent
              sort_values_perm Hne Hlabels Hareas)
    as (rows & ds & Erun & Eimg & _ & Elen & _ & _ & _ & _ & Epct).
  exists rows. unfold save. rewrite Erun. cbn [bind].
  split; [now destruct exists_already|]. split; [rewrite Eimg; apply sort_values_perm|].
  rewrite Epct, Elen. destruct calculate_percent; [reflexivity|].
  apply BuilderFacts.map_const_length. exact Elen.
Qed.

(** An image whose mask number is neither 0 nor 1 leaves a record. *)
Lemma some_record image_paths data :
  collect image_paths = inr data ->
  (exists name image grid mask,
     In (name, image) image_paths /\ first_match name = Some (grid, mask)
     /\ int mask <> 0 /\ int mask <> 1) ->
  data <> [].
Proof.
  intros Hc (name & image & grid & mask & Hin & Hm & N0 & N1) ->.
  destruct (get_mask_area image) as [area|e] eqn:Ea; [|discriminate Ea].
  exact (collect_records_every_mask image_paths [] Hc name image grid mask area
           Hin Hm N0 N1 Ea).
Qed.

(** X17.  When every file name of a subdirectory has a match and some
    image has a mask number that is neither 0 nor 1, the body of the loop
    collects at least one record, whether the images can be read or not,
    writes the CSVs that are due, the grid-sorted one first, and raises
    nothing; each CSV has the records as its rows, in some order; the
    grid-sorted one has no percentage column and the fully sorted one has
    it. *)
Theorem subdirectory_csvs_are_written :
  forall force_update subdirectory csv_basename grid_is_file full_sort_is_file image_paths,
  (forall name image, In (name, Some image) image_paths -> countNonZero image < 2 ^ 63) ->
  (forall name image, In (name, image) image_paths ->
     exists grid mask, first_match name = Some (grid, mask)) ->
  (exists name image grid mask,
     In (name, image) image_paths /\ first_match name = Some (grid, mask)
     /\ int mask <> 0 /\ int mask <> 1) ->
  grid_is_file && negb force_update && (full_sort_is_file && negb force_update) = false ->
  exists data grid_sorted fully_sorted,
    collect image_paths = inr data
    /\ data <> []
    /\ snd (fst (subdirectory_csvs sort_values force_update subdirectory csv_basename
                   grid_is_file full_sort_is_file image_paths))
       = (if grid_is_file && negb force_update then []
          else [((csv_basename ++ ".csv")%string, grid_sorted)])
         ++ (if full_sort_is_file && negb force_update then []
             else [((csv_basename ++ "_full_sort.csv")%string, fully_sorted)])
    /\ snd (subdirectory_csvs sort_values force_update subdirectory csv_basename
                 grid_is_file full_sort_is_file image_paths) = None
    /\ Permutation (map image grid_sorted) data
    /\ Permutation (map image fully_sorted) data
    /\ map Percentage_of_Particle grid_sorted = map (fun _ => None) data
    /\ map Percentage_of_Particle fully_sorted
       = map Some (percentage_of_particle (List.length data)).
Proof.
  intros force_update subdirectory csv_basename grid_is_file full_sort_is_file
         image_paths Hsize Hnames Hmask Hflags.
  destruct (collect_answers image_paths Hnames) as [data Hcollect].
  pose proof (some_record image_paths data Hcollect Hmask) as Hdata.
  pose proof (collect_areas image_paths data Hsize Hcollect) as Hareas.
  destruct (save_runs (grid_is_file && negb force_update) data ["Grid"; "Area"]%string
              (csv_basename ++ ".csv")%string false Hdata) as (rows1 & E1 & P1 & Q1);
    [simpl; tauto | exact Hareas |].
  destruct (save_runs (full_sort_is_file && negb force_update) data ["Area"%string]
              (csv_basename ++ "_full_sort.csv")%string true Hdata) as (rows2 & E2 & P2 & Q2);
    [simpl; tauto | exact Hareas |].
  exists data, rows1, rows2. split; [exact Hcollect|]. split; [exact Hdata|].
  unfold subdirectory_csvs. rewrite Hflags.
  destruct image_paths as [|p image_paths]; [simpl in Hcollect; congruence|].
  rewrite Hcollect, E1, E2. cbn [fst snd].
  repeat split; assumption.
Qed.

End Run.

Lemma only_skipped_masks image_paths :
  (forall name image, In (name, image) image_paths ->
     exists grid mask, first_match name = Some (grid, mask) /\ (int mask = 0 \/ int mask = 1)) ->
  collect image_paths = inr [].
Proof.
  induction image_paths as [|[name image] rest IH]; intros H; [reflexivity|].
  cbn [collect]. destruct (H name image (or_introl eq_refl)) as (grid & mask & -> & Hm).
  assert (E : (int mask =? 0) || (int mask =? 1) = true)
    by (destruct Hm as [-> | ->]; reflexivity).
  rewrite E. apply IH. intros n i Hin. apply (H n i). now right.
Qed.

(** X18.  A CSV that exists is not written again unless [force_update]
    is set: what is written is the grid-sorted or the fully sorted CSV of
    the subdirectory, and only one that is missing or forced.  When both
    exist and nothing is forced, the subdirectory is skipped with one log
    line and its images are not looked at; a subdirectory without images
    writes nothing and raises nothing. *)
Theorem existing_csvs_are_not_rewritten :
  forall (sort_values : list string -> list image_data -> list image_data)
         (force_update : bool) (subdirectory csv_basename : string)
         (grid_is_file full_sort_is_file : bool)
         (image_paths : list (string * option raster)),
    let run := subdirectory_csvs sort_values force_update subdirectory csv_basename
                 grid_is_file full_sort_is_file image_paths in
    (forall name rows, In (name, rows) (snd (fst run)) ->
       (name = (csv_basename ++ ".csv")%string
        /\ (grid_is_file = false \/ force_update = true))
       \/ (name = (csv_basename ++ "_full_sort.csv")%string
           /\ (full_sort_is_file = false \/ force_update = true)))
    /\ (grid_is_file = true -> full_sort_is_file = true -> force_update = false ->
        run = ([note_subdirectory subdirectory], [], None))
    /\ (image_paths = [] -> snd (fst run) = [] /\ snd run = None).
Proof.
  intros sort_values force_update subdirectory csv_basename grid_is_file full_sort_is_file
         image_paths run.
  split; [intros name rows; apply written_files|]. split.
  - intros -> -> ->. reflexivity.
  - intros ->. unfold run, subdirectory_csvs.
    destruct (grid_is_file && negb force_update && (full_sort_is_file && negb force_update));
      split; reflexivity.
Qed.

Lemma existing_csvs_are_not_rewritten_witness :
  subdirectory_csvs stable_sort_values false "Data/Experiment 1/Before" "experiment1_before"
    true true [("no mask number.jpg"%string, None)]
  = ([note_subdirectory "Data/Experiment 1/Before"], [], None).
Proof.
  apply (existing_csvs_are_not_rewritten stable_sort_values false
           "Data/Experiment 1/Before" "experiment1_before" true true
           [("no mask number.jpg"%string, None)]); reflexivity.
Defined.

(** X19.  A subdirectory that has images, all of them with mask number
    0 or 1 (also written 00 or 01), gives a table without rows and
    columns, on which the builder raises [KeyError]: of [Grid] when the
    grid-sorted CSV is due, of [Area] when only the fully sorted one is.
    No CSV is written. *)
Theorem only_masks_0_and_1_raise_KeyError :
  forall (sort_values : list string -> list image_data -> list image_data)
         (force_update : bool) (subdirectory csv_basename : string)
         (grid_is_file full_sort_is_file : bool)
         (image_paths : list (string * option raster)),
    image_paths <> [] ->
    (forall name image, In (name, image) image_paths ->
       exists grid mask,
         first_match name = Some (grid, mask) /\ (int mask = 0 \/ int mask = 1)) ->
    grid_is_file && negb force_update && (full_sort_is_file && negb force_update) = false ->
    let run := subdirectory_csvs sort_values force_update subdirectory csv_basename
                 grid_is_file full_sort_is_file image_paths in
    snd (fst run) = []
    /\ snd run = Some (Inner (KeyError (if grid_is_file && negb force_update
                                        then "Area" else "Grid"))).
Proof.
  intros sort_values force_update subdirectory csv_basename grid_is_file full_sort_is_file
         image_paths Hne Hmasks Hflags run.
  unfold run, subdirectory_csvs. rewrite Hflags.
  rewrite (only_skipped_masks image_paths Hmasks).
  destruct image_paths as [|p image_paths]; [now elim Hne|].
  destruct (grid_is_file && negb force_update) eqn:Eg.
  - cbn [andb] in Hflags. rewrite Hflags. split; reflexivity.
  - split; reflexivity.
Qed.

Lemma only_masks_0_and_1_raise_KeyError_witness :
  snd (subdirectory_csvs stable_sort_values true "Data/Experiment 1/Before"
         "experiment1_before" true true
         [("a1_mask0.jpg"%string, None); ("a1_mask01.jpg"%string, Some [[Byte.xff]])])
  = Some (Inner (KeyError "Grid")).
Proof.
  apply (only_masks_0_and_1_raise_KeyError stable_sort_values true
           "Data/Experiment 1/Before" "experiment1_before" true true
           [("a1_mask0.jpg"%string, None); ("a1_mask01.jpg"%string, Some [[Byte.xff]])]).
  - discriminate.
  - intros name image [[= <- <-]|[[= <- <-]|[]]].
    + exists "a1"%string, "0"%string. split; [reflexivity | now left].
    + exists "a1"%string, "01"%string. split; [reflexivity | now right].
  - reflexivity.
Defined.

Lemma subdirectory_csvs_are_written_witness :
  exists data grid_sorted fully_sorted,
    collect [("a1_mask1.jpg"%string, None);
             ("a1_mask2.jpg"%string, Some [[Byte.xff; Byte.x00]; [Byte.xff; Byte.xff]]);
             ("b2_mask3.jpg"%string, None)]
    = inr data
    /\ snd (fst (subdirectory_csvs stable_sort_values false "Data/Experiment 1/Before"
                   "experiment1_before" false false
                   [("a1_mask1.jpg"%string, None);
                    ("a1_mask2.jpg"%string, Some [[Byte.xff; Byte.x00]; [Byte.xff; Byte.xff]]);
                    ("b2_mask3.jpg"%string, None)]))
       = [("experiment1_before.csv"%string, grid_sorted);
          ("experiment1_before_full_sort.csv"%string, fully_sorted)]
    /\ List.length data = 2%nat
    /\ List.length grid_sorted = 2%nat /\ List.length fully_sorted = 2%nat.
Proof.
  destruct (subdirectory_csvs_are_written stable_sort_values BuilderFacts.stable_sort_values_perm
              false "Data/Experiment 1/Before" "experiment1_before" false false
              [("a1_mask1.jpg"%string, None);
               ("a1_mask2.jpg"%string, Some [[Byte.xff; Byte.x00]; [Byte.xff; Byte.xff]]);
               ("b2_mask3.jpg"%string, None)])
    as (data & grid_sorted & fully_sorted & Hc & _ & Hw & _ & P1 & P2 & _).
  - intros name image [[=]|[[= <- <-]|[[=]|[]]]]; vm_compute; reflexivity.
  - intros name image [[= <- <-]|[[= <- <-]|[[= <- <-]|[]]]].
    + exists "a1"%string, "1"%string. reflexivity.
    + exists "a1"%string, "2"%string. reflexivity.
    + exists "b2"%string, "3"%string. reflexivity.
  - exists "b2_mask3.jpg"%string, None, "b2"%string, "3"%string.
    split; [right; right; left; reflexivity|]. split; [reflexivity|]. split; discriminate.
  - reflexivity.
  - exists data, grid_sorted, fully_sorted. split; [exact Hc|]. split; [exact Hw|].
    apply Permutation_length in P1, P2. rewrite length_map in P1, P2.
    injection Hc as <-. cbn [List.length] in *. now repeat split.
Defined.

End SubdirectoryFacts.

(** * The area of a mask as a real number *)

Module AccuracyFacts.
Import MaskArea RoundingFacts RealFacts PercentFacts.

(** The exponent of a rounded product. *)
Lemma SFmul_exponent m1 e1 m2 e2 m' e' :
  2 ^ 52 <= Zpos m1 < 2 ^ 53 -> 2 ^ 52 <= Zpos m2 < 2 ^ 53 ->
  -1074 <= e1 + e2 -> e1 + e2 + 106 <= 1023 ->
  SFmul prec emax (S754_finite false m1 e1) (S754_finite false m2 e2) = S754_finite false m' e' ->
  e1 + e2 <= e' <= e1 + e2 + 54.
Proof.
  intros H1 H2 Hlo Hhi. cbn [SFmul xorb].
  assert (P : 2 ^ 52 <= Zpos (m1 * m2) < 2 ^ 106).
  { rewrite Pos2Z.inj_mul. change (2 ^ 106) with (2 ^ 53 * 2 ^ 53).
    change (2 ^ 52) with (1 * 2 ^ 52) at 1. split; nia. }
  assert (D : Zdigits2 (Zpos (m1 * m2)) <= 106).
  { pose proof (Zdigits2_bounds (Zpos (m1 * m2)) ltac:(lia)) as [B _].
    destruct (Z_lt_le_dec 106 (Zdigits2 (Zpos (m1 * m2)))) as [G|]; [|assumption].
    assert (2 ^ 106 <= 2 ^ (Zdigits2 (Zpos (m1 * m2)) - 1)) by (apply Z.pow_le_mono_r; lia).
    lia. }
  destruct (binary_round_aux_faithful (Zpos (m1 * m2)) (e1 + e2) loc_Exact
              ltac:(lia) Hlo ltac:(lia)) as (m'' & e'' & E & B & Be & _).
  rewrite E. intros [= <- <-]. lia.
Qed.

Lemma thousand_spec :
  Prim2SF 1000%float = S754_finite false 8796093022208000 (-43)
  /\ F2R 8796093022208000 (-43) = 1000%R.
Proof.
  split; [reflexivity|].
  apply (F2R_of_count 1000); [lia | reflexivity].
Qed.

Lemma pow2_inv k : 0 <= k -> (powerRZ 2 (- k) * IZR (2 ^ k) = 1)%R.
Proof.
  intros Hk. rewrite IZR_pow2 by assumption. rewrite <- bpow_add.
  replace (- k + k) with 0 by lia. reflexivity.
Qed.

(** The binary64 constant [4.92843e-05] against the decimal it is written
    as: they differ by less than a quarter of [2^-52] of the value. *)
Lemma area_of_pixel_spec :
  Prim2SF area_of_pixel = S754_finite false 7273078951615389 (-67)
  /\ (492843 / 10000000000 * (1 - ulp52 / 4) <= F2R 7273078951615389 (-67)
      <= 492843 / 10000000000 * (1 + ulp52 / 4))%R.
Proof.
  split; [reflexivity|].
  unfold F2R, ulp52.
  pose proof (pow2_inv 67 ltac:(lia)) as E67. pose proof (pow2_inv 52 ltac:(lia)) as E52.
  change (- (67)) with (-67) in E67. change (- (52)) with (-52) in E52.
  change (2 ^ 67) with 147573952589676412928 in E67.
  change (2 ^ 52) with 4503599627370496 in E52.
  set (p := powerRZ 2 (-67)) in *. set (u := powerRZ 2 (-52)) in *.
  split; lra.
Qed.

(** The area of a mask of [n] white pixels, with the two roundings. *)
Lemma area_value n :
  1 <= n < 2 ^ 53 ->
  exists mx ex my ey,
    Prim2SF (area_of_pixel * float_of_count n * 1000)%float = S754_finite false my ey
    /\ 2 ^ 52 <= Zpos my < 2 ^ 53
    /\ (F2R mx ex * (1 - ulp52) <= F2R 7273078951615389 (-67) * IZR n
        <= F2R mx ex * (1 + ulp52))%R
    /\ (F2R my ey * (1 - ulp52) <= F2R mx ex * 1000 <= F2R my ey * (1 + ulp52))%R.
Proof.
  intros Hn. unfold float_of_count.
  destruct (float_of_count_spec n Hn) as (mn & en & En & Bn & Ben & Vn).
  destruct area_of_pixel_spec as [Ec _]. destruct thousand_spec as [Et Vt].
  rewrite !FloatAxioms.mul_spec, En, Ec, Et. unfold SF64mul.
  assert (Bc : 2 ^ 52 <= Zpos 7273078951615389 < 2 ^ 53) by (split; [discriminate | reflexivity]).
  assert (L1 : -1074 <= -67 + en) by lia.
  assert (L2 : -67 + en + 106 <= 1023) by lia.
  destruct (SFmul_faithful 7273078951615389 (-67) mn en Bc Bn L1 L2)
    as (mx & ex & Ex & Bx & Vx).
  pose proof (SFmul_exponent _ _ _ _ _ _ Bc Bn L1 L2 Ex) as Bex.
  rewrite Ex.
  assert (L3 : -1074 <= ex + -43) by lia.
  assert (L4 : ex + -43 + 106 <= 1023) by lia.
  destruct (SFmul_faithful mx ex 8796093022208000 (-43) Bx
              ltac:(split; [discriminate | reflexivity]) L3 L4)
    as (my & ey & Ey & By & Vy).
  exists mx, ex, my, ey. split; [exact Ey|]. split; [exact By|].
  rewrite (F2R_of_count n mn en Ben Vn) in Vx. rewrite Vt in Vy.
  split; assumption.
Qed.


Lemma is_finite_spec x s m e :
  Prim2SF x = S754_finite s m e -> PrimFloat.is_finite x = true.
Proof.
  intros E. unfold PrimFloat.is_finite, PrimFloat.is_nan, PrimFloat.is_infinity.
  rewrite !FloatAxioms.eqb_spec, FloatAxioms.abs_spec, E.
  change (Prim2SF infinity) with (S754_infinity false).
  unfold SFeqb. rewrite FloatFacts.SFcompare_finite_refl. reflexivity.
Qed.

(** X20.  For a mask of 1 to 2^53 - 1 white pixels, [get_mask_area] is a
    finite number within 3 * 2^-52, relative, of the exact product of the
    count and 0.0492843 (the pixel area 4.92843e-05 times 1000). *)
Theorem mask_area_is_accurate :
  forall image : raster,
    1 <= countNonZero image < 2 ^ 53 ->
    exists area,
      get_mask_area (Some image) = Ok area
      /\ PrimFloat.is_finite area = true
      /\ (IZR (countNonZero image) * (492843 / 10000000) * (1 - 3 * ulp52)
          <= float_value area
          <= IZR (countNonZero image) * (492843 / 10000000) * (1 + 3 * ulp52))%R.
Proof.
  intros image Hn. eexists. split; [reflexivity|].
  destruct (area_value (countNonZero image) Hn) as (mx & ex & my & ey & Ey & By & Vx & Vy).
  destruct area_of_pixel_spec as [_ Vc].
  split.
  { exact (is_finite_spec _ _ _ _ Ey). }
  unfold float_value. rewrite Ey. cbn [SF2R].
  pose proof (F2R_pos mx ex) as Px. pose proof (F2R_pos my ey) as Py.
  pose proof ulp52_small as [U0 U8].
  assert (Rn : (1 <= IZR (countNonZero image))%R) by (apply IZR_le; lia).
  set (n := IZR (countNonZero image)) in *.
  set (X := F2R mx ex) in *. set (Y := F2R my ey) in *.
  set (C := F2R 7273078951615389 (-67)) in *. set (u := ulp52) in *.
  set (D := (492843 / 10000000000)%R) in *.
  assert (PD : (0 < D)%R) by (unfold D; lra).
  replace (492843 / 10000000)%R with (1000 * D)%R by (unfold D; lra).
  destruct Vx as [Vx1 Vx2]. destruct Vy as [Vy1 Vy2]. destruct Vc as [Vc1 Vc2].
  assert (Cn1 : (D * (1 - u / 4) * n <= C * n)%R) by (apply Rmult_le_compat_r; lra).
  assert (Cn2 : (C * n <= D * (1 + u / 4) * n)%R) by (apply Rmult_le_compat_r; lra).
  set (E := (n * (1000 * D))%R).
  assert (PE : (0 < E)%R) by (unfold E; nra).
  split.
  - (* E (1 - 3u) (1+u)^2 <= E (1 - u/4) <= 1000 C n <= Y (1+u)^2 *)
    assert (A1 : (E * (1 - u / 4) <= Y * ((1 + u) * (1 + u)))%R) by (unfold E; nra).
    assert (A2 : ((1 - 3 * u) * ((1 + u) * (1 + u)) <= 1 - u / 4)%R) by nra.
    assert (A3 : (E * ((1 - 3 * u) * ((1 + u) * (1 + u))) <= E * (1 - u / 4))%R)
      by (apply Rmult_le_compat_l; lra).
    assert (P : (0 < (1 + u) * (1 + u))%R) by nra.
    set (q := ((1 + u) * (1 + u))%R) in *.
    assert (A4 : (E * (1 - 3 * u) * q <= Y * q)%R) by lra.
    apply Rmult_le_reg_r with q; assumption.
  - assert (A1 : (Y * ((1 - u) * (1 - u)) <= E * (1 + u / 4))%R) by (unfold E; nra).
    assert (A2 : (1 + u / 4 <= (1 + 3 * u) * ((1 - u) * (1 - u)))%R) by nra.
    assert (A3 : (E * (1 + u / 4) <= E * ((1 + 3 * u) * ((1 - u) * (1 - u))))%R)
      by (apply Rmult_le_compat_l; lra).
    assert (P : (0 < (1 - u) * (1 - u))%R) by nra.
    set (q := ((1 - u) * (1 - u))%R) in *.
    assert (A4 : (Y * q <= E * (1 + 3 * u) * q)%R) by lra.
    apply Rmult_le_reg_r with q; assumption.
Qed.

Lemma mask_area_is_accurate_witness :
  exists area,
    get_mask_area (Some (repeat (repeat Byte.xff 50) 40)) = Ok area
    /\ (2000 * (492843 / 10000000) * (1 - 3 * ulp52) <= float_value area
        <= 2000 * (492843 / 10000000) * (1 + 3 * ulp52))%R.
Proof.
  destruct (mask_area_is_accurate (repeat (repeat Byte.xff 50) 40))
    as (area & Ha & _ & Hb).
  - vm_compute. split; [discriminate | reflexivity].
  - exists area. split; [exact Ha|].
    replace (countNonZero (repeat (repeat Byte.xff 50) 40)) with 2000 in Hb
      by (vm_compute; reflexivity).
    exact Hb.
Defined.

Lemma area_of_no_pixel : (area_of_pixel * float_of_count 0 * 1000)%float = 0%float.
Proof. reflexivity. Qed.

(** X21.  Of two masks, the one with more white pixels gets the strictly
    larger area, for counts below 2^49; a mask without a white pixel gets
    the area 0. *)
Theorem more_white_pixels_give_a_larger_area :
  forall image image' : raster,
    countNonZero image < countNonZero image' ->
    countNonZero image' < 2 ^ 49 ->
    exists area area',
      get_mask_area (Some image) = Ok area
      /\ get_mask_area (Some image') = Ok area'
      /\ PrimFloat.ltb area area' = true
      /\ (countNonZero image = 0 -> area = 0%float).
Proof.
  intros image image' Hlt Hsize.
  pose proof (AreaFacts.countNonZero_nonneg image) as H0.
  eexists. eexists. split; [reflexivity|]. split; [reflexivity|].
  set (a := countNonZero image) in *. set (b := countNonZero image') in *.
  assert (H53 : b < 2 ^ 53) by (apply Z.lt_trans with (2 ^ 49); [assumption | reflexivity]).
  destruct (area_value b ltac:(lia)) as (mxb & exb & myb & eyb & Eb & Bb & Xb & Yb).
  split; [|intros ->; reflexivity].
  rewrite FloatAxioms.ltb_spec, Eb.
  destruct (Z.eq_dec a 0) as [->|Ha].
  { rewrite area_of_no_pixel. reflexivity. }
  destruct (area_value a ltac:(lia)) as (mxa & exa & mya & eya & Ea & Ba & Xa & Ya).
  rewrite Ea. apply SFltb_normal; [exact Ba | exact Bb |].
  pose proof (F2R_pos mxa exa) as Pxa. pose proof (F2R_pos mxb exb) as Pxb.
  pose proof (F2R_pos mya eya) as Pya. pose proof (F2R_pos myb eyb) as Pyb.
  pose proof (F2R_pos 7273078951615389 (-67)) as Pc.
  set (xa := F2R mxa exa) in *. set (xb := F2R mxb exb) in *.
  set (ya := F2R mya eya) in *. set (yb := F2R myb eyb) in *.
  set (c := F2R 7273078951615389 (-67)) in *.
  pose proof ulp52_small as [U0 U8].
  pose proof (count_ulp a ltac:(lia)) as Ua.
  set (u := ulp52) in *.
  assert (Ra : (1 <= IZR a)%R) by (apply IZR_le; lia).
  assert (Rb : (IZR a + 1 <= IZR b)%R) by (rewrite <- plus_IZR; apply IZR_le; lia).
  set (ar := IZR a) in *. set (br := IZR b) in *.
  destruct Xa as [Xa1 Xa2]. destruct Xb as [Xb1 Xb2].
  destruct Ya as [Ya1 Ya2]. destruct Yb as [Yb1 Yb2].
  apply Rnot_le_lt. intros Hle.
  set (p := ((1 + u) * (1 + u))%R). set (q := ((1 - u) * (1 - u))%R).
  assert (Pq : (/ 2 < q)%R) by (unfold q; nra).
  assert (Pp : (0 < p)%R) by (unfold p; nra).
  (* 1000 c b <= yb p <= ya p   and   ya q <= 1000 c a *)
  assert (T1 : (1000 * (c * br) <= yb * p)%R) by (unfold p; nra).
  assert (T2 : (ya * q <= 1000 * (c * ar))%R) by (unfold q; nra).
  assert (T3 : (1000 * (c * br) <= ya * p)%R) by nra.
  assert (T4 : (1000 * (c * br) * q <= ya * p * q)%R) by (apply Rmult_le_compat_r; lra).
  assert (T5 : (ya * q * p <= 1000 * (c * ar) * p)%R) by (apply Rmult_le_compat_r; lra).
  assert (T6 : (c * (br * q) <= c * (ar * p))%R) by nra.
  assert (T7 : (br * q <= ar * p)%R) by (apply Rmult_le_reg_l with c; assumption).
  assert (T8 : ((ar + 1) * q <= ar * p)%R) by nra.
  assert (T9 : (p - q = 4 * u)%R) by (unfold p, q; ring).
  nra.
Qed.

Lemma more_white_pixels_give_a_larger_area_witness :
  exists area area',
    get_mask_area (Some [[Byte.xff; Byte.x00]]) = Ok area
    /\ get_mask_area (Some [[Byte.xff; Byte.xff]]) = Ok area'
    /\ PrimFloat.ltb area area' = true.
Proof.
  destruct (more_white_pixels_give_a_larger_area [[Byte.xff; Byte.x00]] [[Byte.xff; Byte.xff]])
    as (area & area' & H1 & H2 & H3 & _).
  - vm_compute. reflexivity.
  - vm_compute. reflexivity.
  - exists area, area'. split; [exact H1|]. split; [exact H2 | exact H3].
Defined.

End AccuracyFacts.

(** * The diameter of the circle of an area *)

Module CircleFacts.
Import MaskArea RoundingFacts RealFacts PercentFacts DiameterFacts AccuracyFacts.

Lemma div2_shift e : Z.div2 (53 + e + 1) = Z.div2 e + 27.
Proof. rewrite !Z.div2_div. replace (53 + e + 1) with (e + 27 * 2) by lia. now rewrite Z.div_add. Qed.

(** The square root of a normal number, faithfully rounded: the square of
    the result is within [2^-52] relative, twice over, of the operand. *)
Lemma SFsqrt_faithful m e :
  2 ^ 52 <= Zpos m < 2 ^ 53 -> -1074 <= e <= 971 ->
  exists m' e',
    SFsqrt prec emax (S754_finite false m e) = S754_finite false m' e'
    /\ 2 ^ 52 <= Zpos m' < 2 ^ 53
    /\ Z.div2 e - 26 <= e' <= Z.div2 e - 25
    /\ ((F2R m' e' * (1 - ulp52)) * (F2R m' e' * (1 - ulp52)) <= F2R m e
        <= (F2R m' e' * (1 + ulp52)) * (F2R m' e' * (1 + ulp52)))%R.
Proof.
  intros Hm He. cbn [SFsqrt]. unfold SFsqrt_core_binary.
  assert (D1 : Zdigits2 (Zpos m) = 53)
    by (apply digits2_unique; [lia|]; change (53 - 1) with 52; lia).
  rewrite D1, div2_shift.
  assert (Hd : 2 * Z.div2 e <= e <= 2 * Z.div2 e + 1).
  { rewrite Z.div2_div. pose proof (Z.div_mod e 2 ltac:(lia)).
    pose proof (Z.mod_pos_bound e 2 ltac:(lia)). lia. }
  assert (Hf : fexp prec emax (Z.div2 e + 27) = Z.div2 e - 26).
  { unfold fexp, emin. change (3 - emax - prec) with (-1074). change prec with 53. lia. }
  rewrite Hf. rewrite Z.min_l by lia.
  set (e' := Z.div2 e - 26).
  set (s := e - 2 * e').
  assert (Hs : s = 52 \/ s = 53) by (unfold s, e'; lia).
  assert (Em' : match s with Z0 => Zpos m | Zpos _ => Z.shiftl (Zpos m) s | Zneg _ => 0 end
                = Zpos m * 2 ^ s).
  { destruct Hs as [-> | ->]; rewrite Z.shiftl_mul_pow2 by lia; reflexivity. }
  rewrite Em'. set (m2 := Zpos m * 2 ^ s).
  assert (Bm2 : 2 ^ 104 <= m2 < 2 ^ 106).
  { unfold m2. destruct Hs as [-> | ->].
    - change (2 ^ 104) with (2 ^ 52 * 2 ^ 52). change (2 ^ 106) with (2 ^ 54 * 2 ^ 52).
      assert (Zpos m < 2 ^ 54) by (change (2 ^ 54) with (2 * 2 ^ 53); lia). nia.
    - change (2 ^ 104) with (2 ^ 51 * 2 ^ 53). change (2 ^ 106) with (2 ^ 53 * 2 ^ 53).
      assert (2 ^ 51 <= Zpos m) by (change (2 ^ 52) with (2 * 2 ^ 51) in Hm; lia). nia. }
  pose proof (Z.sqrtrem_spec m2 ltac:(lia)) as SQ.
  destruct (Z.sqrtrem m2) as [q r]. destruct SQ as [SQ Hr].
  assert (Bq : 2 ^ 52 <= q < 2 ^ 53).
  { change (2 ^ 104) with (2 ^ 52 * 2 ^ 52) in Bm2.
    change (2 ^ 106) with (2 ^ 53 * 2 ^ 53) in Bm2. split; nia. }
  assert (Dq : Zdigits2 q = 53)
    by (apply digits2_unique; [lia|]; change (53 - 1) with 52; lia).
  destruct (binary_round_aux_faithful q e'
              (if r =? 0 then loc_Exact else loc_Inexact (if r <=? q then Lt else Gt))
              ltac:(lia) ltac:(unfold e'; lia) ltac:(unfold e'; lia))
    as (m'' & e'' & E & B & Be & Vlo & Vhi).
  rewrite Dq in Be.
  exists m'', e''. split; [exact E|]. split; [exact B|]. split; [unfold e' in Be; lia|].
  set (k := e'' - e') in *.
  assert (Hk : 0 <= k) by (unfold k; lia).
  (* the mantissa brackets, squared *)
  assert (Zlo : ((Zpos m'' - 1) * 2 ^ k) * ((Zpos m'' - 1) * 2 ^ k) <= m2).
  { assert (0 <= (Zpos m'' - 1) * 2 ^ k) by (apply Z.mul_nonneg_nonneg; [lia | apply Z.pow_nonneg; lia]).
    nia. }
  assert (Zhi : m2 <= ((Zpos m'' + 1) * 2 ^ k) * ((Zpos m'' + 1) * 2 ^ k)) by nia.
  apply IZR_le in Zlo, Zhi. unfold m2 in Zlo, Zhi.
  rewrite !mult_IZR, !IZR_pow2 in Zlo, Zhi by lia.
  rewrite minus_IZR in Zlo. rewrite plus_IZR in Zhi.
  pose proof (ulp_le m'' e'' ltac:(lia)) as U.
  pose proof (bpow_pos e') as Pb. pose proof (bpow_pos k) as Pk.
  assert (Ee'' : powerRZ 2 e'' = (powerRZ 2 k * powerRZ 2 e')%R)
    by (rewrite <- bpow_add; f_equal; unfold k; lia).
  assert (Ee : powerRZ 2 e = (powerRZ 2 s * (powerRZ 2 e' * powerRZ 2 e'))%R).
  { rewrite <- !bpow_add. f_equal. unfold s. lia. }
  assert (M1 : (1 <= IZR (Zpos m''))%R) by (apply IZR_le; lia).
  unfold F2R in *. rewrite Ee'' in *. rewrite Ee.
  set (M := IZR (Zpos m'')) in *. set (X := (IZR (Zpos m) * powerRZ 2 s)%R) in *.
  set (bk := powerRZ 2 k) in *. set (b := powerRZ 2 e') in *. set (u := ulp52) in *.
  pose proof ulp52_small as [U0 U8]. fold u in U0, U8.
  assert (L0 : (0 <= M * (bk * b) * (1 - u))%R) by (apply Rmult_le_pos; [nra | lra]).
  assert (L1 : (M * (bk * b) * (1 - u) <= (M - 1) * bk * b)%R) by nra.
  assert (L2 : ((M + 1) * bk * b <= M * (bk * b) * (1 + u))%R) by nra.
  assert (L3 : (0 <= (M + 1) * bk * b)%R) by nra.
  assert (S1 : ((M - 1) * bk * b * ((M - 1) * bk * b) <= X * (b * b))%R).
  { replace ((M - 1) * bk * b * ((M - 1) * bk * b))%R
      with (((M - 1) * bk * ((M - 1) * bk)) * (b * b))%R by ring.
    apply Rmult_le_compat_r; [nra | exact Zlo]. }
  assert (S2 : (X * (b * b) <= (M + 1) * bk * b * ((M + 1) * bk * b))%R).
  { replace ((M + 1) * bk * b * ((M + 1) * bk * b))%R
      with (((M + 1) * bk * ((M + 1) * bk)) * (b * b))%R by ring.
    apply Rmult_le_compat_r; [nra | exact Zhi]. }
  replace (IZR (Zpos m) * (powerRZ 2 s * (b * b)))%R with (X * (b * b))%R by (unfold X; ring).
  split.
  - apply Rle_trans with ((M - 1) * bk * b * ((M - 1) * bk * b))%R; [|exact S1].
    apply Rmult_le_compat; lra.
  - apply Rle_trans with ((M + 1) * bk * b * ((M + 1) * bk * b))%R; [exact S2|].
    apply Rmult_le_compat; lra.
Qed.


(** The sign is only carried along by the rounding. *)
Lemma binary_round_aux_negative m e l m' e' :
  binary_round_aux prec emax false m e l = S754_finite false m' e' ->
  binary_round_aux prec emax true m e l = S754_finite true m' e'.
Proof.
  unfold binary_round_aux.
  destruct (shr_fexp prec emax m e l) as [mrs e1].
  destruct (shr_fexp prec emax _ e1 loc_Exact) as [mrs' e2].
  destruct (shr_m mrs') as [|p|p]; try discriminate.
  destruct (e2 <=? emax - prec); [|discriminate].
  now intros [= <- <-].
Qed.

(** A finite number of binary64 whose exponent is above the smallest one
    has a mantissa of 53 digits. *)
Lemma normal_mantissa x s m e :
  Prim2SF x = S754_finite s m e -> -1074 < e ->
  2 ^ 52 <= Zpos m < 2 ^ 53 /\ e <= 971.
Proof.
  intros E He. pose proof (FloatAxioms.Prim2SF_valid x) as V. rewrite E in V.
  unfold FloatAxioms.valid_binary, SpecFloat.valid_binary, bounded, canonical_mantissa in V.
  apply andb_true_iff in V. destruct V as [C B].
  apply Z.eqb_eq in C. apply Z.leb_le in B. change (emax - prec) with 971 in B.
  unfold fexp, emin in C. change (3 - emax - prec) with (-1074) in C. change prec with 53 in C.
  pose proof (digits2_bounds m) as D.
  assert (Zpos (digits2_pos m) = 53) as Ed by lia.
  rewrite Ed in D. change (53 - 1) with 52 in D. split; [exact D | exact B].
Qed.

(** A number at or below [-2^-1020]: minus infinity, or negative with a
    full mantissa. *)
Lemma at_most_minus_normal x :
  PrimFloat.leb x (-0x1p-1020)%float = true ->
  Prim2SF x = S754_infinity true
  \/ exists m e, Prim2SF x = S754_finite true m e
                 /\ 2 ^ 52 <= Zpos m < 2 ^ 53 /\ -1072 <= e <= 971.
Proof.
  rewrite FloatAxioms.leb_spec.
  change (Prim2SF (-0x1p-1020)) with (S754_finite true 4503599627370496 (-1072)).
  destruct (Prim2SF x) as [s|s| |s m e] eqn:E; unfold SFleb, SFcompare; try discriminate.
  - destruct s; [now left | discriminate].
  - destruct s; [|discriminate]. intros H. right. exists m, e. split; [reflexivity|].
    assert (He : -1072 <= e).
    { destruct (Z.compare_spec e (-1072)) as [->|Hl|Hg]; [lia | discriminate H | lia]. }
    destruct (normal_mantissa x true m e E ltac:(lia)) as [Hm He']. split; [exact Hm | lia].
Qed.

(** A finite number at or above [2^-1020] is positive with a full
    mantissa. *)
Lemma at_least_normal x :
  PrimFloat.leb 0x1p-1020%float x = true -> PrimFloat.is_finite x = true ->
  exists m e, Prim2SF x = S754_finite false m e
              /\ 2 ^ 52 <= Zpos m < 2 ^ 53 /\ -1072 <= e <= 971.
Proof.
  rewrite FloatAxioms.leb_spec.
  change (Prim2SF 0x1p-1020) with (S754_finite false 4503599627370496 (-1072)).
  intros H F.
  destruct (Prim2SF x) as [s|s| |s m e] eqn:E; unfold SFleb, SFcompare in H; try discriminate.
  - unfold PrimFloat.is_finite in F. apply negb_true_iff, orb_false_iff in F.
    destruct F as [_ F].
    assert (G : PrimFloat.is_infinity x = true) by (apply FloatFacts.is_infinity_spec; eauto).
    congruence.
  - destruct s; [discriminate|]. exists m, e. split; [reflexivity|].
    assert (He : -1072 <= e).
    { destruct (Z.compare_spec (-1072) e) as [<-|Hl|Hg]; [lia | lia | discriminate H]. }
    destruct (normal_mantissa x false m e E ltac:(lia)) as [Hm He']. split; [exact Hm | lia].
Qed.

Lemma pi_spec :
  Prim2SF math_pi = S754_finite false 7074237752028440 (-51)
  /\ 2 ^ 52 <= Zpos 7074237752028440 < 2 ^ 53.
Proof. split; [reflexivity|]. split; [discriminate | reflexivity]. Qed.

(** Below [-2^-1020] the quotient by pi is a negative number or minus
    infinity, and [math.sqrt] refuses it. *)
Lemma below_zero_raises area :
  PrimFloat.leb area (-0x1p-1020)%float = true ->
  get_diameter_from_area area = Raise ValueError.
Proof.
  intros H. unfold get_diameter_from_area, math_sqrt.
  assert (Hq : PrimFloat.ltb (area / math_pi) 0 = true); [|now rewrite Hq].
  rewrite FloatAxioms.ltb_spec, FloatAxioms.div_spec.
  destruct pi_spec as [Ep Bp]. rewrite Ep. change (Prim2SF 0) with (S754_zero false).
  destruct (at_most_minus_normal area H) as [E|(m & e & E & Bm & Be)]; rewrite E.
  - reflexivity.
  - destruct (SFdiv_faithful m e 7074237752028440 (-51) Bm Bp ltac:(lia))
      as (m' & e' & Ed & _).
    unfold SF64div. cbn [SFdiv xorb] in Ed |- *.
    destruct (SFdiv_core_binary prec emax (Zpos m) e (Zpos 7074237752028440) (-51))
      as [[mz ez] lz].
    rewrite (binary_round_aux_negative _ _ _ _ _ Ed). reflexivity.
Qed.

(** X22.  [get_diameter_from_area] returns a diameter that is not
    negative for every area that is not negative; it raises [ValueError]
    for every area at or below -2^-1020, minus infinity included; and it
    raises nothing else. *)
Theorem diameter_domain :
  forall area : float,
    (PrimFloat.leb 0 area = true ->
       exists d, get_diameter_from_area area = Ok d /\ PrimFloat.leb 0 d = true)
    /\ (PrimFloat.leb area (-0x1p-1020)%float = true ->
        get_diameter_from_area area = Raise ValueError)
    /\ (forall e, get_diameter_from_area area = Raise e -> e = ValueError).
Proof.
  intros area. split; [|split].
  - intros H. apply leb_zero_nonneg in H.
    assert (Hq : sf_nonneg (Prim2SF (area / math_pi)%float)).
    { rewrite FloatAxioms.div_spec.
      change (Prim2SF math_pi) with (S754_finite false 7074237752028440 (-51)).
      now apply div_nonneg. }
    unfold get_diameter_from_area, math_sqrt.
    rewrite (nonneg_not_below_zero _ Hq). cbn [bind].
    eexists. split; [reflexivity|].
    apply AreaFacts.nonneg_above_zero. rewrite FloatAxioms.mul_spec, FloatAxioms.sqrt_spec.
    change (Prim2SF 2) with (S754_finite false 4503599627370496 (-51)).
    apply mul_nonneg, sqrt_nonneg, Hq.
  - apply below_zero_raises.
  - intros e. unfold get_diameter_from_area, math_sqrt.
    destruct (PrimFloat.ltb _ _); cbn [bind]; congruence.
Qed.

Lemma diameter_domain_witness :
  (exists d, get_diameter_from_area 98.56859999999999%float = Ok d
             /\ PrimFloat.leb 0 d = true)
  /\ get_diameter_from_area (-1)%float = Raise ValueError.
Proof.
  split.
  - apply (proj1 (diameter_domain 98.56859999999999%float)). reflexivity.
  - apply (proj1 (proj2 (diameter_domain (-1)%float))). reflexivity.
Defined.


Lemma ulp52_tiny : (0 < ulp52 <= / 1024)%R.
Proof.
  pose proof (pow2_inv 52 ltac:(lia)) as E. change (- (52)) with (-52) in E.
  change (2 ^ 52) with 4503599627370496 in E. fold ulp52 in E.
  pose proof (bpow_pos (-52)) as P. fold ulp52 in P. split; lra.
Qed.

Lemma two_spec :
  Prim2SF 2%float = S754_finite false 4503599627370496 (-51)
  /\ F2R 4503599627370496 (-51) = 2%R.
Proof.
  split; [reflexivity|].
  apply (F2R_of_count 2); [lia | reflexivity].
Qed.

(** X23.  For a finite area of at least 2^-1020 the diameter is finite
    and positive, and the circle of that diameter, computed with the
    binary64 [math.pi], has the area given, up to 6 * 2^-52 of it. *)
Theorem diameter_gives_back_the_area :
  forall area : float,
    PrimFloat.leb 0x1p-1020%float area = true ->
    PrimFloat.is_finite area = true ->
    exists d,
      get_diameter_from_area area = Ok d
      /\ PrimFloat.is_finite d = true
      /\ PrimFloat.ltb 0 d = true
      /\ (float_value math_pi * (float_value d / 2) * (float_value d / 2) * (1 - 6 * ulp52)
          <= float_value area
          <= float_value math_pi * (float_value d / 2) * (float_value d / 2)
             * (1 + 6 * ulp52))%R.
Proof.
  intros area Hlo Hfin.
  destruct (at_least_normal area Hlo Hfin) as (m & e & Ea & Bm & Be).
  destruct pi_spec as [Ep Bp]. destruct two_spec as [E2 V2].
  destruct (SFdiv_faithful m e 7074237752028440 (-51) Bm Bp ltac:(lia))
    as (mq & eq & Eq & Bq & Beq & Vq).
  destruct (SFsqrt_faithful mq eq Bq ltac:(lia)) as (mr & er & Er & Br & Ber & Vr).
  assert (Her : -600 <= er <= 500).
  { rewrite Z.div2_div in Ber.
    pose proof (Z.div_mod eq 2 ltac:(lia)). pose proof (Z.mod_pos_bound eq 2 ltac:(lia)). lia. }
  assert (L1 : -1074 <= er + -51) by lia.
  assert (L2 : er + -51 + 106 <= 1023) by lia.
  destruct (SFmul_faithful mr er 4503599627370496 (-51) Br
              ltac:(split; [discriminate | reflexivity]) L1 L2)
    as (md & ed & Ed & Bd & Vd).
  assert (Hq : Prim2SF (area / math_pi)%float = S754_finite false mq eq)
    by (rewrite FloatAxioms.div_spec, Ea, Ep; exact Eq).
  assert (Hneg : PrimFloat.ltb (area / math_pi) 0 = false).
  { rewrite FloatAxioms.ltb_spec, Hq. reflexivity. }
  assert (Hd : Prim2SF (PrimFloat.sqrt (area / math_pi) * 2)%float = S754_finite false md ed).
  { rewrite FloatAxioms.mul_spec, FloatAxioms.sqrt_spec, Hq, E2.
    unfold SF64mul, SF64sqrt. rewrite Er. exact Ed. }
  unfold get_diameter_from_area, math_sqrt. rewrite Hneg. cbn [bind].
  eexists. split; [reflexivity|].
  split; [exact (is_finite_spec _ _ _ _ Hd)|].
  split; [rewrite FloatAxioms.ltb_spec, Hd; reflexivity|].
  unfold float_value. rewrite Hd, Ea, Ep. cbn [SF2R]. rewrite V2 in Vd.
  pose proof (F2R_pos m e) as Pa. pose proof (F2R_pos mq eq) as Pq.
  pose proof (F2R_pos mr er) as Pr. pose proof (F2R_pos md ed) as Pd.
  pose proof (F2R_pos 7074237752028440 (-51)) as Ppi.
  set (a := F2R m e) in *. set (Q := F2R mq eq) in *. set (r := F2R mr er) in *.
  set (D := F2R md ed) in *. set (P := F2R 7074237752028440 (-51)) in *.
  pose proof ulp52_tiny as [U0 U1]. set (u := ulp52) in *.
  destruct Vq as [Vq1 Vq2]. destruct Vr as [Vr1 Vr2]. destruct Vd as [Vd1 Vd2].
  set (h := (D / 2)%R). assert (Ph : (0 < h)%R) by (unfold h; lra).
  (* the radius against half the diameter *)
  assert (R1 : (h * (1 - u) <= r)%R) by (unfold h; lra).
  assert (R2 : (r <= h * (1 + u))%R) by (unfold h; lra).
  (* the quotient against the square of half the diameter *)
  set (lo := ((1 - u) * (1 - u))%R). set (hi := ((1 + u) * (1 + u))%R).
  assert (Plo : (0 < lo)%R) by (unfold lo; nra).
  assert (Phi : (0 < hi)%R) by (unfold hi; nra).
  assert (Q1 : (h * lo * (h * lo) <= Q)%R).
  { apply Rle_trans with (r * (1 - u) * (r * (1 - u)))%R; [|exact Vr1].
    assert (0 <= h * lo)%R by nra.
    assert (h * lo <= r * (1 - u))%R by (unfold lo; nra).
    apply Rmult_le_compat; lra. }
  assert (Q2 : (Q <= h * hi * (h * hi))%R).
  { apply Rle_trans with (r * (1 + u) * (r * (1 + u)))%R; [exact Vr2|].
    assert (0 <= r * (1 + u))%R by nra.
    assert (r * (1 + u) <= h * hi)%R by (unfold hi; nra).
    apply Rmult_le_compat; lra. }
  set (c := (P * h * h)%R). assert (Pc : (0 < c)%R) by (unfold c; nra).
  assert (Elo : (1 - 6 * u <= (1 - u) * (lo * lo))%R).
  { assert (1 - 2 * u <= lo)%R by (unfold lo; nra).
    assert (1 - 4 * u <= lo * lo)%R by nra.
    nra. }
  assert (Ehi : ((1 + u) * (hi * hi) <= 1 + 6 * u)%R).
  { assert (hi <= 1 + 2 * u + u / 1024)%R by (unfold hi; nra).
    assert (hi * hi <= 1 + 4 * u + u / 64)%R by nra.
    nra. }
  split.
  - apply Rle_trans with (c * ((1 - u) * (lo * lo)))%R;
      [apply Rmult_le_compat_l; lra|].
    apply Rle_trans with (Q * (1 - u) * P)%R; [|exact Vq1].
    replace (c * ((1 - u) * (lo * lo)))%R with ((h * lo * (h * lo)) * ((1 - u) * P))%R
      by (unfold c; ring).
    replace (Q * (1 - u) * P)%R with (Q * ((1 - u) * P))%R by ring.
    apply Rmult_le_compat_r; [nra | exact Q1].
  - apply Rle_trans with (c * ((1 + u) * (hi * hi)))%R;
      [|apply Rmult_le_compat_l; lra].
    apply Rle_trans with (Q * (1 + u) * P)%R; [exact Vq2|].
    replace (c * ((1 + u) * (hi * hi)))%R with ((h * hi * (h * hi)) * ((1 + u) * P))%R
      by (unfold c; ring).
    replace (Q * (1 + u) * P)%R with (Q * ((1 + u) * P))%R by ring.
    apply Rmult_le_compat_r; [nra | exact Q2].
Qed.

Lemma diameter_gives_back_the_area_witness :
  exists d,
    get_diameter_from_area 98.56859999999999%float = Ok d
    /\ (float_value math_pi * (float_value d / 2) * (float_value d / 2) * (1 - 6 * ulp52)
        <= float_value 98.56859999999999%float
        <= float_value math_pi * (float_value d / 2) * (float_value d / 2)
           * (1 + 6 * ulp52))%R.
Proof.
  destruct (diameter_gives_back_the_area 98.56859999999999%float eq_refl eq_refl)
    as (d & Hd & _ & _ & Hb).
  exists d. split; [exact Hd | exact Hb].
Defined.

End CircleFacts.

(** * Frequencies and percentages of the builder *)

Module DistributionFacts.
Import MaskArea DetectorFacts PercentFacts CircleFacts.

(** Running sums of summands that are at least 1. *)
Lemma cumsum_of_positive fs :
  (forall k, (k < List.length fs)%nat -> 1 <= nth k fs 0) ->
  forall k, (k < List.length fs)%nat ->
    nth k fs 0 <= nth k (cumsum_from 0 fs) 0
    /\ Z.of_nat k + 1 <= nth k (cumsum_from 0 fs) 0.
Proof.
  intros Hpos. induction k as [|k IH]; intros Hk.
  - rewrite cumsum_from_nth_0 by lia. specialize (Hpos 0%nat Hk). lia.
  - rewrite cumsum_from_nth_S by assumption.
    specialize (IH ltac:(lia)). specialize (Hpos (S k) Hk). lia.
Qed.

Lemma cumsum_increasing fs :
  (forall k, (k < List.length fs)%nat -> 1 <= nth k fs 0) ->
  forall i j, (i < j)%nat -> (j < List.length fs)%nat ->
    nth i (cumsum_from 0 fs) 0 < nth j (cumsum_from 0 fs) 0.
Proof.
  intros Hpos i j Hij. induction Hij as [|j Hij IH]; intros Hj.
  - rewrite (cumsum_from_nth_S 0 fs i) by assumption. specialize (Hpos (S i) Hj). lia.
  - rewrite (cumsum_from_nth_S 0 fs j) by assumption.
    specialize (IH ltac:(lia)). specialize (Hpos (S j) Hj). lia.
Qed.

Lemma occurrences_at_most_length (ds : list float) d :
  occurrences PrimFloat.eqb ds d <= Z.of_nat (List.length ds).
Proof. unfold occurrences. pose proof (filter_length_le (fun x => PrimFloat.eqb x d) ds). lia. Qed.

(** X24.  For a table of measured areas every Freq lies between 1 and the
    number of rows, rows with equal diameters have equal Freq, and
    Cumulative Freq grows strictly from row to row; at row k (from 0) it is
    at least k + 1 and at least the row's Freq. *)
Theorem cumulative_freq_grows :
  forall (sort_values : list string -> list image_data -> list image_data)
         (images_df : list image_data) (sort_by : list string) (calculate_percent : bool),
    (forall labels t, Permutation (sort_values labels t) t) ->
    images_df <> [] ->
    (forall label, In label sort_by -> In label ["Grid"; "Mask"; "Area"]%string) ->
    (forall r, In r images_df -> PrimFloat.leb 0 (Area r) = true) ->
    exists rows fs cs,
      update_and_save_dataframe sort_values images_df sort_by calculate_percent = Ok rows
      /\ map Freq rows = map Some fs
      /\ map Cumulative_Freq rows = map Some cs
      /\ (forall k, (k < List.length rows)%nat ->
            1 <= nth k fs 0 <= Z.of_nat (List.length rows)
            /\ nth k fs 0 <= nth k cs 0
            /\ Z.of_nat k + 1 <= nth k cs 0)
      /\ (forall i j, (i < j < List.length rows)%nat -> nth i cs 0 < nth j cs 0)
      /\ (forall i j, (i < List.length rows)%nat -> (j < List.length rows)%nat ->
            PrimFloat.eqb (nth i (map Diameter rows) PrimFloat.nan)
                          (nth j (map Diameter rows) PrimFloat.nan) = true ->
            nth i fs 0 = nth j fs 0).
Proof.
  intros sort_values images_df sort_by calculate_percent Hperm Hne Hlabels Hareas.
  destruct (BuilderFacts.builder_runs sort_values images_df sort_by calculate_percent
              Hperm Hne Hlabels Hareas)
    as (rows & ds & Erun & _ & Eds & _ & _ & Nds & Efreq & Ecum & _).
  set (fs := map (occurrences PrimFloat.eqb ds) ds).
  exists rows, fs, (cumsum_from 0 fs).
  assert (Lds : List.length ds = List.length rows) by (rewrite <- Eds; apply length_map).
  assert (Lfs : List.length fs = List.length rows) by (unfold fs; now rewrite length_map).
  assert (Hnth : forall k, (k < List.length rows)%nat ->
                   nth k fs 0 = occurrences PrimFloat.eqb ds (nth k ds PrimFloat.nan)).
  { intros k Hk. unfold fs.
    rewrite (nth_indep _ 0 (occurrences PrimFloat.eqb ds PrimFloat.nan))
      by (rewrite length_map; lia).
    apply (map_nth (occurrences PrimFloat.eqb ds)). }
  assert (Hpos : forall k, (k < List.length fs)%nat -> 1 <= nth k fs 0).
  { intros k Hk. rewrite Hnth by lia.
    assert (Hin : In (nth k ds PrimFloat.nan) ds) by (apply nth_In; lia).
    apply CountingFacts.occurrences_member; [exact Hin|].
    apply DiameterFacts.float_eqb_refl. now apply Nds. }
  split; [exact Erun|]. split; [rewrite Efreq; unfold fs; now rewrite map_map|].
  split; [exact Ecum|]. split; [|split].
  - intros k Hk. split.
    + split; [apply Hpos; lia|]. rewrite Hnth, <- Lds by assumption.
      apply occurrences_at_most_length.
    + apply cumsum_of_positive; [exact Hpos | lia].
  - intros i j Hij. apply cumsum_increasing; [exact Hpos | lia | lia].
  - intros i j Hi Hj Heq. rewrite Eds in Heq. rewrite !Hnth by assumption.
    apply CountingFacts.occurrences_same;
      [apply DiameterFacts.float_eqb_sym | apply DiameterFacts.float_eqb_trans | exact Heq].
Qed.


Lemma cumulative_freq_grows_witness :
  exists rows fs cs,
    update_and_save_dataframe stable_sort_values
      [ {| Grid := "a1"; Mask := 2; Area := 2%float |};
        {| Grid := "a1"; Mask := 3; Area := 1%float |};
        {| Grid := "b2"; Mask := 2; Area := 2%float |} ]%string
      ["Area"%string] true = Ok rows
    /\ map Freq rows = map Some fs
    /\ map Cumulative_Freq rows = map Some cs
    /\ (forall i j, (i < j < List.length rows)%nat -> nth i cs 0 < nth j cs 0).
Proof.
  destruct (cumulative_freq_grows stable_sort_values
              [ {| Grid := "a1"; Mask := 2; Area := 2%float |};
                {| Grid := "a1"; Mask := 3; Area := 1%float |};
                {| Grid := "b2"; Mask := 2; Area := 2%float |} ]%string
              ["Area"%string] true BuilderFacts.stable_sort_values_perm)
    as (rows & fs & cs & Hrun & Hf & Hc & _ & Hmono & _).
  - discriminate.
  - intros label [<-|[]]. simpl. auto.
  - intros r [<-|[<-|[<-|[]]]]; reflexivity.
  - exists rows, fs, cs. repeat (split; [assumption|]). exact Hmono.
Defined.

Lemma ltb_leb x y : PrimFloat.ltb x y = true -> PrimFloat.leb x y = true.
Proof.
  rewrite FloatAxioms.ltb_spec, FloatAxioms.leb_spec. unfold SFltb, SFleb.
  destruct (SFcompare _ _) as [[| |]|]; (discriminate || reflexivity).
Qed.

(** One entry of the percentage column lies above 0 and not above 100. *)
Lemma percentage_in_range a N :
  1 <= a <= N -> N < 2 ^ 49 ->
  PrimFloat.ltb 0 (float_of_count a / float_of_count N * 100)%float = true
  /\ PrimFloat.leb (float_of_count a / float_of_count N * 100)%float 100 = true.
Proof.
  intros Ha HN.
  assert (H53 : N < 2 ^ 53) by (apply Z.lt_trans with (2 ^ 49); [assumption | reflexivity]).
  split.
  - destruct (percentage_value a N Ha H53) as (mx & ex & my & ey & E & _).
    rewrite FloatAxioms.ltb_spec, E. reflexivity.
  - destruct (Z.eq_dec a N) as [->|Hne].
    + rewrite percentage_last by lia. reflexivity.
    + apply ltb_leb. rewrite <- (percentage_last N) at 2 by lia.
      apply percentage_increasing; lia.
Qed.

(** X25.  In the fully sorted CSV of a table of fewer than 2^49 measured
    areas every row has a percentage, and it is above 0 and at most
    100. *)
Theorem percentages_lie_between_0_and_100 :
  forall (sort_values : list string -> list image_data -> list image_data)
         (images_df : list image_data) (sort_by : list string),
    (forall labels t, Permutation (sort_values labels t) t) ->
    images_df <> [] ->
    (forall label, In label sort_by -> In label ["Grid"; "Mask"; "Area"]%string) ->
    (forall r, In r images_df -> PrimFloat.leb 0 (Area r) = true) ->
    Z.of_nat (List.length images_df) < 2 ^ 49 ->
    exists rows,
      update_and_save_dataframe sort_values images_df sort_by true = Ok rows
      /\ forall row, In row rows ->
           exists p, Percentage_of_Particle row = Some p
                     /\ PrimFloat.ltb 0 p = true /\ PrimFloat.leb p 100 = true.
Proof.
  intros sort_values images_df sort_by Hperm Hne Hlabels Hareas Hsize.
  destruct (BuilderFacts.builder_runs sort_values images_df sort_by true
              Hperm Hne Hlabels Hareas)
    as (rows & ds & Erun & _ & _ & Elen & _ & _ & _ & _ & Epct).
  exists rows. split; [exact Erun|].
  intros row Hin. apply (in_map Percentage_of_Particle) in Hin. rewrite Epct in Hin.
  apply in_map_iff in Hin. destruct Hin as (p & <- & Hp).
  exists p. split; [reflexivity|].
  unfold percentage_of_particle in Hp. apply in_map_iff in Hp.
  destruct Hp as (k & <- & Hk). apply in_seq in Hk.
  apply percentage_in_range; lia.
Qed.

Lemma percentages_lie_between_0_and_100_witness :
  exists rows,
    update_and_save_dataframe stable_sort_values
      [ {| Grid := "a1"; Mask := 2; Area := 2%float |};
        {| Grid := "a1"; Mask := 3; Area := 1%float |};
        {| Grid := "b2"; Mask := 2; Area := 2%float |} ]%string
      ["Area"%string] true = Ok rows
    /\ forall row, In row rows ->
         exists p, Percentage_of_Particle row = Some p
                   /\ PrimFloat.ltb 0 p = true /\ PrimFloat.leb p 100 = true.
Proof.
  apply (percentages_lie_between_0_and_100 stable_sort_values
           [ {| Grid := "a1"; Mask := 2; Area := 2%float |};
             {| Grid := "a1"; Mask := 3; Area := 1%float |};
             {| Grid := "b2"; Mask := 2; Area := 2%float |} ]%string
           ["Area"%string] BuilderFacts.stable_sort_values_perm).
  - discriminate.
  - intros label [<-|[]]. simpl. auto.
  - intros r [<-|[<-|[<-|[]]]]; reflexivity.
  - vm_compute. reflexivity.
Defined.

Lemma check_labels_unknown cols before label after :
  (forall b, In b before -> In b cols) -> ~ In label cols ->
  check_labels cols (before ++ label :: after) = Raise (KeyError label).
Proof.
  intros Hb Hl. induction before as [|b before IH]; cbn [app check_labels].
  - destruct (existsb (String.eqb label) cols) eqn:E; [|reflexivity].
    apply existsb_exists in E. destruct E as (x & Hx & Ex). apply String.eqb_eq in Ex.
    subst x. contradiction.
  - assert (E : existsb (String.eqb b) cols = true).
    { apply existsb_exists. exists b. split; [apply Hb; now left | apply String.eqb_refl]. }
    rewrite E. apply IH. intros x Hx. apply Hb. now right.
Qed.

(** X26.  The builder raises [KeyError] of the first sort label on a
    table without records; [KeyError] of the first sort label that is not
    a column on a table with records; and [ValueError] when the sort
    labels are columns and some record has an area at or below
    -2^-1020. *)
Theorem builder_errors :
  forall (sort_values : list string -> list image_data -> list image_data)
         (images_df : list image_data) (sort_by : list string) (calculate_percent : bool),
    (forall labels t, Permutation (sort_values labels t) t) ->
    (forall label rest, images_df = [] -> sort_by = label :: rest ->
       update_and_save_dataframe sort_values images_df sort_by calculate_percent
       = Raise (KeyError label))
    /\ (forall before label after,
          images_df <> [] -> sort_by = before ++ label :: after ->
          (forall b, In b before -> In b ["Grid"; "Mask"; "Area"]%string) ->
          ~ In label ["Grid"; "Mask"; "Area"]%string ->
          update_and_save_dataframe sort_values images_df sort_by calculate_percent
          = Raise (KeyError label))
    /\ (forall r,
          In r images_df -> PrimFloat.leb (Area r) (-0x1p-1020)%float = true ->
          (forall label, In label sort_by -> In label ["Grid"; "Mask"; "Area"]%string) ->
          update_and_save_dataframe sort_values images_df sort_by calculate_percent
          = Raise ValueError).
Proof.
  intros sort_values images_df sort_by calculate_percent Hperm. split; [|split].
  - intros label rest -> ->. reflexivity.
  - intros before label after Hne -> Hb Hl. unfold update_and_save_dataframe.
    destruct images_df as [|r0 records]; [now elim Hne|]. cbn [frame_columns].
    now rewrite check_labels_unknown.
  - intros r Hin Hneg Hlabels. unfold update_and_save_dataframe.
    destruct images_df as [|r0 records] eqn:Ei; [destruct Hin|]. rewrite <- Ei in *.
    assert (Hcols : frame_columns images_df = ["Grid"; "Mask"; "Area"]%string)
      by (rewrite Ei; reflexivity).
    rewrite Hcols, (BuilderFacts.check_labels_ok _ _ Hlabels). cbn [bind].
    pose proof (Hperm sort_by images_df) as P.
    assert (Hin' : In r (sort_values sort_by images_df))
      by (apply (Permutation_in r (Permutation_sym P)); exact Hin).
    destruct (sort_values sort_by images_df) as [|s0 sorted] eqn:Es; [destruct Hin'|].
    rewrite <- Es in *.
    assert (Hcols' : frame_columns (sort_values sort_by images_df)
                     = ["Grid"; "Mask"; "Area"]%string) by (rewrite Es; reflexivity).
    rewrite Hcols'. cbn [check_labels existsb String.eqb Ascii.eqb Bool.eqb orb bind].
    rewrite (PipelineFacts.mapM_raise get_diameter_from_area ValueError); [reflexivity | |].
    + intros x e. unfold get_diameter_from_area, math_sqrt.
      destruct (PrimFloat.ltb _ _); cbn [bind]; congruence.
    + exists (Area r). split; [now apply in_map | now apply below_zero_raises].
Qed.

Lemma builder_errors_witness :
  update_and_save_dataframe stable_sort_values
    [ {| Grid := "a1"; Mask := 2; Area := 2%float |};
      {| Grid := "a1"; Mask := 3; Area := (-1)%float |} ]%string
    ["Grid"; "Area"]%string false = Raise ValueError.
Proof.
  apply (proj2 (proj2 (builder_errors stable_sort_values
                         [ {| Grid := "a1"; Mask := 2; Area := 2%float |};
                           {| Grid := "a1"; Mask := 3; Area := (-1)%float |} ]%string
                         ["Grid"; "Area"]%string false BuilderFacts.stable_sort_values_perm))
           {| Grid := "a1"; Mask := 3; Area := (-1)%float |}).
  - simpl. auto.
  - reflexivity.
  - intros label [<-|[<-|[]]]; simpl; auto.
Defined.

End DistributionFacts.

(** * The labels of the plot *)

Module PlotFacts.
Import MaskArea ScanFacts.

Lemma split_underscore_cons c r :
  split_underscore (String c r)
  = if Ascii.eqb c "_" then EmptyString :: split_underscore r
    else match split_underscore r with
         | field :: fields => String c field :: fields
         | [] => [String c EmptyString]
         end.
Proof. reflexivity. Qed.

Lemma split_underscore_nonempty s : split_underscore s <> [].
Proof.
  destruct s as [|c r]; [discriminate|]. rewrite split_underscore_cons.
  destruct (Ascii.eqb c "_"); [discriminate|].
  destruct (split_underscore r); discriminate.
Qed.

(** The first field is what stands before the first underscore. *)
Lemma split_underscore_field a rest :
  all_chars not_underscore a = true ->
  split_underscore (a ++ String "_" rest) = a :: split_underscore rest.
Proof.
  induction a as [|c a IH]; intros H; [reflexivity|].
  cbn [all_chars] in H. apply andb_true_iff in H. destruct H as [Hc Ha].
  change (String c a ++ String "_" rest)%string with (String c (a ++ String "_" rest)).
  rewrite split_underscore_cons, (IH Ha).
  unfold not_underscore in Hc. apply negb_true_iff in Hc. now rewrite Hc.
Qed.

Lemma split_underscore_last a :
  all_chars not_underscore a = true -> split_underscore a = [a].
Proof.
  induction a as [|c a IH]; intros H; [reflexivity|].
  cbn [all_chars] in H. apply andb_true_iff in H. destruct H as [Hc Ha].
  rewrite split_underscore_cons, (IH Ha).
  unfold not_underscore in Hc. apply negb_true_iff in Hc. now rewrite Hc.
Qed.

Lemma contains_underscore_two_fields s :
  all_chars not_underscore s = false -> (2 <= List.length (split_underscore s))%nat.
Proof.
  induction s as [|c r IH]; [discriminate|].
  cbn [all_chars]. rewrite split_underscore_cons. unfold not_underscore at 1.
  destruct (Ascii.eqb c "_"); cbn [negb andb].
  - intros _. pose proof (split_underscore_nonempty r).
    destruct (split_underscore r); [contradiction | simpl; lia].
  - intros H. specialize (IH H). destruct (split_underscore r) as [|f fs]; simpl in *; lia.
Qed.

Lemma starts_with_spec p s :
  starts_with p s = true -> exists rest, s = (p ++ rest)%string.
Proof.
  revert s. induction p as [|a p IH]; intros s H; [now exists s|].
  destruct s as [|b s]; [discriminate|]. cbn [starts_with] in H.
  apply andb_true_iff in H. destruct H as [Hab H]. apply Ascii.eqb_eq in Hab. subst b.
  destruct (IH s H) as [rest ->]. now exists rest.
Qed.

Lemma starts_with_full_sort s :
  starts_with "full_sort" s = true -> all_chars not_underscore s = false.
Proof.
  intros H. destruct (starts_with_spec _ _ H) as [rest ->].
  now rewrite all_chars_app.
Qed.

Lemma contains_full_sort s :
  contains "full_sort" s = true -> all_chars not_underscore s = false.
Proof.
  induction s as [|c r IH].
  - discriminate.
  - cbn [contains]. intros H. apply orb_true_iff in H. destruct H as [H|H].
    + now apply starts_with_full_sort.
    + cbn [all_chars]. rewrite (IH H). apply andb_false_r.
Qed.

(** X27.  For every CSV that [plot_data] picks up, [stem.split("_")[1]]
    exists, so the label is never an [IndexError]: a stem that holds
    [full_sort] holds an underscore.  For a stem
    [<experiment>_<subdirectory>_<rest>] with no underscore inside the
    experiment and the subdirectory part, the label is the subdirectory
    part. *)
Theorem plotted_csv_has_a_label :
  forall suffix stem : string,
    is_plotted suffix stem = true ->
    (exists label, plot_label stem = Some label)
    /\ (forall experiment subdirectory rest,
          stem = (experiment ++ "_" ++ subdirectory ++ "_" ++ rest)%string ->
          all_chars not_underscore experiment = true ->
          all_chars not_underscore subdirectory = true ->
          plot_label stem = Some subdirectory).
Proof.
  intros suffix stem H. unfold is_plotted in H. apply andb_true_iff in H. destruct H as [_ H].
  split.
  - pose proof (contains_underscore_two_fields stem (contains_full_sort stem H)) as L.
    unfold plot_label. destruct (split_underscore stem) as [|f0 [|f1 fs]]; simpl in L; try lia.
    now exists f1.
  - intros experiment subdirectory rest -> He Hs. unfold plot_label.
    change ("_" ++ subdirectory ++ "_" ++ rest)%string
      with (String "_" (subdirectory ++ String "_" rest)).
    rewrite (split_underscore_field experiment _ He), (split_underscore_field subdirectory _ Hs).
    reflexivity.
Qed.

Lemma plotted_csv_has_a_label_witness :
  plot_label "experiment1_before_full_sort" = Some "before"%string.
Proof.
  apply (proj2 (plotted_csv_has_a_label ".csv" "experiment1_before_full_sort" eq_refl)
           "experiment1"%string "before"%string "full_sort"%string); reflexivity.
Defined.

End PlotFacts.
